(** * medow: a resumable single-file downloader

    Shallow embedding of [downloader/downloader.go], of [main.go] and of
    [FormatEta] of [downloader/format.go].  The Go standard library calls
    the program makes ([os], [strconv], [fmt], [net/http], [sync/atomic],
    [time]) are modelled by small executable definitions, grouped in modules
    named after the Go packages.  What the program prints is left out, and
    with it [FormatSpeed], [PrintFormattedInfo] and the speed and remaining
    time a tick computes for the progress line, all of which work on
    [float64]. *)

From Stdlib Require Import ZArith String Ascii List Lia DecimalString DecimalZ.
From stdpp Require Import gmap strings list fin_maps.

Local Open Scope Z_scope.

Abbreviation byte := Byte.byte.

(** ** Go values *)

(** Go's [error] interface: the sentinel values the program can meet, the
    errors it builds itself with [fmt.Errorf], and whatever else the network
    or the storage device hands over.  [nil] is [None : option error]. *)
Inductive error : Type :=
| io_EOF
| os_ErrInvalid
| os_ErrClosed
| os_ErrNotExist
| os_ErrPermission
| strconv_ErrSyntax
| strconv_ErrRange
| Errorf (msg : string)
| EnvError (code : nat).

(** [readErr == io.EOF] *)
Definition is_EOF (e : error) : bool :=
  match e with io_EOF => true | _ => false end.

(** [err != nil] *)
Definition non_nil (e : option error) : bool :=
  match e with Some _ => true | None => false end.

Definition int64_min : Z := - 2 ^ 63.
Definition int64_max : Z := 2 ^ 63 - 1.

(** Two's complement wrap-around of [int64] arithmetic. *)
Definition wrap64 (z : Z) : Z := (z + 2 ^ 63) mod 2 ^ 64 - 2 ^ 63.

Definition in_int64 (z : Z) : Prop := int64_min <= z <= int64_max.

(** ** [strconv] and [fmt.Sprintf("%d", _)] *)

Module strconv.

(** [strconv.ParseInt(s, 10, 64)]: an optional sign, then one or more
    decimal digits and nothing else; a value outside [int64] is a range
    error and comes back clamped. *)
Definition ParseInt (s : string) : Z * option error :=
  match s with
  | EmptyString => (0, Some strconv_ErrSyntax)
  | String c rest =>
      let '(neg, digits) :=
        if Ascii.eqb c "+" then (false, rest)
        else if Ascii.eqb c "-" then (true, rest)
        else (false, s) in
      match NilEmpty.uint_of_string digits with
      | None => (0, Some strconv_ErrSyntax)
      | Some Decimal.Nil => (0, Some strconv_ErrSyntax)
      | Some u =>
          let v := Z.of_uint u in
          if neg then
            if v <=? 2 ^ 63 then (- v, None) else (int64_min, Some strconv_ErrRange)
          else
            if v <? 2 ^ 63 then (v, None) else (int64_max, Some strconv_ErrRange)
      end
  end.

(** [fmt.Sprintf("%d", n)] *)
Definition FormatInt (n : Z) : string := NilEmpty.string_of_int (Z.to_int n).

End strconv.

(** ** [os]: files, handles and the name space *)

Module os.

(** A file on the device: its current bytes, the bytes that had reached
    stable storage at the last [Sync], and whether this process may open
    it. *)
Record Inode : Type := mkInode {
  idata : list byte;
  isynced : list byte;
  iperm : bool
}.

(** An [*os.File]: the inode it was opened on, its cursor, and whether
    [Close] has been called on it. *)
Record File : Type := mkFile {
  fino : nat;
  fpos : nat;
  fclosed : bool
}.

(** Names are links to inodes: removing a name leaves the inode to the
    handles that are still open on it. *)
Record FS : Type := mkFS {
  names : gmap string nat;
  inodes : list Inode
}.

(** What the device does with one [Write] call on the output file:
    [None] takes all the bytes; [Some (k, e)] takes the first [k] of them
    and reports [e] (a short write). *)
Definition WFault : Type := option (nat * error).

Definition lookup_path (fs : FS) (path : string) : option Inode :=
  match names fs !! path with
  | Some i => inodes fs !! i
  | None => None
  end.

Definition ReadFile (fs : FS) (path : string) : list byte * option error :=
  match lookup_path fs path with
  | None => ([], Some os_ErrNotExist)
  | Some nd => if iperm nd then (idata nd, None) else ([], Some os_ErrPermission)
  end.

(** [os.OpenFile(path, os.O_CREATE|..., 0644)] without [O_TRUNC] or
    [O_APPEND]: an existing file is opened as it is, with the cursor at 0;
    a missing one is created empty. *)
Definition OpenFile (fs : FS) (path : string) : option File * option error * FS :=
  match names fs !! path with
  | Some i =>
      match inodes fs !! i with
      | Some nd =>
          if iperm nd then (Some (mkFile i 0 false), None, fs)
          else (None, Some os_ErrPermission, fs)
      | None => (None, Some os_ErrNotExist, fs)
      end
  | None =>
      let i := length (inodes fs) in
      (Some (mkFile i 0 false), None,
       mkFS (<[path := i]> (names fs)) (inodes fs ++ [mkInode [] [] true]))
  end.

(** Bytes of a file after writing [data] at offset [pos]: writing nothing
    changes nothing; otherwise a gap past the old end reads as zeros. *)
Definition pwrite (old : list byte) (pos : nat) (data : list byte) : list byte :=
  match data with
  | [] => old
  | _ :: _ =>
      take pos (old ++ replicate (pos - length old)%nat Byte.x00)
        ++ data ++ drop (pos + length data)%nat old
  end.

Definition set_idata (bs : list byte) (nd : Inode) : Inode :=
  mkInode bs (isynced nd) (iperm nd).

(** [f.Write(data)]: the count of bytes taken, the error, the handle and
    the file system afterwards. *)
Definition Write (fs : FS) (f : File) (data : list byte) (fault : WFault)
  : nat * option error * File * FS :=
  if fclosed f then (0%nat, Some os_ErrClosed, f, fs)
  else
    let taken := match fault with Some (k, _) => take k data | None => data end in
    let err := match fault with Some (_, e) => Some e | None => None end in
    (length taken, err,
     mkFile (fino f) (fpos f + length taken)%nat false,
     mkFS (names fs)
          (alter (fun nd => set_idata (pwrite (idata nd) (fpos f) taken) nd)
                 (fino f) (inodes fs))).

(** [f.Seek(offset, 0)] *)
Definition Seek (f : File) (offset : Z) : Z * option error * File :=
  if fclosed f then (0, Some os_ErrClosed, f)
  else if offset <? 0 then (0, Some os_ErrInvalid, f)
  else (offset, None, mkFile (fino f) (Z.to_nat offset) false).

(** [f.Truncate(size)] *)
Definition Truncate (fs : FS) (f : File) (size : nat) : option error * FS :=
  if fclosed f then (Some os_ErrClosed, fs)
  else
    (None,
     mkFS (names fs)
          (alter (fun nd =>
                    set_idata (take size (idata nd)
                                 ++ replicate (size - length (idata nd))%nat Byte.x00) nd)
                 (fino f) (inodes fs))).

(** [f.Sync()] *)
Definition Sync (fs : FS) (f : File) : option error * FS :=
  if fclosed f then (Some os_ErrClosed, fs)
  else
    (None,
     mkFS (names fs)
          (alter (fun nd => mkInode (idata nd) (idata nd) (iperm nd))
                 (fino f) (inodes fs))).

(** [f.Close()] *)
Definition Close (f : File) : option error * File :=
  if fclosed f then (Some os_ErrClosed, f)
  else (None, mkFile (fino f) (fpos f) true).

(** [os.Remove(path)] *)
Definition Remove (fs : FS) (path : string) : option error * FS :=
  match names fs !! path with
  | None => (Some os_ErrNotExist, fs)
  | Some _ => (None, mkFS (delete path (names fs)) (inodes fs))
  end.

(** Bytes a handle's inode holds. *)
Definition contents (fs : FS) (f : File) : list byte :=
  match inodes fs !! fino f with
  | Some nd => idata nd
  | None => []
  end.

(** Bytes of a handle's inode that have reached stable storage. *)
Definition durable (fs : FS) (f : File) : list byte :=
  match inodes fs !! fino f with
  | Some nd => isynced nd
  | None => []
  end.

End os.

(** ** [net/http] *)

Module http.

Record Request : Type := mkRequest {
  Method : string;
  URL : string;
  Header : gmap string string
}.

(** One call of [Body.Read(buf)]: the bytes delivered into the buffer,
    the error returned with them, and the time the call took (in
    nanoseconds; only the rate-limited loop looks at the clock). *)
Record ReadResult : Type := mkRead {
  rdata : list byte;
  rerr : option error;
  rtime : Z
}.

(** A response.  [Body] is the script of what successive [Read] calls
    return; once the script is used up the reader reports [io.EOF] with no
    bytes, as a response body does at its end. *)
Record Response : Type := mkResponse {
  StatusCode : Z;
  Status : string;
  RespHeader : gmap string string;
  Body : list ReadResult
}.

(** The network as the program sees it: which URLs [http.NewRequest]
    accepts, and what [httpClient.Do] answers to a request. *)
Record Env : Type := mkEnv {
  url_ok : string -> bool;
  Do : Request -> Response + error
}.

Definition StatusOK : Z := 200.
Definition StatusPartialContent : Z := 206.

(** [h.Get(key)]: the empty string when the header is absent. *)
Definition Get (h : gmap string string) (key : string) : string :=
  default EmptyString (h !! key).

(** [http.NewRequest("GET", url, nil)] *)
Definition NewRequest (env : Env) (url : string) : option Request * option error :=
  if url_ok env url then (Some (mkRequest "GET" url ∅), None)
  else (None, Some (EnvError 0)).

Definition HeaderSet (req : Request) (key value : string) : Request :=
  mkRequest (Method req) (URL req) (<[key := value]> (Header req)).

End http.

Import http.

(** ** The downloader *)

Record Downloader : Type := mkDownloader {
  Url : string;
  FilePath : string;
  ProgressPath : string;
  UseProgressFile : bool;
  Downloaded : Z;
  TotalSize : Z;
  ResumedAt : Z;
  PassedMilliSc : Z;
  OutputFile : option os.File;
  ProgressFile : option os.File;
  BufferSize : Z
}.

Definition set_Downloaded (v : Z) (d : Downloader) : Downloader :=
  mkDownloader (Url d) (FilePath d) (ProgressPath d) (UseProgressFile d)
    v (TotalSize d) (ResumedAt d) (PassedMilliSc d)
    (OutputFile d) (ProgressFile d) (BufferSize d).

Definition set_TotalSize (v : Z) (d : Downloader) : Downloader :=
  mkDownloader (Url d) (FilePath d) (ProgressPath d) (UseProgressFile d)
    (Downloaded d) v (ResumedAt d) (PassedMilliSc d)
    (OutputFile d) (ProgressFile d) (BufferSize d).

Definition set_ResumedAt (v : Z) (d : Downloader) : Downloader :=
  mkDownloader (Url d) (FilePath d) (ProgressPath d) (UseProgressFile d)
    (Downloaded d) (TotalSize d) v (PassedMilliSc d)
    (OutputFile d) (ProgressFile d) (BufferSize d).

Definition set_PassedMilliSc (v : Z) (d : Downloader) : Downloader :=
  mkDownloader (Url d) (FilePath d) (ProgressPath d) (UseProgressFile d)
    (Downloaded d) (TotalSize d) (ResumedAt d) v
    (OutputFile d) (ProgressFile d) (BufferSize d).

Definition set_OutputFile (f : option os.File) (d : Downloader) : Downloader :=
  mkDownloader (Url d) (FilePath d) (ProgressPath d) (UseProgressFile d)
    (Downloaded d) (TotalSize d) (ResumedAt d) (PassedMilliSc d)
    f (ProgressFile d) (BufferSize d).

Definition set_ProgressFile (f : option os.File) (d : Downloader) : Downloader :=
  mkDownloader (Url d) (FilePath d) (ProgressPath d) (UseProgressFile d)
    (Downloaded d) (TotalSize d) (ResumedAt d) (PassedMilliSc d)
    (OutputFile d) f (BufferSize d).

(** Everything the downloader's methods read and change: the [Downloader]
    object itself, the file system, what the device will do with the coming
    writes to the output file, and the wall clock (nanoseconds). *)
Record World : Type := mkWorld {
  dl : Downloader;
  fs : os.FS;
  faults : list os.WFault;
  clock : Z
}.

Definition set_dl (d : Downloader) (w : World) : World :=
  mkWorld d (fs w) (faults w) (clock w).

Definition set_fs (s : os.FS) (w : World) : World :=
  mkWorld (dl w) s (faults w) (clock w).

Definition set_faults (l : list os.WFault) (w : World) : World :=
  mkWorld (dl w) (fs w) l (clock w).

Definition set_clock (t : Z) (w : World) : World :=
  mkWorld (dl w) (fs w) (faults w) t.

Definition NewDownloader (url filepath : string) (useProgressFile : bool) : Downloader :=
  mkDownloader url filepath (filepath +:+ ".progress") useProgressFile
    0 0 0 0 None None 32768.

Definition ReadProgress (w : World) : World :=
  let d := dl w in
  let '(data, err) := os.ReadFile (fs w) (ProgressPath d) in
  if non_nil err then set_dl (set_Downloaded 0 d) w
  else
    let '(parsedNum, err) := strconv.ParseInt (string_of_list_byte data) in
    if non_nil err || (parsedNum <? 0) then set_dl (set_Downloaded 0 d) w
    else set_dl (set_ResumedAt parsedNum (set_Downloaded parsedNum d)) w.

Definition CreateRequest (env : Env) (w : World)
  : option Request * option error * World :=
  let '(req, err) := NewRequest env (Url (dl w)) in
  match req, err with
  | Some req, None =>
      if UseProgressFile (dl w) then
        let w := ReadProgress w in
        if 0 <? Downloaded (dl w) then
          (Some (HeaderSet req "Range"
                   ("bytes=" +:+ strconv.FormatInt (Downloaded (dl w)) +:+ "-")),
           None, w)
        else (Some req, None, w)
      else (Some req, None, w)
  | _, _ => (None, err, w)
  end.

(** [d.OutputFile.Write(buf[:n])], the error it returns.  The next entry of
    the fault script decides what the device does with the call. *)
Definition write_output (data : list byte) (w : World) : option error * World :=
  match OutputFile (dl w) with
  | None => (Some os_ErrInvalid, w)
  | Some f =>
      let '(_, writeErr, f', fs') := os.Write (fs w) f data (default None (head (faults w))) in
      (writeErr, mkWorld (set_OutputFile (Some f') (dl w)) fs' (tail (faults w)) (clock w))
  end.

(** [atomic.AddInt64(&d.Downloaded, int64(n))] *)
Definition add_downloaded (n : Z) (w : World) : World :=
  set_dl (set_Downloaded (wrap64 (Downloaded (dl w) + n)) (dl w)) w.

(** The time a [Read] call blocks. *)
Definition pass_time (dt : Z) (w : World) : World := set_clock (clock w + dt) w.

(** The loop of [DownloadChunks], one iteration per [Read] of the body
    script; the empty script is the reader at its end, [Read] returning
    [(0, io.EOF)]. *)
Fixpoint DownloadChunks (body : list ReadResult) (w : World) : option error * World :=
  match body with
  | [] => (None, w)
  | r :: body =>
      let w := pass_time (rtime r) w in
      let n := Z.of_nat (length (rdata r)) in
      let '(writeErr, w) :=
        if 0 <? n then
          let '(writeErr, w) := write_output (rdata r) w in
          if non_nil writeErr then (writeErr, w)
          else (None, add_downloaded n w)
        else (None, w) in
      match writeErr with
      | Some e => (Some e, w)
      | None =>
          match rerr r with
          | Some e => if is_EOF e then (None, w) else (Some e, w)
          | None => DownloadChunks body w
          end
      end
  end.

Module time.

Definition Second : Z := 1000000000.

(** [time.Duration(float64(a) / float64(b))]: the float quotient converted
    to an integer count, which truncates it toward zero.  For
    [0 <= a < 2^53] and [0 < b < 2^53] both conversions to [float64] are
    exact and the correctly rounded quotient never reaches the next integer,
    so the result is the integer quotient. *)
Definition DurationOfQuotient (a b : Z) : Z := Z.quot a b.

End time.

(** The loop of [DownloadChunksWithLimit]; [startTime] and [totalBytes] are
    its two local variables. *)
Fixpoint limit_loop (startTime totalBytes maxSpeedBytes : Z)
    (body : list ReadResult) (w : World) : option error * World :=
  match body with
  | [] => (None, w)
  | r :: body =>
      let w := pass_time (rtime r) w in
      let n := Z.of_nat (length (rdata r)) in
      let '(writeErr, totalBytes, w) :=
        if 0 <? n then
          let '(writeErr, w) := write_output (rdata r) w in
          if non_nil writeErr then (writeErr, totalBytes, w)
          else
            let w := add_downloaded n w in
            let totalBytes := wrap64 (totalBytes + n) in
            let expectedDuration :=
              wrap64 (time.DurationOfQuotient totalBytes maxSpeedBytes * time.Second) in
            let elapsed := clock w - startTime in
            let sleepDuration := expectedDuration - elapsed in
            if 0 <? sleepDuration
            then (None, totalBytes, pass_time sleepDuration w)
            else (None, totalBytes, w)
        else (None, totalBytes, w) in
      match writeErr with
      | Some e => (Some e, w)
      | None =>
          match rerr r with
          | Some e => if is_EOF e then (None, w) else (Some e, w)
          | None => limit_loop startTime totalBytes maxSpeedBytes body w
          end
      end
  end.

Definition DownloadChunksWithLimit (body : list ReadResult) (maxSpeedBytes : Z) (w : World)
  : option error * World :=
  limit_loop (clock w) 0 maxSpeedBytes body w.

(** ** The two goroutines of [Download]

    From the call of [ManageProgressPrinter] on, [Download] and the reporter
    goroutine run side by side on the same [Downloader].  Each is cut into
    its atomic actions (one call into [os], [io] or [sync/atomic] each), and
    a schedule says whose action comes next. *)

(** Where the goroutine of [Download] stands. *)
Inductive MainPc : Type :=
| MRead                               (* in DownloadChunks, before body.Read *)
| MWrite (r : ReadResult)             (* Read gave r with n > 0, before OutputFile.Write *)
| MAdd (r : ReadResult)               (* the write went through, before atomic.AddInt64 *)
| MReturned (err : option error)      (* DownloadChunks has returned err *)
| MCloseProgress (err : option error) (* deferred d.ProgressFile.Close() *)
| MCloseOutput (err : option error)   (* deferred d.OutputFile.Close() *)
| MDone (err : option error).         (* Download has returned err *)

(** Where the goroutine started by [ManageProgressPrinter] stands;
    [current] is its local variable. *)
Inductive ReporterPc : Type :=
| RNotStarted
| RSelect                             (* blocked in select *)
| RSeek (current : Z)                 (* before d.ProgressFile.Seek(0, 0) *)
| RTruncate (current : Z)             (* before d.ProgressFile.Truncate(0) *)
| RWriteString (current : Z)          (* before d.ProgressFile.WriteString(...) *)
| RSync                               (* before d.ProgressFile.Sync() *)
| RStopped.                           (* the goroutine has returned *)

(** [stopChan] holds whether anything was ever sent on the channel or the
    channel was closed. *)
Record State : Type := mkState {
  world : World;
  body : list ReadResult;
  stopChan : bool;
  main : MainPc;
  reporter : ReporterPc
}.

Definition set_main (pc : MainPc) (st : State) : State :=
  mkState (world st) (body st) (stopChan st) pc (reporter st).

Definition set_reporter (pc : ReporterPc) (st : State) : State :=
  mkState (world st) (body st) (stopChan st) (main st) pc.

Definition set_world (w : World) (st : State) : State :=
  mkState w (body st) (stopChan st) (main st) (reporter st).

Definition set_body (b : list ReadResult) (st : State) : State :=
  mkState (world st) b (stopChan st) (main st) (reporter st).

(** The test of [readErr] that ends an iteration of the loop. *)
Definition after_chunk (r : ReadResult) : MainPc :=
  match rerr r with
  | Some e => if is_EOF e then MReturned None else MReturned (Some e)
  | None => MRead
  end.

(** Apply an operation to the progress handle, dropping its error as the
    source does. *)
Definition on_progress (op : os.FS -> os.File -> os.FS * os.File) (w : World) : World :=
  match ProgressFile (dl w) with
  | None => w
  | Some f =>
      let '(fs', f') := op (fs w) f in
      set_fs fs' (set_dl (set_ProgressFile (Some f') (dl w)) w)
  end.

Definition close_progress (w : World) : World :=
  on_progress (fun s f => (s, snd (os.Close f))) w.

Definition close_output (w : World) : World :=
  match OutputFile (dl w) with
  | None => w
  | Some f => set_dl (set_OutputFile (Some (snd (os.Close f))) (dl w)) w
  end.

Definition main_step (st : State) : State :=
  match main st with
  | MRead =>
      match body st with
      | [] => set_main (MReturned None) st
      | r :: rest =>
          let st := set_body rest (set_world (pass_time (rtime r) (world st)) st) in
          if 0 <? Z.of_nat (length (rdata r)) then set_main (MWrite r) st
          else set_main (after_chunk r) st
      end
  | MWrite r =>
      let '(writeErr, w) := write_output (rdata r) (world st) in
      if non_nil writeErr then set_main (MReturned writeErr) (set_world w st)
      else set_main (MAdd r) (set_world w st)
  | MAdd r =>
      set_main (after_chunk r)
        (set_world (add_downloaded (Z.of_nat (length (rdata r))) (world st)) st)
  | MReturned err =>
      let w := world st in
      let w := if non_nil err then w
               else set_fs (snd (os.Remove (fs w) (ProgressPath (dl w)))) w in
      set_main (MCloseProgress err) (set_world w st)
  | MCloseProgress err =>
      set_main (MCloseOutput err) (set_world (close_progress (world st)) st)
  | MCloseOutput err =>
      set_main (MDone err) (set_world (close_output (world st)) st)
  | MDone _ => st
  end.

(** One action of the reporter when the ticker case of its [select] is
    taken, or the next file operation of the tick under way. *)
Definition reporter_step (st : State) : State :=
  let w := world st in
  match reporter st with
  | RNotStarted | RStopped => st
  | RSelect =>
      let current := Downloaded (dl w) in
      let w := set_dl (set_PassedMilliSc (wrap64 (PassedMilliSc (dl w) + 1000)) (dl w)) w in
      match ProgressFile (dl w) with
      | Some _ => set_reporter (RSeek current) (set_world w st)
      | None => set_reporter RSelect (set_world w st)
      end
  | RSeek current =>
      set_reporter (RTruncate current)
        (set_world (on_progress (fun s f => (s, snd (os.Seek f 0))) w) st)
  | RTruncate current =>
      set_reporter (RWriteString current)
        (set_world (on_progress (fun s f => (snd (os.Truncate s f 0), f)) w) st)
  | RWriteString current =>
      set_reporter RSync
        (set_world
           (on_progress
              (fun s f =>
                 let '(_, _, f', s') :=
                   os.Write s f (list_byte_of_string (strconv.FormatInt current)) None in
                 (s', f')) w) st)
  | RSync =>
      set_reporter RSelect
        (set_world (on_progress (fun s f => (snd (os.Sync s f), f)) w) st)
  end.

(** The [stopChan] case of the reporter's [select]. *)
Definition reporter_stop (st : State) : State :=
  match reporter st with
  | RSelect => if stopChan st then set_reporter RStopped st else st
  | _ => st
  end.

Inductive Actor : Type := Main | Reporter | ReporterStop.

Definition step (a : Actor) (st : State) : State :=
  match a with
  | Main => main_step st
  | Reporter => reporter_step st
  | ReporterStop => reporter_stop st
  end.

Definition run (sched : list Actor) (st : State) : State :=
  fold_left (fun s a => step a s) sched st.

(** [ManageProgressPrinter(stopChan)]: start the goroutine and return. *)
Definition ManageProgressPrinter (st : State) : State := set_reporter RSelect st.

Definition newline : string := String "010"%char EmptyString.

Definition bad_status (resp : Response) : error :=
  Errorf ("bad HTTP status " +:+ Status resp +:+ newline).

Definition resume_rejected (d : Downloader) : error :=
  Errorf ("Server does not support partial downloads, if you want to continue please remove file: "
            +:+ ProgressPath d +:+ newline).

(** A return of [Download] before the reporter exists. *)
Definition exit (err : option error) (w : World) : State :=
  mkState w [] false (MDone err) RNotStarted.

(** [Download] up to the call of [DownloadChunks]: every early return, with
    the deferred closes it runs, or the state in which the two goroutines
    start. *)
Definition Download_start (env : Env) (w : World) : State :=
  let '(req, err, w) := CreateRequest env w in
  match req, err with
  | Some req, None =>
      match Do env req with
      | inr err => exit (Some err) w
      | inl resp =>
          if negb (StatusCode resp =? StatusOK) && negb (StatusCode resp =? StatusPartialContent)
          then exit (Some (bad_status resp)) w
          else if (0 <? Downloaded (dl w)) && negb (StatusCode resp =? StatusPartialContent)
          then exit (Some (resume_rejected (dl w))) w
          else
            let contentLenStr := Get (RespHeader resp) "Content-Length" in
            let '(contentLen, err) :=
              if String.eqb contentLenStr EmptyString then (0, None)
              else strconv.ParseInt contentLenStr in
            if non_nil err then exit err w
            else
              let w :=
                if String.eqb contentLenStr EmptyString then w
                else set_dl (set_TotalSize (wrap64 (Downloaded (dl w) + contentLen)) (dl w)) w in
              let '(f, err, fs') := os.OpenFile (fs w) (FilePath (dl w)) in
              let w := set_fs fs' (set_dl (set_OutputFile f (dl w)) w) in
              match f, err with
              | Some out, None =>
                  let '(_, err, out) := os.Seek out (Downloaded (dl w)) in
                  let w := set_dl (set_OutputFile (Some out) (dl w)) w in
                  if non_nil err then exit err (close_output w)
                  else
                    let '(f, err, fs') := os.OpenFile (fs w) (ProgressPath (dl w)) in
                    let w := set_fs fs' (set_dl (set_ProgressFile f (dl w)) w) in
                    match f, err with
                    | Some _, None =>
                        ManageProgressPrinter (mkState w (Body resp) false MRead RNotStarted)
                    | _, _ => exit err (close_output w)
                    end
              | _, _ => exit err w
              end
      end
  | _, _ => exit err w
  end.

(** [Download] under a schedule of the two goroutines. *)
Definition Download (env : Env) (sched : list Actor) (w : World) : State :=
  run sched (Download_start env w).

(** The value [Download] has returned, if it has. *)
Definition returned (st : State) : option (option error) :=
  match main st with
  | MDone err => Some err
  | _ => None
  end.

(** ** Vocabulary of the statements *)

(** What the progress file holds, as [ReadProgress] can find it. *)
Inductive ProgressState : Type :=
| Absent
| Unreadable
| Malformed
| Negative (v : Z)
| Stored (v : Z).

Definition progress_state (s : os.FS) (path : string) : ProgressState :=
  match os.lookup_path s path with
  | None => Absent
  | Some nd =>
      if os.iperm nd then
        match strconv.ParseInt (string_of_list_byte (os.idata nd)) with
        | (_, Some _) => Malformed
        | (v, None) => if v <? 0 then Negative v else Stored v
        end
      else Unreadable
  end.

(** The resume offset a progress file stands for. *)
Definition baseline (s : os.FS) (path : string) : Z :=
  match progress_state s path with
  | Stored v => v
  | _ => 0
  end.

(** The bytes of the decimal numeral of [n], as the reporter writes them. *)
Definition decimal (n : Z) : list byte := list_byte_of_string (strconv.FormatInt n).

(** ** Example inputs *)

(** A file system holding one readable file. *)
Definition one_file (path content : string) : os.FS :=
  os.mkFS {[path := 0%nat]} [os.mkInode (list_byte_of_string content) [] true].

Definition no_files : os.FS := os.mkFS ∅ [].

Definition text_read (s : string) (e : option error) : ReadResult :=
  mkRead (list_byte_of_string s) e 0.

(** A server that ignores [Range] and answers 200 with the whole content. *)
Definition server_200 : Env :=
  mkEnv (fun _ => true)
        (fun _ => inl (mkResponse 200 "200 OK" {["Content-Length" := "10"]}
                         [text_read "0123456789" None])).

(** A server that answers 404. *)
Definition server_404 : Env :=
  mkEnv (fun _ => true) (fun _ => inl (mkResponse 404 "404 Not Found" ∅ [])).

Definition fresh_world (s : os.FS) : World :=
  mkWorld (NewDownloader "http://host/f" "f" true) s [] 0.

(** The bytes a run of reads delivers. *)
Definition body_data (reads : list ReadResult) : list byte :=
  concat (map rdata reads).

Definition body_bytes (reads : list ReadResult) : Z :=
  Z.of_nat (length (body_data reads)).

(** [n > 0] for a read. *)
Definition has_data (r : ReadResult) : bool := 0 <? Z.of_nat (length (rdata r)).

(** How many [Write] calls a run of reads leads to. *)
Fixpoint data_reads (reads : list ReadResult) : nat :=
  match reads with
  | [] => 0%nat
  | r :: reads => ((if has_data r then 1 else 0) + data_reads reads)%nat
  end.

(** The reads of a body up to and including the first one that returns an
    error. *)
Fixpoint taken (body : list ReadResult) : list ReadResult :=
  match body with
  | [] => []
  | r :: body => match rerr r with Some _ => [r] | None => r :: taken body end
  end.

(** What the first read error of a body asks for: success at end of stream
    (the script running out is the end of the stream), the error
    otherwise. *)
Fixpoint read_verdict (body : list ReadResult) : option error :=
  match body with
  | [] => None
  | r :: body =>
      match rerr r with
      | Some e => if is_EOF e then None else Some e
      | None => read_verdict body
      end
  end.

(** The output handle is there, open, and on an inode of the device. *)
Definition output_open (w : World) (f : os.File) : Prop :=
  OutputFile (dl w) = Some f /\ os.fclosed f = false /\
  is_Some (os.inodes (fs w) !! os.fino f).

(** Cursor of the output handle: the offset at which it was positioned plus
    the bytes its [Write] calls have taken since. *)
Definition out_pos (w : World) : Z :=
  match OutputFile (dl w) with
  | Some f => Z.of_nat (os.fpos f)
  | None => 0
  end.

(** Bytes of the output file. *)
Definition out_data (w : World) : list byte :=
  match OutputFile (dl w) with
  | Some f => os.contents (fs w) f
  | None => []
  end.

(** Bytes of the output file that have reached stable storage. *)
Definition out_durable (w : World) : list byte :=
  match OutputFile (dl w) with
  | Some f => os.durable (fs w) f
  | None => []
  end.

(** [w'] is [w] after [data] went through the loop: written at the cursor
    of the output file and counted in [Downloaded]. *)
Definition Streamed (w : World) (data : list byte) (w' : World) : Prop :=
  exists f f',
    output_open w f /\ output_open w' f' /\
    os.fino f' = os.fino f /\
    os.fpos f' = (os.fpos f + length data)%nat /\
    Downloaded (dl w') = Downloaded (dl w) + Z.of_nat (length data) /\
    os.contents (fs w') f' = os.pwrite (os.contents (fs w) f) (os.fpos f) data /\
    os.names (fs w') = os.names (fs w) /\
    ProgressFile (dl w') = ProgressFile (dl w) /\
    ProgressPath (dl w') = ProgressPath (dl w).

(** Two worlds that differ by the clock at most. *)
Definition same_but_clock (w w' : World) : Prop :=
  dl w = dl w' /\ fs w = fs w' /\ faults w = faults w'.

(** A world in which the output file ["f"] is open at offset 0 and the
    device behaves as [fl] says. *)
Definition streaming_world (fl : list os.WFault) : World :=
  mkWorld (set_OutputFile (Some (os.mkFile 0 0 false)) (NewDownloader "http://host/f" "f" true))
          (one_file "f" EmptyString) fl 0.

(** A body that delivers ["hello"], then [" world"] together with the end
    of the stream. *)
Definition hello_body : list ReadResult :=
  [text_read "hello" None; text_read " world" (Some io_EOF)].

(** A body whose last read delivers bytes together with a connection
    error. *)
Definition broken_body : list ReadResult :=
  [text_read "hello" None; text_read " wor" (Some (EnvError 104)); text_read "ld" None].

(** Ten reads of eight bytes each that take no time at all. *)
Definition burst_body : list ReadResult :=
  replicate 10 (text_read "xxxxxxxx" None).

(** The offset some bytes of a progress file stand for. *)
Definition value_of (bs : list byte) : Z :=
  match strconv.ParseInt (string_of_list_byte bs) with
  | (v, None) => if v <? 0 then 0 else v
  | (_, Some _) => 0
  end.

(** The offset held by the file the progress handle is open on. *)
Definition sidecar_value (w : World) : Z :=
  match ProgressFile (dl w) with
  | Some f => value_of (os.contents (fs w) f)
  | None => 0
  end.

(** One whole tick of the reporter with nothing in between: the sample and
    the four calls on the progress file. *)
Definition tick : list Actor := replicate 5 Reporter.

(** The progress handle is there, open, and on an inode of the device. *)
Definition progress_open (w : World) (f : os.File) : Prop :=
  ProgressFile (dl w) = Some f /\ os.fclosed f = false /\
  is_Some (os.inodes (fs w) !! os.fino f).

(** A download of ten bytes from a server that sends them in one read,
    with no progress file to start from. *)
Definition ten_bytes : World := fresh_world no_files.

(** [Download] runs to its return with no tick in between; then the
    ticker fires and the reporter gets as far as its [WriteString]. *)
Definition tick_after_return : list Actor :=
  replicate 7 Main ++ replicate 3 Reporter.

(** The first chunk is written and counted, then a whole tick runs. *)
Definition tick_after_first_chunk : list Actor :=
  replicate 3 Main ++ tick.

(** How many actions [Download] is away from its return, at most. *)
Definition main_measure (st : State) : nat :=
  match main st with
  | MRead => 3 * length (body st) + 4
  | MWrite _ => 3 * length (body st) + 6
  | MAdd _ => 3 * length (body st) + 5
  | MReturned _ => 3
  | MCloseProgress _ => 2
  | MCloseOutput _ => 1
  | MDone _ => 0
  end%nat.

(** Actions of [Download] in a schedule. *)
Fixpoint main_actions (sched : list Actor) : nat :=
  match sched with
  | [] => 0%nat
  | Main :: sched => S (main_actions sched)
  | _ :: sched => main_actions sched
  end.

(** The error [DownloadChunks] is going to return, seen from where the
    goroutine of [Download] stands. *)
Definition engine_result (st : State) : option error :=
  match main st with
  | MRead => fst (DownloadChunks (body st) (world st))
  | MWrite r =>
      let '(writeErr, w) := write_output (rdata r) (world st) in
      if non_nil writeErr then writeErr
      else
        match rerr r with
        | Some e => if is_EOF e then None else Some e
        | None =>
            fst (DownloadChunks (body st)
                   (add_downloaded (Z.of_nat (length (rdata r))) w))
        end
  | MAdd r =>
      match rerr r with
      | Some e => if is_EOF e then None else Some e
      | None =>
          fst (DownloadChunks (body st)
                 (add_downloaded (Z.of_nat (length (rdata r))) (world st)))
      end
  | MReturned err | MCloseProgress err | MCloseOutput err | MDone err => err
  end.

(** What the loop of [DownloadChunks] can see of a world besides the body:
    whether the output handle is there and open, and the fault script. *)
Definition same_output (w w' : World) : Prop :=
  faults w = faults w' /\
  option_map os.fclosed (OutputFile (dl w)) = option_map os.fclosed (OutputFile (dl w')).

(** Where the name of the progress file points while [Download] runs: to
    the inode [ip] the progress handle was opened on, until [Download],
    having seen [DownloadChunks] return nil, has removed it. *)
Definition sidecar_link (P : string) (ip : nat) (st : State) : Prop :=
  ProgressPath (dl (world st)) = P /\
  match main st with
  | MCloseProgress None | MCloseOutput None | MDone None =>
      os.names (fs (world st)) !! P = None
  | _ => os.names (fs (world st)) !! P = Some ip
  end.

(** A file system without dangling names and without two names for one
    file. *)
Definition fs_wf (s : os.FS) : Prop :=
  (forall p i, os.names s !! p = Some i -> (i < length (os.inodes s))%nat) /\
  (forall p q i, os.names s !! p = Some i -> os.names s !! q = Some i -> p = q).

(** Bytes of the chunk in hand that the loop has not yet passed to
    [Write]. *)
Definition to_write (pc : MainPc) : Z :=
  match pc with
  | MWrite r => Z.of_nat (length (rdata r))
  | _ => 0
  end.

(** Bytes of the chunk in hand that are written and not yet counted. *)
Definition to_count (pc : MainPc) : Z :=
  match pc with
  | MAdd r => Z.of_nat (length (rdata r))
  | _ => 0
  end.

(** What holds of the counter, the output cursor and the progress file
    all along the two goroutines' run. *)
Definition progress_sound (st : State) : Prop :=
  exists fo fp,
    OutputFile (dl (world st)) = Some fo /\
    ProgressFile (dl (world st)) = Some fp /\
    os.fino fo <> os.fino fp /\
    is_Some (os.inodes (fs (world st)) !! os.fino fp) /\
    0 <= Downloaded (dl (world st)) /\
    Downloaded (dl (world st)) + to_count (main st) <= Z.of_nat (os.fpos fo) /\
    Z.of_nat (os.fpos fo) + to_write (main st) + body_bytes (body st) <= int64_max /\
    match reporter st with
    | RSeek c | RTruncate c | RWriteString c => 0 <= c <= Downloaded (dl (world st))
    | _ => True
    end /\
    sidecar_value (world st) <= Downloaded (dl (world st)) /\
    (os.fclosed fp = false ->
     match reporter st with
     | RTruncate _ => os.fpos fp = 0%nat
     | RWriteString _ => os.fpos fp = 0%nat /\ os.contents (fs (world st)) fp = []
     | _ => True
     end).

(** ** [format.go] *)

Module fmt.

(** [fmt.Sprintf("%02d", n)] for an [int64]: the decimal digits of [|n|],
    padded with zeros on the left up to the width of 2, of which a minus
    sign takes one place. *)
Definition Sprintf_02d (n : Z) : string :=
  let digits := strconv.FormatInt (Z.abs n) in
  if n <? 0 then "-" +:+ digits
  else if (String.length digits <? 2)%nat then "0" +:+ digits
  else digits.

End fmt.

(** [FormatEta(secs)]; [/] and [%] on [int64] truncate toward zero. *)
Definition FormatEta (secs : Z) : string :=
  let h := Z.quot secs 3600 in
  let m := Z.quot (Z.rem secs 3600) 60 in
  let s := Z.rem secs 60 in
  fmt.Sprintf_02d h +:+ ":" +:+ fmt.Sprintf_02d m +:+ ":" +:+ fmt.Sprintf_02d s.

(** The characters of a string. *)
Definition chars (s : string) : list ascii := list_ascii_of_string s.

(** Value of a numeral read from the left with [acc] in hand. *)
Fixpoint val_acc (d : Decimal.uint) (acc : Z) : Z :=
  match d with
  | Decimal.Nil => acc
  | Decimal.D0 d => val_acc d (10 * acc)
  | Decimal.D1 d => val_acc d (10 * acc + 1)
  | Decimal.D2 d => val_acc d (10 * acc + 2)
  | Decimal.D3 d => val_acc d (10 * acc + 3)
  | Decimal.D4 d => val_acc d (10 * acc + 4)
  | Decimal.D5 d => val_acc d (10 * acc + 5)
  | Decimal.D6 d => val_acc d (10 * acc + 6)
  | Decimal.D7 d => val_acc d (10 * acc + 7)
  | Decimal.D8 d => val_acc d (10 * acc + 8)
  | Decimal.D9 d => val_acc d (10 * acc + 9)
  end.


(** A server that answers 200 with a [Content-Length] that is no number. *)
Definition server_bad_length : Env :=
  mkEnv (fun _ => true)
        (fun _ => inl (mkResponse 200 "200 OK" {["Content-Length" := "ten"]}
                         [text_read "0123456789" None])).

(** A download under way: 500 bytes counted, the progress file ["f.progress"]
    open with a longer numeral in it left by an earlier run, the reporter
    waiting for its ticker. *)
Definition ticking_state : State :=
  mkState (mkWorld (set_Downloaded 500
                      (set_ProgressFile (Some (os.mkFile 0 7 false))
                         (NewDownloader "http://host/f" "f" true)))
                   (one_file "f.progress" "5000000") [] 0)
          [] false MRead RSelect.

(** ** Vocabulary of a download under way *)

(** The two handles [Download] holds while the loop runs, on two different
    files. *)
Definition handles (st : State) (fo fp : os.File) : Prop :=
  OutputFile (dl (world st)) = Some fo /\
  ProgressFile (dl (world st)) = Some fp /\
  os.fino fo <> os.fino fp.

(** The bytes of the file a name stands for; no bytes when there is no
    such file. *)
Definition file_at (s : os.FS) (path : string) : list byte :=
  match os.lookup_path s path with
  | Some nd => os.idata nd
  | None => []
  end.

(** What one action leaves as it was. *)
Definition step_keeps (a : Actor) (st st' : State) (fo fp : os.File) : Prop :=
  exists fo' fp',
    handles st' fo' fp' /\ os.fino fo' = os.fino fo /\ os.fino fp' = os.fino fp /\
    (os.fclosed fo = true -> os.fclosed fo' = true) /\
    (os.fclosed fp = true -> os.fclosed fp' = true) /\
    ProgressPath (dl (world st')) = ProgressPath (dl (world st)) /\
    FilePath (dl (world st')) = FilePath (dl (world st)) /\
    length (os.inodes (fs (world st'))) = length (os.inodes (fs (world st))) /\
    (forall i, i <> os.fino fo -> i <> os.fino fp ->
       os.inodes (fs (world st')) !! i = os.inodes (fs (world st)) !! i) /\
    (forall i, os.iperm <$> os.inodes (fs (world st')) !! i
               = os.iperm <$> os.inodes (fs (world st)) !! i) /\
    (forall q, q <> ProgressPath (dl (world st)) ->
       os.names (fs (world st')) !! q = os.names (fs (world st)) !! q) /\
    (os.names (fs (world st')) !! ProgressPath (dl (world st))
       = os.names (fs (world st)) !! ProgressPath (dl (world st)) \/
     os.names (fs (world st')) !! ProgressPath (dl (world st)) = None) /\
    (a = Main ->
       os.inodes (fs (world st')) !! os.fino fp = os.inodes (fs (world st)) !! os.fino fp) /\
    (a <> Main ->
       fo' = fo /\ main st' = main st /\ body st' = body st /\
       os.names (fs (world st')) = os.names (fs (world st)) /\
       Downloaded (dl (world st')) = Downloaded (dl (world st)) /\
       faults (world st') = faults (world st) /\
       os.inodes (fs (world st')) !! os.fino fo = os.inodes (fs (world st)) !! os.fino fo).

(** When [Download] is in its deferred closes or past them, the handles
    they have closed are closed. *)
Definition closed_so_far (st : State) : Prop :=
  exists fo fp,
    OutputFile (dl (world st)) = Some fo /\ ProgressFile (dl (world st)) = Some fp /\
    match main st with
    | MCloseOutput _ => os.fclosed fp = true
    | MDone _ => os.fclosed fp = true /\ os.fclosed fo = true
    | _ => True
    end.

(** ** [main.go] *)

Module medow.

(** [main]: [os.Args[1]] is the URL and [os.Args[2]] the output path;
    indexing [os.Args] out of range panics, which is [None].  The error
    [Download] returns is dropped. *)
Definition main (args : list string) (env : Env) (sched : list Actor)
    (s : os.FS) (fl : list os.WFault) (t : Z) : option State :=
  match args !! 1%nat, args !! 2%nat with
  | Some url, Some filepath =>
      Some (Download env sched (mkWorld (NewDownloader url filepath true) s fl t))
  | _, _ => None
  end.

End medow.

(** A file system with two files that are no business of the download. *)
Definition two_other_files : os.FS :=
  os.mkFS {["notes" := 0%nat; "f.old" := 1%nat]}
          [os.mkInode (list_byte_of_string "keep") [] true;
           os.mkInode (list_byte_of_string "me") [] false].

(** A whole run: the transfer, the deferred closes, and a tick between the
    first chunk and the rest. *)
Definition run_with_tick : list Actor :=
  replicate 3 Main ++ tick ++ replicate 4 Main ++ tick.

(** A server whose connection breaks after nine bytes. *)
Definition server_reset : Env :=
  mkEnv (fun _ => true) (fun _ => inl (mkResponse 200 "200 OK" ∅ broken_body)).

(** [Download] alone, for long enough to return, with no tick. *)
Definition no_tick : list Actor := replicate 12 Main.

(** ** The transfer, apart from the reporter *)

(** What the loop of [DownloadChunks] reads and changes in a world: the
    counter, the output handle, what is left of the fault script, and the
    bytes of the file the output handle is on. *)
Definition transfer (w : World)
  : Z * option os.File * list os.WFault * option (list byte) :=
  (Downloaded (dl w), OutputFile (dl w), faults w,
   match OutputFile (dl w) with
   | Some f => os.idata <$> os.inodes (fs w) !! os.fino f
   | None => None
   end).

(** What the loop returns and the world it leaves, were the goroutine of
    [Download] to run alone from where it stands up to the return of
    [DownloadChunks]. *)
Definition loop_outcome (st : State) : option error * World :=
  match main st with
  | MRead => DownloadChunks (body st) (world st)
  | MWrite r =>
      let '(writeErr, w) := write_output (rdata r) (world st) in
      if non_nil writeErr then (writeErr, w)
      else
        let w := add_downloaded (Z.of_nat (length (rdata r))) w in
        match rerr r with
        | Some e => (if is_EOF e then None else Some e, w)
        | None => DownloadChunks (body st) w
        end
  | MAdd r =>
      let w := add_downloaded (Z.of_nat (length (rdata r))) (world st) in
      match rerr r with
      | Some e => (if is_EOF e then None else Some e, w)
      | None => DownloadChunks (body st) w
      end
  | MReturned err | MCloseProgress err | MCloseOutput err | MDone err => (err, world st)
  end.

(** The transfer as a user sees it: the counter, the cursor of the output
    file and its bytes. *)
Definition out_view (w : World) : Z * Z * list byte :=
  (Downloaded (dl w), out_pos w, out_data w).

(** Twenty bytes of an earlier transfer, of which the progress file says
    four are good. *)
Definition resume_files : os.FS :=
  os.mkFS {["f" := 0%nat; "f.progress" := 1%nat]}
          [os.mkInode (list_byte_of_string "0123abcdefghijklmnop") [] true;
           os.mkInode (list_byte_of_string "4") [] true].

(** A server that honours [Range] and sends the six bytes from offset 4
    on. *)
Definition server_206 : Env :=
  mkEnv (fun _ => true)
        (fun _ => inl (mkResponse 206 "206 Partial Content" {["Content-Length" := "6"]}
                         [text_read "456789" None])).

(** ** Resuming *)

(** Reads that deliver [data] in order: what they carry is a beginning of
    [data], and all of [data] when they end with the end of the stream. *)
Definition delivers (reads : list ReadResult) (data : list byte) : Prop :=
  body_data reads `prefix_of` data /\
  (read_verdict reads = None -> body_data (taken reads) = data).

(** The value [CreateRequest] gives the [Range] header. *)
Definition range_from (n : Z) : string := "bytes=" +:+ strconv.FormatInt n +:+ "-".

(** A server that has [content] to give and honours [Range]: the body of
    every 200 or 206 answer to a request without [Range] delivers [content];
    the body of every 206 answer to [Range: bytes=n-] delivers [content]
    from offset [n] on.  Nothing is asked of its other answers. *)
Definition honest (env : Env) (content : list byte) : Prop :=
  forall req resp, Do env req = inl resp ->
    (Header req !! "Range" = None ->
     StatusCode resp = StatusOK \/ StatusCode resp = StatusPartialContent ->
     delivers (Body resp) content) /\
    (forall n, 0 < n -> Header req !! "Range" = Some (range_from n) ->
     StatusCode resp = StatusPartialContent ->
     delivers (Body resp) (drop (Z.to_nat n) content)).

(** What a transfer of [content] to [path] may leave on disk for the next
    run to pick up: the output file is a beginning of [content], and the
    progress file does not point past its end. *)
Definition resumable (content : list byte) (path : string) (s : os.FS) : Prop :=
  fs_wf s /\
  file_at s path `prefix_of` content /\
  baseline s (path +:+ ".progress") <= Z.of_nat (length (file_at s path)).

(** The bytes the loop has yet to write, from where [Download] stands: all
    that the rest of the body carries, and what it carries up to its first
    read error. *)
Definition coming_all (st : State) : list byte :=
  match main st with
  | MRead | MAdd _ => body_data (body st)
  | MWrite r => rdata r ++ body_data (body st)
  | _ => []
  end.

Definition coming (st : State) : list byte :=
  match main st with
  | MRead => body_data (taken (body st))
  | MWrite r =>
      rdata r ++ match rerr r with None => body_data (taken (body st)) | Some _ => [] end
  | MAdd r => match rerr r with None => body_data (taken (body st)) | Some _ => [] end
  | _ => []
  end.

(** A transfer of [content] on course: the output file is a beginning of
    [content], the cursor is inside it or at its end, what is to come
    continues [content] from the cursor on, and makes it whole if the loop
    is to return nil. *)
Definition on_course (content : list byte) (st : State) : Prop :=
  exists fo,
    OutputFile (dl (world st)) = Some fo /\
    is_Some (os.inodes (fs (world st)) !! os.fino fo) /\
    os.contents (fs (world st)) fo `prefix_of` content /\
    (os.fpos fo <= length (os.contents (fs (world st)) fo))%nat /\
    coming_all st `prefix_of` drop (os.fpos fo) content /\
    (engine_result st = None -> coming st = drop (os.fpos fo) content).

(** A server that has ten bytes and honours [Range]. *)
Definition ten_byte_server : Env :=
  mkEnv (fun _ => true)
        (fun req =>
           match Header req !! "Range" with
           | None =>
               inl (mkResponse 200 "200 OK" {["Content-Length" := "10"]}
                      [text_read "0123" None; text_read "456789" (Some io_EOF)])
           | Some v =>
               if String.eqb v "bytes=4-"
               then inl (mkResponse 206 "206 Partial Content" {["Content-Length" := "6"]}
                           [text_read "456789" None])
               else inl (mkResponse 416 "416 Range Not Satisfiable" ∅ [])
           end).

(** What a run killed after its first chunk and a tick has left. *)
Definition interrupted : os.FS :=
  fs (world (Download ten_byte_server tick_after_first_chunk ten_bytes)).

(** ** The counter and the announced size *)

(** Where the cursor of the output file can get to at most: where it is,
    plus the chunk in hand if it is yet to be written, plus what the body
    still carries. *)
Definition reach (st : State) : Z :=
  out_pos (world st) + to_write (main st) + body_bytes (body st).


(** ** A tick while [Download] runs *)

(** One whole tick of the reporter with what the others do between its
    five actions: [m1] after the sample of the counter, [m2] after the
    seek, [m3] after the truncation, [m4] after the write. *)
Definition tick_with (m1 m2 m3 m4 : list Actor) : list Actor :=
  Reporter :: m1 ++ Reporter :: m2 ++ Reporter :: m3 ++ Reporter :: m4 ++ [Reporter].

(** [Close] has been called on the progress handle. *)
Definition progress_closed (w : World) : Prop :=
  exists f, ProgressFile (dl w) = Some f /\ os.fclosed f = true.

(** The output handle, if there is one, is on another file than [f]. *)
Definition output_elsewhere (w : World) (f : os.File) : Prop :=
  forall fo, OutputFile (dl w) = Some fo -> os.fino fo <> os.fino f.

(** A progress file that holds a negative number, which [ReadProgress]
    takes for no progress at all. *)
Definition negative_sidecar : World := fresh_world (one_file "f.progress" "-5000000").

(** The first chunk is written and counted; then a tick runs while
    [Download] reads, writes and counts the second chunk. *)
Definition tick_during_second_chunk : list Actor :=
  replicate 3 Main ++ tick_with [Main] [Main] [Main] [].

(** A transfer that fails after a first tick; [Download] is about to run
    its deferred closes. *)
Definition before_closes : list Actor :=
  replicate 3 Main ++ tick ++ replicate 4 Main.

(** A tick across the deferred [ProgressFile.Close()], which falls between
    its [Truncate] and its [WriteString]; then [Download] returns. *)
Definition tick_across_close : list Actor :=
  tick_with [] [] [Main] [] ++ [Main].

(** * Properties *)

(** ** Arithmetic and [strconv] *)

Lemma wrap64_id z : in_int64 z -> wrap64 z = z.
Proof.
  unfold in_int64, int64_min, int64_max, wrap64. intros H.
  rewrite Z.mod_small; lia.
Qed.

Lemma wrap64_range z : in_int64 (wrap64 z).
Proof.
  unfold in_int64, int64_min, int64_max, wrap64.
  pose proof (Z.mod_pos_bound (z + 2 ^ 63) (2 ^ 64) ltac:(lia)). lia.
Qed.

Lemma ParseInt_digits (d : Decimal.uint) :
  d <> Decimal.Nil -> Z.of_uint d < 2 ^ 63 ->
  strconv.ParseInt (NilEmpty.string_of_uint d) = (Z.of_uint d, None).
Proof.
  intros Hnil Hlt.
  assert (Hu : NilEmpty.uint_of_string (NilEmpty.string_of_uint d) = Some d)
    by apply NilEmpty.usu.
  destruct d; try congruence;
    cbn [NilEmpty.string_of_uint] in *; unfold strconv.ParseInt;
    cbn [Ascii.eqb Bool.eqb]; rewrite Hu;
    (match goal with
     | |- context [?a <? ?b] => destruct (Z.ltb_spec a b); [reflexivity | lia]
     end).
Qed.

Lemma ParseInt_FormatInt (v : Z) :
  in_int64 v -> strconv.ParseInt (strconv.FormatInt v) = (v, None).
Proof.
  unfold in_int64, int64_min, int64_max, strconv.FormatInt. intros Hv.
  destruct v as [|p|p]; cbn [Z.to_int NilEmpty.string_of_int].
  - reflexivity.
  - rewrite ParseInt_digits.
    + unfold Z.of_uint. now rewrite DecimalPos.Unsigned.of_to.
    + apply DecimalPos.Unsigned.to_uint_nonnil.
    + unfold Z.of_uint. rewrite DecimalPos.Unsigned.of_to. cbn [Z.of_N]. lia.
  - unfold strconv.ParseInt. cbn [Ascii.eqb Bool.eqb].
    rewrite NilEmpty.usu.
    pose proof (DecimalPos.Unsigned.to_uint_nonnil p) as Hn.
    assert (Hz : Z.of_uint (Pos.to_uint p) = Z.pos p)
      by (unfold Z.of_uint; now rewrite DecimalPos.Unsigned.of_to).
    destruct (Pos.to_uint p) eqn:E; try congruence;
      rewrite Hz; (destruct (Z.leb_spec (Z.pos p) (2 ^ 63)); [reflexivity | lia]).
Qed.

(** ** [ReadProgress] and [CreateRequest] *)

Lemma ReadProgress_frame (w : World) :
  fs (ReadProgress w) = fs w /\ faults (ReadProgress w) = faults w /\
  clock (ReadProgress w) = clock w /\
  ProgressPath (dl (ReadProgress w)) = ProgressPath (dl w) /\
  FilePath (dl (ReadProgress w)) = FilePath (dl w) /\
  UseProgressFile (dl (ReadProgress w)) = UseProgressFile (dl w) /\
  OutputFile (dl (ReadProgress w)) = OutputFile (dl w) /\
  ProgressFile (dl (ReadProgress w)) = ProgressFile (dl w) /\
  TotalSize (dl (ReadProgress w)) = TotalSize (dl w).
Proof.
  unfold ReadProgress.
  destruct (os.ReadFile (fs w) (ProgressPath (dl w))) as [data [e|]]; cbn [non_nil].
  - repeat split.
  - destruct (strconv.ParseInt (string_of_list_byte data)) as [v [e|]];
      cbn [non_nil orb]; [repeat split|].
    destruct (v <? 0); repeat split.
Qed.

Lemma ReadProgress_state (w : World) :
  match progress_state (fs w) (ProgressPath (dl w)) with
  | Stored v =>
      0 <= v /\ Downloaded (dl (ReadProgress w)) = v /\ ResumedAt (dl (ReadProgress w)) = v
  | _ =>
      Downloaded (dl (ReadProgress w)) = 0 /\
      ResumedAt (dl (ReadProgress w)) = ResumedAt (dl w)
  end.
Proof.
  unfold ReadProgress, progress_state, os.ReadFile.
  destruct (os.lookup_path (fs w) (ProgressPath (dl w))) as [nd|]; [|now split].
  destruct (os.iperm nd); [|now split].
  cbn [non_nil].
  destruct (strconv.ParseInt (string_of_list_byte (os.idata nd))) as [v [e|]];
    cbn [non_nil orb]; [now split|].
  destruct (Z.ltb_spec v 0); cbn; [now split|]. repeat split; lia.
Qed.

(** C6.  Whatever the progress file is (absent, unreadable, malformed or
    holding a negative number), [ReadProgress] returns and leaves
    [Downloaded = 0], without touching [ResumedAt] or the file system; only a
    number that parses and is not negative becomes both [Downloaded] and
    [ResumedAt]. *)
Theorem ReadProgress_baseline (w : World) :
  fs (ReadProgress w) = fs w /\
  0 <= Downloaded (dl (ReadProgress w)) /\
  match progress_state (fs w) (ProgressPath (dl w)) with
  | Stored v =>
      0 <= v /\ Downloaded (dl (ReadProgress w)) = v /\ ResumedAt (dl (ReadProgress w)) = v
  | Absent | Unreadable | Malformed | Negative _ =>
      Downloaded (dl (ReadProgress w)) = 0 /\
      ResumedAt (dl (ReadProgress w)) = ResumedAt (dl w)
  end.
Proof.
  split; [apply ReadProgress_frame|].
  pose proof (ReadProgress_state w) as H.
  destruct (progress_state (fs w) (ProgressPath (dl w)));
    (split; [|exact H]); destruct H as [? H]; try destruct H; lia.
Qed.

Example ReadProgress_absent :
  Downloaded (dl (ReadProgress (fresh_world no_files))) = 0.
Proof. reflexivity. Qed.

Example ReadProgress_malformed :
  Downloaded (dl (ReadProgress (fresh_world (one_file "f.progress" "12a")))) = 0.
Proof. vm_compute. reflexivity. Qed.

Example ReadProgress_negative :
  Downloaded (dl (ReadProgress (fresh_world (one_file "f.progress" "-7")))) = 0.
Proof. vm_compute. reflexivity. Qed.

Example ReadProgress_stored :
  let d := dl (ReadProgress (fresh_world (one_file "f.progress" "4096"))) in
  Downloaded d = 4096 /\ ResumedAt d = 4096.
Proof. vm_compute. split; reflexivity. Qed.

Lemma baseline_ReadProgress (w : World) :
  Downloaded (dl (ReadProgress w)) = baseline (fs w) (ProgressPath (dl w)).
Proof.
  unfold baseline. pose proof (ReadProgress_state w) as H.
  destruct (progress_state (fs w) (ProgressPath (dl w))); tauto.
Qed.

(** C7.  For a downloader made by [NewDownloader] and a URL that
    [http.NewRequest] accepts, [CreateRequest] returns a GET request that
    carries [Range: bytes=<baseline>-] exactly when the progress file is in
    use and the baseline read from it is positive, and no header otherwise;
    and it leaves both [Downloaded] and [ResumedAt] at that baseline (0 when
    the progress file is not in use, where nothing is read). *)
Theorem CreateRequest_range (env : Env) (url filepath : string) (use : bool)
    (s : os.FS) (fl : list os.WFault) (t : Z) :
  url_ok env url = true ->
  let w := mkWorld (NewDownloader url filepath use) s fl t in
  let b := if use then baseline s (filepath +:+ ".progress") else 0 in
  exists req w',
    CreateRequest env w = (Some req, None, w') /\
    Method req = "GET" /\ URL req = url /\
    Header req =
      (if use && (0 <? baseline s (filepath +:+ ".progress"))
       then {["Range" := "bytes=" +:+ strconv.FormatInt b +:+ "-"]}
       else ∅) /\
    Downloaded (dl w') = b /\ ResumedAt (dl w') = b /\ fs w' = s.
Proof.
  intros Hurl w b. unfold CreateRequest, NewRequest.
  cbn [dl w Url NewDownloader UseProgressFile]. rewrite Hurl.
  destruct use; cbn [andb].
  - pose proof (baseline_ReadProgress w) as Hb.
    pose proof (ReadProgress_state w) as Hs.
    pose proof (ReadProgress_frame w) as (Hfs & _).
    cbn [dl w fs ProgressPath NewDownloader ResumedAt] in Hb, Hs, Hfs.
    fold w. rewrite Hb. fold b.
    assert (Hr : ResumedAt (dl (ReadProgress w)) = b).
    { subst b. unfold baseline.
      destruct (progress_state s (filepath +:+ ".progress")); tauto. }
    destruct (0 <? b); eexists _, _; (split; [reflexivity|]);
      cbn [Method URL Header HeaderSet]; repeat split; auto.
  - eexists _, _. split; [reflexivity|]. repeat split.
Qed.

Lemma CreateRequest_range_witness :
  exists req w',
    CreateRequest server_200 (fresh_world (one_file "f.progress" "4096"))
      = (Some req, None, w') /\
    Header req = {["Range" := "bytes=4096-"]} /\
    Downloaded (dl w') = 4096 /\ ResumedAt (dl w') = 4096.
Proof.
  destruct (CreateRequest_range server_200 "http://host/f" "f" true
              (one_file "f.progress" "4096") [] 0 eq_refl)
    as (req & w' & H & _ & _ & Hh & Hd & Hr & _).
  exists req, w'. split; [exact H|].
  split; [exact Hh|]. split; [exact Hd | exact Hr].
Defined.

(** ** Early returns of [Download] *)

Lemma run_exit (sched : list Actor) (err : option error) (w : World) :
  run sched (exit err w) = exit err w.
Proof.
  induction sched as [|a sched IH]; [reflexivity|].
  unfold run in *. cbn [fold_left]. destruct a; exact IH.
Qed.

Lemma CreateRequest_frame (env : Env) (w w' : World) (req : option Request)
    (err : option error) :
  CreateRequest env w = (req, err, w') ->
  fs w' = fs w /\ ProgressPath (dl w') = ProgressPath (dl w) /\
  FilePath (dl w') = FilePath (dl w) /\
  UseProgressFile (dl w') = UseProgressFile (dl w) /\
  (UseProgressFile (dl w) = true -> req <> None ->
   Downloaded (dl w') = baseline (fs w) (ProgressPath (dl w))).
Proof.
  unfold CreateRequest. destruct (NewRequest env (Url (dl w))) as [[r|] [e|]];
    try (intros [= <- <- <-]; repeat split; intros; congruence).
  pose proof (ReadProgress_frame w) as (Hfs & _ & _ & Hp & Hf & Hu & _).
  pose proof (baseline_ReadProgress w) as Hb.
  destruct (UseProgressFile (dl w)) eqn:Huse.
  - destruct (0 <? Downloaded (dl (ReadProgress w)));
      intros [= <- <- <-]; repeat split; auto; congruence.
  - intros [= <- <- <-]. repeat split; auto. congruence.
Qed.

Lemma resume_rejected_names_sidecar (d : Downloader) :
  exists pre post, resume_rejected d = Errorf (pre +:+ ProgressPath d +:+ post).
Proof. eexists _, _. reflexivity. Qed.

Lemma resume_rejected_distinct (d : Downloader) (resp : Response) :
  resume_rejected d <> bad_status resp.
Proof.
  unfold resume_rejected, bad_status. intros H. injection H as H.
  cbn in H. discriminate H.
Qed.

(** C3.  Once the request is built and answered, a status other than 200
    and 206 makes [Download] return the bad-status error; and with
    [Downloaded > 0] a 200 answer makes it return the resume-rejected error,
    which names the progress file and differs from every bad-status error.
    In both cases the file system, the progress file in it, is as it was, so
    the progress file still holds the offset that was read from it. *)
Theorem Download_status_check (env : Env) (sched : list Actor) (w w1 : World)
    (req : Request) (resp : Response) :
  CreateRequest env w = (Some req, None, w1) ->
  Do env req = inl resp ->
  let st := Download env sched w in
  (StatusCode resp <> 200 -> StatusCode resp <> 206 ->
   returned st = Some (Some (bad_status resp)) /\ fs (world st) = fs w) /\
  (0 < Downloaded (dl w1) -> StatusCode resp = 200 ->
   returned st = Some (Some (resume_rejected (dl w1))) /\
   (exists pre post,
      resume_rejected (dl w1) = Errorf (pre +:+ ProgressPath (dl w) +:+ post)) /\
   (forall resp', resume_rejected (dl w1) <> bad_status resp') /\
   fs (world st) = fs w /\
   (UseProgressFile (dl w) = true ->
    baseline (fs (world st)) (ProgressPath (dl w)) = Downloaded (dl w1))).
Proof.
  intros Hcr Hdo st.
  pose proof (CreateRequest_frame _ _ _ _ _ Hcr) as (Hfs & Hp & _ & _ & Hb).
  subst st. unfold Download, Download_start. rewrite Hcr, Hdo.
  unfold StatusOK, StatusPartialContent. split.
  - intros H200 H206.
    destruct (Z.eqb_spec (StatusCode resp) 200); [contradiction|].
    destruct (Z.eqb_spec (StatusCode resp) 206); [contradiction|].
    cbn [negb andb]. rewrite run_exit. split; [reflexivity | exact Hfs].
  - intros Hpos H200. rewrite H200. cbn [Z.eqb Pos.eqb negb andb].
    destruct (Z.ltb_spec 0 (Downloaded (dl w1))); [|lia].
    cbn [andb]. rewrite run_exit. cbn [returned main exit world].
    split; [reflexivity|]. split.
    { rewrite <- Hp. apply resume_rejected_names_sidecar. }
    split; [intros resp'; apply resume_rejected_distinct|].
    split; [exact Hfs|].
    intros Huse. rewrite Hfs. symmetry. apply Hb; [exact Huse | discriminate].
Qed.

Lemma CreateRequest_resume_example :
  exists req w1,
    CreateRequest server_200 (fresh_world (one_file "f.progress" "4096"))
      = (Some req, None, w1) /\ Downloaded (dl w1) = 4096.
Proof. eexists _, _. split; vm_compute; reflexivity. Qed.

Lemma Download_status_check_witness :
  let st := Download server_200 [Main; Reporter] (fresh_world (one_file "f.progress" "4096")) in
  returned st
    = Some (Some (Errorf ("Server does not support partial downloads, if you want to continue please remove file: f.progress"
                            +:+ newline))) /\
  fs (world st) = one_file "f.progress" "4096".
Proof.
  destruct (CreateRequest_resume_example) as (req & w1 & Hcr & Hd).
  destruct (Download_status_check server_200 [Main; Reporter] _ w1 req _ Hcr eq_refl)
    as [_ H].
  destruct H as (Hret & _ & _ & Hfs & _); [rewrite Hd; reflexivity | reflexivity |].
  split; [|exact Hfs].
  rewrite Hret. unfold resume_rejected.
  pose proof (CreateRequest_frame _ _ _ _ _ Hcr) as (_ & Hp & _).
  rewrite Hp. reflexivity.
Defined.

(** ** Files *)

(** ** The output file and the loop of [DownloadChunks] *)

Lemma pwrite_raw_app (old : list byte) (pos : nat) (a b : list byte) :
  let raw o p d :=
    take p (o ++ replicate (p - length o)%nat Byte.x00) ++ d ++ drop (p + length d)%nat o in
  raw (raw old pos a) (pos + length a)%nat b = raw old pos (a ++ b).
Proof.
  intros raw. unfold raw.
  set (P := take pos (old ++ replicate (pos - length old) Byte.x00)).
  assert (HP : length P = pos).
  { subst P. rewrite length_take, length_app, length_replicate. lia. }
  assert (HPA : length (P ++ a) = (pos + length a)%nat)
    by (rewrite length_app; lia).
  rewrite (app_assoc P a). rewrite <- HPA.
  rewrite <- (app_assoc (P ++ a)), take_app_length.
  rewrite <- !app_assoc. f_equal. f_equal. f_equal.
  rewrite (app_assoc P a), <- drop_drop, drop_app_length, drop_drop.
  f_equal. rewrite !length_app. lia.
Qed.

Lemma pwrite_app (old : list byte) (pos : nat) (a b : list byte) :
  os.pwrite (os.pwrite old pos a) (pos + length a) b = os.pwrite old pos (a ++ b).
Proof.
  destruct a as [|x a]; [cbn [os.pwrite length app]; now rewrite Nat.add_0_r|].
  destruct b as [|y b]; [now rewrite app_nil_r|].
  exact (pwrite_raw_app old pos (x :: a) (y :: b)).
Qed.

Lemma contents_alter (s : os.FS) (f f' : os.File) (g : os.Inode -> os.Inode) (nd : os.Inode) :
  os.inodes s !! os.fino f = Some nd -> os.fino f' = os.fino f ->
  os.contents (os.mkFS (os.names s) (alter g (os.fino f) (os.inodes s))) f'
    = os.idata (g nd).
Proof.
  intros Hnd Hino. unfold os.contents. cbn [os.inodes]. rewrite Hino.
  rewrite list_lookup_alter_eq, Hnd. reflexivity.
Qed.

(** What one [Write] on the open output file does. *)
Lemma write_output_spec (w : World) (f : os.File) (data : list byte) :
  output_open w f ->
  let x := default None (head (faults w)) in
  let acc := match x with Some (k, _) => take k data | None => data end in
  exists w' f',
    write_output data w = (match x with Some (_, e) => Some e | None => None end, w') /\
    output_open w' f' /\
    os.fino f' = os.fino f /\
    os.fpos f' = (os.fpos f + length acc)%nat /\
    os.contents (fs w') f' = os.pwrite (os.contents (fs w) f) (os.fpos f) acc /\
    os.names (fs w') = os.names (fs w) /\
    faults w' = tail (faults w) /\ clock w' = clock w /\
    dl w' = set_OutputFile (Some f') (dl w).
Proof.
  intros (Hout & Hopen & [nd Hnd]) x acc.
  unfold write_output. rewrite Hout. unfold os.Write. rewrite Hopen.
  fold x. fold acc.
  eexists _, _. split; [reflexivity|].
  split.
  { unfold output_open. cbn. split; [reflexivity|]. split; [reflexivity|].
    rewrite list_lookup_alter_eq, Hnd. eauto. }
  cbn [os.fino os.fpos fs dl faults clock os.names].
  repeat split.
  unfold os.contents at 1. cbn [os.inodes os.fino].
  rewrite list_lookup_alter_eq, Hnd. cbn.
  unfold os.contents. rewrite Hnd. reflexivity.
Qed.

Lemma output_open_pass_time (w : World) (f : os.File) (dt : Z) :
  output_open w f -> output_open (pass_time dt w) f.
Proof. exact id. Qed.

Lemma Streamed_nil (w : World) (f : os.File) : output_open w f -> Streamed w [] w.
Proof.
  intros H. exists f, f. repeat split; try apply H; cbn [length]; try lia.
Qed.

Lemma Streamed_trans (w w1 w2 : World) (a b : list byte) :
  Streamed w a w1 -> Streamed w1 b w2 -> Streamed w (a ++ b) w2.
Proof.
  intros (f & f1 & Ho & Ho1 & Hi1 & Hp1 & Hd1 & Hc1 & Hn1 & Hpf1 & Hpp1)
         (f1' & f2 & Ho1' & Ho2 & Hi2 & Hp2 & Hd2 & Hc2 & Hn2 & Hpf2 & Hpp2).
  assert (f1' = f1) as -> by (destruct Ho1 as [E _], Ho1' as [E' _]; congruence).
  exists f, f2. repeat split; try apply Ho; try apply Ho2; try congruence.
  - rewrite Hp2, Hp1, length_app. lia.
  - rewrite Hd2, Hd1, length_app. lia.
  - rewrite Hc2, Hc1, Hp1. apply pwrite_app.
Qed.

Lemma Streamed_pass_time' (w w' : World) (dt : Z) (a : list byte) :
  Streamed w a w' -> Streamed w a (pass_time dt w').
Proof. exact id. Qed.

Lemma Streamed_pass_time (w w' : World) (dt : Z) (a : list byte) :
  Streamed (pass_time dt w) a w' -> Streamed w a w'.
Proof. exact id. Qed.

Lemma no_fault_head (fl : list os.WFault) (n : nat) :
  Forall (eq None) (take (S n) fl) ->
  default None (head fl) = None /\ Forall (eq None) (take n (tail fl)).
Proof.
  destruct fl as [|x fl]; cbn; [split; [reflexivity | rewrite take_nil; constructor]|].
  intros H. inversion H; subst. split; [reflexivity | assumption].
Qed.

(** One iteration of the loop whose write, if there is one, goes through. *)
Lemma DownloadChunks_step (r : ReadResult) (body : list ReadResult) (w : World) (f : os.File) :
  output_open w f ->
  Forall (eq None) (take (data_reads [r]) (faults w)) ->
  in_int64 (Downloaded (dl w)) ->
  Downloaded (dl w) + Z.of_nat (length (rdata r)) <= int64_max ->
  exists w2,
    Streamed w (rdata r) w2 /\
    faults w2 = drop (data_reads [r]) (faults w) /\
    DownloadChunks (r :: body) w =
      match rerr r with
      | Some e => (if is_EOF e then None else Some e, w2)
      | None => DownloadChunks body w2
      end.
Proof.
  intros Ho Hfl Hd Hmax. cbn [DownloadChunks data_reads] in *.
  unfold has_data in Hfl.
  destruct (Z.ltb_spec 0 (Z.of_nat (length (rdata r)))) as [Hn|Hn].
  - cbn [Nat.add] in Hfl. apply no_fault_head in Hfl as [Hh _].
    destruct (write_output_spec (pass_time (rtime r) w) f (rdata r) Ho)
      as (w1 & f1 & Hw & Ho1 & Hi & Hp & Hc & Hn1 & Hf1 & _ & Hdl).
    unfold pass_time, set_clock in Hw, Hf1, Hp, Hc, Hn1, Hdl.
    cbn [faults fs dl] in Hw, Hf1, Hp, Hc, Hn1, Hdl. rewrite Hh in Hw.
    unfold pass_time, set_clock in Hw |- *. rewrite Hw. cbn [non_nil].
    exists (add_downloaded (Z.of_nat (length (rdata r))) w1). split; [|split].
    + exists f, f1. unfold add_downloaded. rewrite Hdl. cbn.
      rewrite wrap64_id by (unfold in_int64, int64_min, int64_max in *; lia).
      rewrite Hh in Hp, Hc.
      destruct Ho1 as (Ho1 & Hcl & Hin).
      repeat split; auto; try apply Ho.
    + cbn. rewrite Hf1. unfold has_data.
      destruct (Z.ltb_spec 0 (Z.of_nat (length (rdata r)))); [|lia].
      now destruct (faults w).
    + destruct (rerr r) as [e|]; [destruct (is_EOF e)|]; reflexivity.
  - assert (Hnil : rdata r = []) by (destruct (rdata r); [reflexivity | cbn in Hn; lia]).
    exists (pass_time (rtime r) w). split; [|split].
    + rewrite Hnil. apply Streamed_pass_time' with (dt := rtime r).
      apply (Streamed_nil _ f). exact Ho.
    + cbn. unfold has_data.
      destruct (Z.ltb_spec 0 (Z.of_nat (length (rdata r)))); [lia|]. reflexivity.
    + destruct (rerr r) as [e|]; [destruct (is_EOF e)|]; reflexivity.
Qed.

Lemma body_data_cons (r : ReadResult) (reads : list ReadResult) :
  body_data (r :: reads) = rdata r ++ body_data reads.
Proof. reflexivity. Qed.

Lemma body_bytes_cons (r : ReadResult) (reads : list ReadResult) :
  body_bytes (r :: reads) = Z.of_nat (length (rdata r)) + body_bytes reads.
Proof. unfold body_bytes. rewrite body_data_cons, length_app. lia. Qed.

Lemma body_bytes_nonneg (reads : list ReadResult) : 0 <= body_bytes reads.
Proof. unfold body_bytes. lia. Qed.

Lemma Streamed_Downloaded (w w' : World) (a : list byte) :
  Streamed w a w' -> Downloaded (dl w') = Downloaded (dl w) + Z.of_nat (length a).
Proof. intros (f & f' & H). tauto. Qed.

Lemma Streamed_open (w w' : World) (a : list byte) :
  Streamed w a w' -> exists f', output_open w' f'.
Proof. intros (f & f' & H). exists f'. tauto. Qed.

(** The loop over reads that bring no error and whose writes go through. *)
Lemma DownloadChunks_prefix (pre rest : list ReadResult) (w : World) (f : os.File) :
  output_open w f ->
  Forall (fun r => rerr r = None) pre ->
  Forall (eq None) (take (data_reads pre) (faults w)) ->
  in_int64 (Downloaded (dl w)) ->
  Downloaded (dl w) + body_bytes pre <= int64_max ->
  exists w1,
    Streamed w (body_data pre) w1 /\
    faults w1 = drop (data_reads pre) (faults w) /\
    DownloadChunks (pre ++ rest) w = DownloadChunks rest w1.
Proof.
  revert w f. induction pre as [|r pre IH]; intros w f Ho Herr Hfl Hd Hmax.
  - exists w. split; [apply (Streamed_nil _ f Ho)|]. split; reflexivity.
  - inversion Herr as [|? ? Hr Hpre]; subst.
    rewrite body_bytes_cons in Hmax. pose proof (body_bytes_nonneg pre).
    assert (Hfl1 : Forall (eq None) (take (data_reads [r]) (faults w))).
    { cbn [data_reads] in *. rewrite Nat.add_0_r.
      destruct (has_data r); [|rewrite take_0; constructor].
      cbn [Nat.add] in Hfl. destruct (faults w) as [|x fl]; [constructor|].
      cbn in *. inversion Hfl; subst. constructor; [reflexivity|].
      rewrite take_0. constructor. }
    destruct (DownloadChunks_step r (pre ++ rest) w f Ho Hfl1 Hd ltac:(lia))
      as (w2 & Hs & Hf2 & Heq).
    rewrite Hr in Heq.
    destruct (Streamed_open _ _ _ Hs) as [f2 Ho2].
    pose proof (Streamed_Downloaded _ _ _ Hs) as Hd2.
    destruct (IH w2 f2 Ho2 Hpre) as (w1 & Hs1 & Hf1 & Heq1).
    + rewrite Hf2. cbn [data_reads] in Hfl |- *. rewrite Nat.add_0_r.
      rewrite take_drop_commute. 
      rewrite Nat.add_comm in Hfl.
      apply Forall_drop with (n := (if has_data r then 1%nat else 0%nat)) in Hfl.
      rewrite Nat.add_comm. exact Hfl.
    + unfold in_int64, int64_min in *. lia.
    + lia.
    + exists w1. split; [|split].
      * rewrite body_data_cons. eapply Streamed_trans; eauto.
      * rewrite Hf1, Hf2. cbn [data_reads]. rewrite Nat.add_0_r, drop_drop. reflexivity.
      * cbn [app]. rewrite Heq. exact Heq1.
Qed.

(** One iteration of the loop whose write is cut short by the device. *)
Lemma DownloadChunks_short_write (r : ReadResult) (body : list ReadResult) (w : World)
    (f : os.File) (k : nat) (e : error) (fl : list os.WFault) :
  output_open w f -> has_data r = true -> faults w = Some (k, e) :: fl ->
  exists w' f',
    DownloadChunks (r :: body) w = (Some e, w') /\
    Downloaded (dl w') = Downloaded (dl w) /\
    output_open w' f' /\
    os.fpos f' = (os.fpos f + length (take k (rdata r)))%nat /\
    os.contents (fs w') f' = os.pwrite (os.contents (fs w) f) (os.fpos f) (take k (rdata r)).
Proof.
  intros Ho Hn Hfl. cbn [DownloadChunks]. unfold has_data in Hn. rewrite Hn.
  destruct (write_output_spec (pass_time (rtime r) w) f (rdata r) Ho)
    as (w1 & f1 & Hw & Ho1 & Hi & Hp & Hc & Hn1 & Hf1 & _ & Hdl).
  unfold pass_time, set_clock in Hw, Hf1, Hp, Hc, Hn1, Hdl |- *.
  cbn [faults fs dl] in Hw, Hf1, Hp, Hc, Hn1, Hdl.
  rewrite Hw. rewrite Hfl in Hp, Hc |- *. cbn [head default] in Hp, Hc |- *.
  cbn [non_nil].
  exists w1, f1. repeat split; auto; try apply Ho1. now rewrite Hdl.
Qed.

Lemma taken_cases (body : list ReadResult) :
  (Forall (fun r => rerr r = None) body /\ taken body = body /\ read_verdict body = None) \/
  (exists pre r post e,
     body = pre ++ r :: post /\ Forall (fun r => rerr r = None) pre /\
     rerr r = Some e /\ taken body = pre ++ [r] /\
     read_verdict body = if is_EOF e then None else Some e).
Proof.
  induction body as [|r body IH]; [left; repeat split; constructor|].
  cbn [taken read_verdict]. destruct (rerr r) as [e|] eqn:Hr.
  - right. exists [], r, body, e. repeat split; auto.
  - destruct IH as [(Hall & Ht & Hv) | (pre & r' & post & e & Hb & Hall & Hr' & Ht & Hv)].
    + left. repeat split; [constructor; assumption | congruence | assumption].
    + right. exists (r :: pre), r', post, e. subst body.
      repeat split; auto. now rewrite Ht.
Qed.

Lemma body_data_app (a b : list ReadResult) :
  body_data (a ++ b) = body_data a ++ body_data b.
Proof. unfold body_data. now rewrite map_app, concat_app. Qed.

Lemma body_bytes_app (a b : list ReadResult) :
  body_bytes (a ++ b) = body_bytes a + body_bytes b.
Proof. unfold body_bytes. rewrite body_data_app, length_app. lia. Qed.

Lemma data_reads_app (a b : list ReadResult) :
  data_reads (a ++ b) = (data_reads a + data_reads b)%nat.
Proof. induction a as [|r a IH]; [reflexivity|]. cbn. rewrite IH. lia. Qed.

Lemma no_fault_split (fl : list os.WFault) (n m : nat) :
  Forall (eq None) (take (n + m) fl) ->
  Forall (eq None) (take n fl) /\ Forall (eq None) (take m (drop n fl)).
Proof.
  intros H. rewrite <- take_take_drop in H. now apply Forall_app in H.
Qed.

(** The loop when every write goes through: it stops at the first read
    error, having streamed every byte read up to there. *)
Lemma DownloadChunks_no_fault (body : list ReadResult) (w : World) (f : os.File) :
  output_open w f ->
  Forall (eq None) (take (data_reads (taken body)) (faults w)) ->
  in_int64 (Downloaded (dl w)) ->
  Downloaded (dl w) + body_bytes (taken body) <= int64_max ->
  exists w',
    DownloadChunks body w = (read_verdict body, w') /\
    Streamed w (body_data (taken body)) w'.
Proof.
  intros Ho Hfl Hd Hmax.
  destruct (taken_cases body)
    as [(Hall & Ht & Hv) | (pre & r & post & e & Hb & Hall & Hr & Ht & Hv)].
  - rewrite Ht in *. rewrite Hv.
    destruct (DownloadChunks_prefix body [] w f Ho Hall Hfl Hd Hmax) as (w1 & Hs & _ & Heq).
    rewrite app_nil_r in Heq. exists w1. split; [exact Heq | exact Hs].
  - rewrite Ht in *. rewrite Hv. rewrite data_reads_app in Hfl.
    rewrite body_bytes_app in Hmax. apply no_fault_split in Hfl as [Hfl1 Hfl2].
    pose proof (body_bytes_nonneg [r]). pose proof (body_bytes_nonneg pre).
    destruct (DownloadChunks_prefix pre (r :: post) w f Ho Hall Hfl1 Hd ltac:(lia))
      as (w1 & Hs & Hf1 & Heq).
    destruct (Streamed_open _ _ _ Hs) as [f1 Ho1].
    pose proof (Streamed_Downloaded _ _ _ Hs) as Hd1. fold (body_bytes pre) in Hd1.
    rewrite <- Hf1 in Hfl2.
    destruct (DownloadChunks_step r post w1 f1 Ho1 Hfl2) as (w2 & Hs2 & _ & Heq2).
    + unfold in_int64, int64_min in *. lia.
    + rewrite body_bytes_cons in Hmax. unfold body_bytes at 2 in Hmax. cbn in Hmax. lia.
    + rewrite Hr in Heq2. exists w2. subst body. rewrite Heq, Heq2.
      split; [now destruct (is_EOF e)|].
      rewrite body_data_app. eapply Streamed_trans; [exact Hs|].
      unfold body_data. cbn. now rewrite app_nil_r.
Qed.

Lemma taken_prefix (body : list ReadResult) : exists rest, body = taken body ++ rest.
Proof.
  induction body as [|r body [rest IH]]; [exists []; reflexivity|].
  cbn [taken]. destruct (rerr r); [exists body; reflexivity|].
  exists rest. cbn. now rewrite <- IH.
Qed.

Lemma body_bytes_taken (body : list ReadResult) :
  body_bytes (taken body) <= body_bytes body.
Proof.
  destruct (taken_prefix body) as [rest H]. rewrite H at 2.
  rewrite body_bytes_app. pose proof (body_bytes_nonneg rest). lia.
Qed.

Lemma no_fault_replicate (n : nat) (fl : list os.WFault) :
  Forall (eq None) (take n (replicate n None ++ fl)).
Proof.
  rewrite take_app_le by (rewrite length_replicate; lia).
  apply Forall_take, Forall_replicate. reflexivity.
Qed.

(** C4 (amended).  With the output file open and no overflow of
    [Downloaded]: when every write goes through, [DownloadChunks] stops at
    the first read that returns an error, returns nil exactly when that
    error is the end of the stream and the error otherwise, and has by then
    written every chunk read, in order, at the cursor of the output file and
    added its length to [Downloaded]; when a write fails, it returns that
    write's error at once, [Downloaded] counts the chunks written before it
    and not the bytes of the failed write that reached the file. *)
Theorem DownloadChunks_accounting (body : list ReadResult) (w : World) (f : os.File) :
  output_open w f ->
  in_int64 (Downloaded (dl w)) ->
  Downloaded (dl w) + body_bytes body <= int64_max ->
  (Forall (eq None) (take (data_reads (taken body)) (faults w)) ->
   exists w',
     DownloadChunks body w = (read_verdict body, w') /\
     Streamed w (body_data (taken body)) w') /\
  (forall pre r post k e fl,
     body = pre ++ r :: post ->
     Forall (fun r => rerr r = None) pre ->
     has_data r = true ->
     faults w = replicate (data_reads pre) None ++ Some (k, e) :: fl ->
     exists w' f',
       DownloadChunks body w = (Some e, w') /\
       Downloaded (dl w') = Downloaded (dl w) + body_bytes pre /\
       output_open w' f' /\
       os.fpos f' = (os.fpos f + length (body_data pre ++ take k (rdata r)))%nat /\
       os.contents (fs w') f'
         = os.pwrite (os.contents (fs w) f) (os.fpos f) (body_data pre ++ take k (rdata r))).
Proof.
  intros Ho Hd Hmax. split.
  - intros Hfl. apply (DownloadChunks_no_fault body w f Ho Hfl Hd).
    pose proof (body_bytes_taken body). lia.
  - intros pre r post k e fl -> Hall Hn Hfl.
    rewrite body_bytes_app in Hmax. pose proof (body_bytes_nonneg (r :: post)).
    destruct (DownloadChunks_prefix pre (r :: post) w f Ho Hall) as (w1 & Hs & Hf1 & Heq);
      [rewrite Hfl; apply no_fault_replicate | exact Hd | lia |].
    rewrite Hfl, drop_app_length' in Hf1 by (symmetry; apply length_replicate).
    destruct Hs as (f0 & f1 & Ho0 & Ho1 & Hi1 & Hp1 & Hd1 & Hc1 & _).
    assert (f0 = f) as -> by (destruct Ho as [E _], Ho0 as [E' _]; congruence).
    destruct (DownloadChunks_short_write r post w1 f1 k e fl Ho1 Hn Hf1)
      as (w2 & f2 & Heq2 & Hd2 & Ho2 & Hp2 & Hc2).
    exists w2, f2. rewrite Heq, Heq2. split; [reflexivity|].
    split; [unfold body_bytes; lia|]. split; [exact Ho2|]. split.
    + rewrite Hp2, Hp1, length_app. lia.
    + rewrite Hc2, Hc1, Hp1. apply pwrite_app.
Qed.

Lemma streaming_world_open (fl : list os.WFault) :
  output_open (streaming_world fl) (os.mkFile 0 0 false).
Proof. repeat split. cbn. eauto. Qed.

Lemma DownloadChunks_accounting_witness :
  exists w',
    DownloadChunks hello_body (streaming_world []) = (None, w') /\
    Downloaded (dl w') = 11 /\
    out_data w' = list_byte_of_string "hello world".
Proof.
  destruct (DownloadChunks_accounting hello_body (streaming_world [])
              (os.mkFile 0 0 false) (streaming_world_open []))
    as [H _]; [vm_compute; split; discriminate | vm_compute; discriminate |].
  destruct H as (w' & Heq & Hs); [constructor|].
  exists w'. split; [exact Heq|].
  vm_compute in Heq. injection Heq as <-. split; reflexivity.
Defined.

(** C4 as stated fails when the device cuts a write short: three of the five
    bytes reach the file, the loop returns the write error, and [Downloaded]
    is still 0, not the 3 bytes written so far. *)
Lemma DownloadChunks_short_write_uncounted :
  let w := streaming_world [Some (3%nat, EnvError 28)] in
  let '(res, w') := DownloadChunks hello_body w in
  res = Some (EnvError 28) /\
  out_data w' = list_byte_of_string "hel" /\
  out_pos w' - out_pos w = 3 /\
  Downloaded (dl w') - Downloaded (dl w) = 0 /\
  Downloaded (dl w') - Downloaded (dl w) <> out_pos w' - out_pos w.
Proof. vm_compute. repeat split; discriminate. Qed.

(** ** The rate-limited loop *)

Lemma write_output_clock (data : list byte) (w w0 : World) :
  same_but_clock w w0 ->
  fst (write_output data w) = fst (write_output data w0) /\
  same_but_clock (snd (write_output data w)) (snd (write_output data w0)).
Proof.
  intros (Hdl & Hfs & Hfl). unfold write_output. rewrite Hdl, Hfs, Hfl.
  destruct (OutputFile (dl w0)) as [f|]; [|repeat split; assumption].
  destruct (os.Write (fs w0) f data (default None (head (faults w0))))
    as [[[n e] f'] s']. repeat split.
Qed.

Lemma same_but_clock_pass_time (w w0 : World) (dt dt0 : Z) :
  same_but_clock w w0 -> same_but_clock (pass_time dt w) (pass_time dt0 w0).
Proof. exact id. Qed.

Lemma same_but_clock_add (w w0 : World) (n : Z) :
  same_but_clock w w0 -> same_but_clock (add_downloaded n w) (add_downloaded n w0).
Proof.
  intros (Hdl & Hfs & Hfl). unfold same_but_clock, add_downloaded. cbn.
  rewrite Hdl. auto.
Qed.

(** The rate-limited loop reads, writes and counts as the plain loop does;
    the two differ by the clock only. *)
Lemma limit_loop_DownloadChunks (body : list ReadResult) (startTime totalBytes maxSpeedBytes : Z)
    (w w0 : World) :
  same_but_clock w w0 ->
  fst (limit_loop startTime totalBytes maxSpeedBytes body w) = fst (DownloadChunks body w0) /\
  same_but_clock (snd (limit_loop startTime totalBytes maxSpeedBytes body w))
                 (snd (DownloadChunks body w0)).
Proof.
  revert totalBytes w w0. induction body as [|r body IH]; intros totalBytes w w0 Hs.
  - split; [reflexivity | exact Hs].
  - cbn [limit_loop DownloadChunks].
    pose proof (same_but_clock_pass_time w w0 (rtime r) (rtime r) Hs) as Hs1.
    destruct (0 <? Z.of_nat (length (rdata r))).
    + destruct (write_output_clock (rdata r) _ _ Hs1) as [He Hw].
      destruct (write_output (rdata r) (pass_time (rtime r) w)) as [e1 w1].
      destruct (write_output (rdata r) (pass_time (rtime r) w0)) as [e2 w2].
      cbn [fst snd] in He, Hw. subst e2.
      destruct e1 as [e|]; cbn [non_nil]; [split; [reflexivity | exact Hw]|].
      pose proof (same_but_clock_add _ _ (Z.of_nat (length (rdata r))) Hw) as Ha.
      match goal with
      | |- context [if ?c then _ else _] => destruct c
      end;
        (destruct (rerr r) as [e|];
         [destruct (is_EOF e); (split; [reflexivity | exact Ha]) | apply IH; exact Ha]).
    + destruct (rerr r) as [e|];
        [destruct (is_EOF e); (split; [reflexivity | exact Hs1]) | apply IH; exact Hs1].
Qed.

Lemma Streamed_same_but_clock (w w' w1 : World) (a : list byte) :
  Streamed w a w' -> same_but_clock w1 w' -> Streamed w a w1.
Proof.
  intros (f & f' & Ho & Ho' & H) (Hdl & Hfs & _).
  exists f, f'. unfold output_open in *. rewrite Hdl, Hfs. tauto.
Qed.

(** C10.  When a read returns bytes together with an error that is not the
    end of the stream, after reads that brought no error, and the writes go
    through, both loops write those bytes at the cursor of the output file
    after the earlier ones, add their number to [Downloaded], and only then
    return the read error. *)
Theorem read_error_keeps_data (pre post : list ReadResult) (r : ReadResult) (e : error)
    (w : World) (f : os.File) (maxSpeedBytes : Z) :
  output_open w f ->
  Forall (fun r => rerr r = None) pre ->
  has_data r = true -> rerr r = Some e -> is_EOF e = false ->
  Forall (eq None) (take (data_reads (pre ++ [r])) (faults w)) ->
  in_int64 (Downloaded (dl w)) ->
  Downloaded (dl w) + body_bytes (pre ++ [r]) <= int64_max ->
  (exists w',
     DownloadChunks (pre ++ r :: post) w = (Some e, w') /\
     Streamed w (body_data pre ++ rdata r) w') /\
  (exists w',
     DownloadChunksWithLimit (pre ++ r :: post) maxSpeedBytes w = (Some e, w') /\
     Streamed w (body_data pre ++ rdata r) w').
Proof.
  intros Ho Hall Hn Hr He Hfl Hd Hmax.
  assert (Ht : taken (pre ++ r :: post) = pre ++ [r]).
  { clear -Hall Hr. induction Hall as [|x pre Hx _ IH]; cbn [taken app].
    - now rewrite Hr.
    - now rewrite Hx, IH. }
  assert (Hv : read_verdict (pre ++ r :: post) = Some e).
  { clear -Hall Hr He. induction Hall as [|x pre Hx _ IH]; cbn [read_verdict app].
    - now rewrite Hr, He.
    - now rewrite Hx. }
  destruct (DownloadChunks_no_fault (pre ++ r :: post) w f Ho) as (w' & Heq & Hs);
    rewrite ?Ht; auto.
  rewrite Ht, Hv in *.
  assert (Hdata : body_data (pre ++ [r]) = body_data pre ++ rdata r).
  { rewrite body_data_app. unfold body_data at 2. cbn. now rewrite app_nil_r. }
  rewrite Hdata in Hs. split; [exists w'; split; assumption|].
  unfold DownloadChunksWithLimit.
  destruct (limit_loop_DownloadChunks (pre ++ r :: post) (clock w) 0 maxSpeedBytes w w)
    as [Hres Hsame]; [repeat split|].
  rewrite Heq in Hres, Hsame. cbn [fst snd] in Hres, Hsame.
  destruct (limit_loop (clock w) 0 maxSpeedBytes (pre ++ r :: post) w) as [res wl].
  cbn [fst snd] in Hres, Hsame. subst res. exists wl. split; [reflexivity|].
  eapply Streamed_same_but_clock; eassumption.
Qed.

Lemma read_error_keeps_data_witness :
  (exists w',
     DownloadChunks broken_body (streaming_world []) = (Some (EnvError 104), w') /\
     Downloaded (dl w') = 9 /\ out_data w' = list_byte_of_string "hello wor") /\
  (exists w',
     DownloadChunksWithLimit broken_body 4 (streaming_world []) = (Some (EnvError 104), w') /\
     Downloaded (dl w') = 9 /\ out_data w' = list_byte_of_string "hello wor").
Proof.
  destruct (read_error_keeps_data [text_read "hello" None] [text_read "ld" None]
              (text_read " wor" (Some (EnvError 104))) (EnvError 104)
              (streaming_world []) (os.mkFile 0 0 false) 4
              (streaming_world_open []))
    as [(w1 & H1 & _) (w2 & H2 & _)];
    [repeat constructor | reflexivity | reflexivity | reflexivity | constructor
    | vm_compute; split; discriminate | vm_compute; discriminate |].
  split.
  - exists w1. split; [exact H1|]. vm_compute in H1. injection H1 as <-. split; reflexivity.
  - exists w2. split; [exact H2|]. vm_compute in H2. injection H2 as <-. split; reflexivity.
Defined.

(** C9 fails on the code.  With a cap of 100 bytes a second and ten chunks
    of 8 bytes that arrive at once, the loop computes an expected duration
    of [80 / 100] whole seconds, which is 0, at every chunk and so never
    sleeps: 80 bytes have gone through when no time has passed, where the
    cap allows one chunk of 8. *)
Theorem limit_whole_seconds_only :
  let w := streaming_world [] in
  let '(res, w') := DownloadChunksWithLimit burst_body 100 w in
  res = None /\
  Downloaded (dl w') = 80 /\
  clock w' - clock w = 0 /\
  ~ (Downloaded (dl w') * time.Second <= 100 * (clock w' - clock w) + 8 * time.Second).
Proof. vm_compute. repeat split. intros H. apply H. reflexivity. Qed.

(** ** The reporter *)

Lemma decimal_nonempty (n : Z) : decimal n <> [].
Proof.
  unfold decimal, strconv.FormatInt.
  destruct n as [|p|p]; cbn [Z.to_int NilEmpty.string_of_int]; try discriminate;
    pose proof (DecimalPos.Unsigned.to_uint_nonnil p);
    destruct (Pos.to_uint p); try congruence; discriminate.
Qed.

Lemma pwrite_empty (data : list byte) : os.pwrite [] 0 data = data.
Proof.
  destruct data as [|x data]; [reflexivity|].
  unfold os.pwrite. rewrite take_0, drop_nil, app_nil_r. reflexivity.
Qed.

Lemma value_of_decimal (n : Z) : 0 <= n -> in_int64 n -> value_of (decimal n) = n.
Proof.
  intros Hn Hr. unfold value_of, decimal.
  rewrite string_of_list_byte_of_string, (ParseInt_FormatInt n Hr).
  destruct (Z.ltb_spec n 0); [lia | reflexivity].
Qed.

(** ** The start of [Download] *)

Lemma OpenFile_spec (s s' : os.FS) (p : string) (f : os.File) :
  os.OpenFile s p = (Some f, None, s') ->
  os.fpos f = 0%nat /\ os.fclosed f = false /\
  os.names s' !! p = Some (os.fino f) /\
  ((s' = s /\ os.names s !! p = Some (os.fino f) /\
    exists nd, os.inodes s !! os.fino f = Some nd /\ os.iperm nd = true) \/
   (os.names s !! p = None /\ os.fino f = length (os.inodes s) /\
    s' = os.mkFS (<[p := length (os.inodes s)]> (os.names s))
                 (os.inodes s ++ [os.mkInode [] [] true]))).
Proof.
  unfold os.OpenFile. destruct (os.names s !! p) as [i|] eqn:Hn.
  - destruct (os.inodes s !! i) as [nd|] eqn:Hi; [|discriminate].
    destruct (os.iperm nd) eqn:Hp; [|discriminate].
    intros [= <- <-]. cbn. repeat split; auto. left. repeat split; eauto.
  - intros [= <- <-]. cbn. rewrite lookup_insert_eq. repeat split. right. auto.
Qed.

(** When [Download] gets as far as the loop, this is how. *)
Lemma Download_start_running (env : Env) (w : World) :
  returned (Download_start env w) = None ->
  exists req w1 resp fo0 s1 fp s2,
    CreateRequest env w = (Some req, None, w1) /\
    Do env req = inl resp /\
    os.OpenFile (fs w1) (FilePath (dl w1)) = (Some fo0, None, s1) /\
    0 <= Downloaded (dl w1) /\
    os.OpenFile s1 (ProgressPath (dl w1)) = (Some fp, None, s2) /\
    let st0 := Download_start env w in
    main st0 = MRead /\ reporter st0 = RSelect /\ stopChan st0 = false /\
    body st0 = Body resp /\
    fs (world st0) = s2 /\ faults (world st0) = faults w1 /\
    OutputFile (dl (world st0))
      = Some (os.mkFile (os.fino fo0) (Z.to_nat (Downloaded (dl w1))) false) /\
    ProgressFile (dl (world st0)) = Some fp /\
    Downloaded (dl (world st0)) = Downloaded (dl w1) /\
    ProgressPath (dl (world st0)) = ProgressPath (dl w1) /\
    FilePath (dl (world st0)) = FilePath (dl w1) /\
    UseProgressFile (dl (world st0)) = UseProgressFile (dl w1).
Proof.
  intros H. unfold Download_start in H |- *.
  destruct (CreateRequest env w) as [[[req|] [e|]] w1] eqn:Hcr;
    try discriminate H.
  destruct (Do env req) as [resp|e] eqn:Hdo; [|discriminate H].
  destruct (negb (StatusCode resp =? StatusOK)
            && negb (StatusCode resp =? StatusPartialContent)); [discriminate H|].
  destruct ((0 <? Downloaded (dl w1)) && negb (StatusCode resp =? StatusPartialContent));
    [discriminate H|].
  destruct (if String.eqb (Get (RespHeader resp) "Content-Length") EmptyString
            then (0, None)
            else strconv.ParseInt (Get (RespHeader resp) "Content-Length"))
    as [contentLen [e|]] eqn:Hcl; cbn [non_nil] in H |- *; [discriminate H|].
  set (w2 := if String.eqb (Get (RespHeader resp) "Content-Length") EmptyString
             then w1
             else set_dl (set_TotalSize (wrap64 (Downloaded (dl w1) + contentLen)) (dl w1)) w1)
    in *.
  assert (Hw2 : fs w2 = fs w1 /\ faults w2 = faults w1 /\
                Downloaded (dl w2) = Downloaded (dl w1) /\
                ProgressPath (dl w2) = ProgressPath (dl w1) /\
                FilePath (dl w2) = FilePath (dl w1) /\
                UseProgressFile (dl w2) = UseProgressFile (dl w1)).
  { subst w2. destruct (String.eqb _ _); repeat split. }
  destruct Hw2 as (Hfs2 & Hfl2 & Hd2 & Hp2 & Hf2 & Hu2).
  destruct (os.OpenFile (fs w2) (FilePath (dl w2))) as [[[fo0|] [e|]] s1] eqn:Hoo;
    try discriminate H.
  pose proof (OpenFile_spec _ _ _ _ Hoo) as (_ & Hoc & _).
  cbn [dl set_dl set_fs Downloaded set_OutputFile fs] in H |- *.
  unfold os.Seek in H |- *. rewrite Hoc in H |- *.
  destruct (Z.ltb_spec (Downloaded (dl w2)) 0) as [Hneg|Hpos];
    cbn [non_nil] in H |- *; [discriminate H|].
  cbn [dl set_dl set_fs Downloaded set_OutputFile fs ProgressPath] in H |- *.
  destruct (os.OpenFile s1 (ProgressPath (dl w2))) as [[[fp|] [e|]] s2] eqn:Hop;
    try discriminate H.
  rewrite Hfs2, Hf2 in Hoo. rewrite Hp2 in Hop.
  exists req, w1, resp, fo0, s1, fp, s2.
  repeat split; auto; try lia; cbn; try congruence.
Qed.

Lemma OpenFile_names (s : os.FS) (p q : string) (i : nat) :
  os.names s !! q = Some i -> os.names (os.OpenFile s p).2 !! q = Some i.
Proof.
  intros Hq. unfold os.OpenFile. destruct (os.names s !! p) as [j|] eqn:Hp.
  - destruct (os.inodes s !! j) as [nd|]; [destruct (os.iperm nd)|]; exact Hq.
  - cbn. rewrite lookup_insert_ne; [exact Hq|]. congruence.
Qed.

(** An early return of [Download] carries an error, has started no
    reporter, and has removed no name from the file system. *)
Lemma Download_start_exit (env : Env) (w : World) (err : option error) :
  returned (Download_start env w) = Some err ->
  exists e w',
    err = Some e /\ Download_start env w = exit (Some e) w' /\
    ProgressPath (dl w') = ProgressPath (dl w) /\
    (forall q i, os.names (fs w) !! q = Some i -> os.names (fs w') !! q = Some i).
Proof.
  intros H. unfold Download_start in H |- *.
  destruct (CreateRequest env w) as [[req e0] w1] eqn:Hcr.
  pose proof (CreateRequest_frame _ _ _ _ _ Hcr) as (Hfs & Hp & _).
  assert (Hexit : forall e w',
            ProgressPath (dl w') = ProgressPath (dl w1) ->
            (forall q i, os.names (fs w1) !! q = Some i -> os.names (fs w') !! q = Some i) ->
            returned (exit e w') = Some err -> e <> None ->
            exists e1 w'',
              err = Some e1 /\ exit e w' = exit (Some e1) w'' /\
              ProgressPath (dl w'') = ProgressPath (dl w) /\
              (forall q i, os.names (fs w) !! q = Some i ->
                           os.names (fs w'') !! q = Some i)).
  { intros e w' Hp' Hn' [= <-] Hne. destruct e as [e|]; [|congruence].
    exists e, w'. repeat split; [congruence|]. intros q i. rewrite <- Hfs. apply Hn'. }
  destruct req as [req|], e0 as [e0|];
    try (apply Hexit; auto; discriminate).
  2: { exfalso. unfold CreateRequest in Hcr.
       destruct (NewRequest env (Url (dl w))) as [[r|] [e|]] eqn:Hn;
         try discriminate Hcr.
       - destruct (UseProgressFile (dl w)); [destruct (0 <? _)|]; discriminate Hcr.
       - unfold NewRequest in Hn. destruct (url_ok env (Url (dl w))); discriminate Hn. }
  destruct (Do env req) as [resp|e]; [|apply Hexit; auto; discriminate].
  destruct (negb (StatusCode resp =? StatusOK)
            && negb (StatusCode resp =? StatusPartialContent));
    [apply Hexit; auto; discriminate|].
  destruct ((0 <? Downloaded (dl w1)) && negb (StatusCode resp =? StatusPartialContent));
    [apply Hexit; auto; discriminate|].
  destruct (if String.eqb (Get (RespHeader resp) "Content-Length") EmptyString
            then (0, None)
            else strconv.ParseInt (Get (RespHeader resp) "Content-Length"))
    as [contentLen [e|]] eqn:Hcl; cbn [non_nil] in H |- *;
    [apply Hexit; auto; discriminate|].
  set (w2 := if String.eqb (Get (RespHeader resp) "Content-Length") EmptyString
             then w1
             else set_dl (set_TotalSize (wrap64 (Downloaded (dl w1) + contentLen)) (dl w1)) w1)
    in *.
  assert (Hw2 : fs w2 = fs w1 /\ ProgressPath (dl w2) = ProgressPath (dl w1)).
  { subst w2. destruct (String.eqb _ _); repeat split. }
  destruct Hw2 as (Hfs2 & Hp2).
  pose proof (fun q i => OpenFile_names (fs w2) (FilePath (dl w2)) q i) as Hgrow1.
  destruct (os.OpenFile (fs w2) (FilePath (dl w2))) as [[fo0 e1] s1] eqn:Hoo.
  cbn [snd] in Hgrow1. rewrite Hfs2 in Hgrow1.
  destruct fo0 as [fo0|], e1 as [e1|];
    try (apply Hexit; auto; discriminate).
  2: { exfalso. unfold os.OpenFile in Hoo.
       destruct (os.names (fs w2) !! FilePath (dl w2)) as [j|];
         [destruct (os.inodes (fs w2) !! j) as [nd|]; [destruct (os.iperm nd)|]|];
         discriminate Hoo. }
  cbn [dl set_dl set_fs Downloaded set_OutputFile fs ProgressPath] in H |- *.
  destruct (os.Seek fo0 (Downloaded (dl w2))) as [[z e2] fo1].
  destruct e2 as [e2|]; cbn [non_nil] in H |- *.
  { apply Hexit; auto; discriminate. }
  cbn [dl set_dl set_fs Downloaded set_OutputFile fs ProgressPath] in H |- *.
  pose proof (fun q i => OpenFile_names s1 (ProgressPath (dl w2)) q i) as Hgrow2.
  destruct (os.OpenFile s1 (ProgressPath (dl w2))) as [[fp e3] s2] eqn:Hop.
  cbn [snd] in Hgrow2.
  destruct fp as [fp|], e3 as [e3|]; try discriminate H;
    try (apply Hexit; auto; try discriminate; unfold close_output; cbn; auto).
  exfalso. unfold os.OpenFile in Hop.
  destruct (os.names s1 !! ProgressPath (dl w2)) as [j|];
    [destruct (os.inodes s1 !! j) as [nd|]; [destruct (os.iperm nd)|]|];
    discriminate Hop.
Qed.

(** ** Runs of the two goroutines *)

Lemma run_app (s1 s2 : list Actor) (st : State) :
  run (s1 ++ s2) st = run s2 (run s1 st).
Proof. unfold run. apply fold_left_app. Qed.

Lemma run_invariant (P : State -> Prop) :
  (forall a st, P st -> P (step a st)) ->
  forall sched st, P st -> P (run sched st).
Proof.
  intros Hstep sched. induction sched as [|a sched IH]; intros st H; [exact H|].
  apply IH, Hstep, H.
Qed.

Lemma after_chunk_cases (r : ReadResult) :
  after_chunk r = MRead \/ exists e, after_chunk r = MReturned e.
Proof.
  unfold after_chunk. destruct (rerr r) as [e|]; [right|left; reflexivity].
  destruct (is_EOF e); eauto.
Qed.

(** No action of either goroutine sends on [stopChan] or closes it. *)
Lemma step_stopChan (a : Actor) (st : State) : stopChan (step a st) = stopChan st.
Proof.
  destruct a; cbn [step].
  - unfold main_step. destruct (main st); try reflexivity.
    + destruct (body st); [reflexivity|]. destruct (0 <? _); reflexivity.
    + destruct (write_output _ _) as [e w]. destruct (non_nil e); reflexivity.
  - unfold reporter_step. destruct (reporter st); try reflexivity.
    cbn. destruct (ProgressFile _); reflexivity.
  - unfold reporter_stop. destruct (reporter st); try reflexivity.
    destruct (stopChan st) eqn:E; cbn; congruence.
Qed.

(** [Download] never signals the reporter to stop. *)
Lemma Download_never_signals (env : Env) (sched : list Actor) (w : World) :
  stopChan (Download env sched w) = false.
Proof.
  unfold Download.
  apply (run_invariant (fun st => stopChan st = false)).
  - intros a st H. now rewrite step_stopChan.
  - destruct (returned (Download_start env w)) as [err|] eqn:Hret.
    + destruct (Download_start_exit env w err Hret) as (e & w' & _ & -> & _). reflexivity.
    + destruct (Download_start_running env w Hret) as (? & ? & ? & ? & ? & ? & ? & H).
      apply H.
Qed.

(** So the reporter, once started, never returns. *)
Lemma reporter_never_stops (env : Env) (sched : list Actor) (w : World) :
  reporter (Download env sched w) <> RStopped.
Proof.
  unfold Download.
  assert (H0 : stopChan (Download_start env w) = false)
    by apply (Download_never_signals env [] w).
  assert (H1 : reporter (Download_start env w) <> RStopped).
  { destruct (returned (Download_start env w)) as [err|] eqn:Hret.
    - destruct (Download_start_exit env w err Hret) as (e & w' & _ & -> & _). discriminate.
    - destruct (Download_start_running env w Hret) as (? & ? & ? & ? & ? & ? & ? & H).
      destruct H as (_ & _ & _ & _ & _ & _ & Hr & _). rewrite Hr. discriminate. }
  apply (run_invariant (fun st => stopChan st = false /\ reporter st <> RStopped));
    [|split; assumption].
  intros a st [Hs Hr]. split; [now rewrite step_stopChan|].
  destruct a; cbn [step].
  - unfold main_step. destruct (main st); try exact Hr.
    + destruct (body st); [exact Hr|]. destruct (0 <? _); exact Hr.
    + destruct (write_output _ _) as [e w']. destruct (non_nil e); exact Hr.
  - unfold reporter_step. destruct (reporter st) eqn:E; cbn;
      try congruence; try (rewrite ?E; discriminate).
    destruct (ProgressFile _); cbn; discriminate.
  - unfold reporter_stop. destruct (reporter st) eqn:E;
      try congruence; try (rewrite E; discriminate).
    rewrite Hs, E. discriminate.
Qed.

(** C1 fails on the code.  [Download] creates [stopChan] and hands it to
    the reporter, but returns, with the progress file closed by its deferred
    [Close], without ever sending on the channel or closing it.  On a
    download of ten bytes the reporter is then still alive: its next tick
    samples [Downloaded = 10] and reaches [WriteString] on the closed
    handle, which answers [os.ErrClosed]. *)
Theorem reporter_outlives_Download :
  let st := Download server_200 tick_after_return ten_bytes in
  returned st = Some None /\
  stopChan st = false /\
  reporter st = RWriteString 10 /\
  exists f,
    ProgressFile (dl (world st)) = Some f /\ os.fclosed f = true /\
    os.Write (fs (world st)) f (decimal 10) None
      = (0%nat, Some os_ErrClosed, f, fs (world st)).
Proof.
  vm_compute. repeat split. eexists. repeat split.
Qed.

Lemma write_output_frame (data : list byte) (w : World) :
  let w' := (write_output data w).2 in
  os.names (fs w') = os.names (fs w) /\
  ProgressPath (dl w') = ProgressPath (dl w) /\
  ProgressFile (dl w') = ProgressFile (dl w) /\
  Downloaded (dl w') = Downloaded (dl w) /\
  length (os.inodes (fs w')) = length (os.inodes (fs w)).
Proof.
  unfold write_output. destruct (OutputFile (dl w)) as [f|]; [|cbn; auto].
  unfold os.Write. destruct (os.fclosed f); cbn; [auto|].
  repeat split. apply length_alter.
Qed.

Lemma on_progress_frame (op : os.FS -> os.File -> os.FS * os.File) (w : World) :
  (forall s f, os.names (op s f).1 = os.names s) ->
  let w' := on_progress op w in
  os.names (fs w') = os.names (fs w) /\
  ProgressPath (dl w') = ProgressPath (dl w) /\
  OutputFile (dl w') = OutputFile (dl w) /\
  Downloaded (dl w') = Downloaded (dl w) /\
  faults w' = faults w.
Proof.
  intros Hop. unfold on_progress. destruct (ProgressFile (dl w)) as [f|]; [|cbn; auto].
  specialize (Hop (fs w) f). destruct (op (fs w) f) as [s' f']. cbn in *. auto.
Qed.

Lemma reporter_step_frame (st : State) :
  let st' := reporter_step st in
  main st' = main st /\ body st' = body st /\
  os.names (fs (world st')) = os.names (fs (world st)) /\
  ProgressPath (dl (world st')) = ProgressPath (dl (world st)) /\
  OutputFile (dl (world st')) = OutputFile (dl (world st)) /\
  Downloaded (dl (world st')) = Downloaded (dl (world st)) /\
  faults (world st') = faults (world st).
Proof.
  unfold reporter_step. destruct (reporter st); cbn [main body world set_reporter set_world];
    try (repeat split; fail).
  - cbn. destruct (ProgressFile (dl (world st))); repeat split.
  - split; [reflexivity|]. split; [reflexivity|]. apply on_progress_frame. reflexivity.
  - split; [reflexivity|]. split; [reflexivity|]. apply on_progress_frame.
    intros s f. unfold os.Truncate. destruct (os.fclosed f); reflexivity.
  - split; [reflexivity|]. split; [reflexivity|]. apply on_progress_frame.
    intros s f. unfold os.Write. destruct (os.fclosed f); reflexivity.
  - split; [reflexivity|]. split; [reflexivity|]. apply on_progress_frame.
    intros s f. unfold os.Sync. destruct (os.fclosed f); reflexivity.
Qed.

Lemma reporter_stop_frame (st : State) :
  world (reporter_stop st) = world st /\ main (reporter_stop st) = main st /\
  body (reporter_stop st) = body st.
Proof.
  unfold reporter_stop. destruct (reporter st); try (repeat split; fail).
  destruct (stopChan st); repeat split.
Qed.

(** The name of the progress file is unlinked by [Download] after
    [DownloadChunks] returned nil, and by nothing else. *)
Lemma step_sidecar_link (P : string) (ip : nat) (a : Actor) (st : State) :
  sidecar_link P ip st -> sidecar_link P ip (step a st).
Proof.
  intros [Hp Hl]. destruct a; cbn [step].
  - unfold sidecar_link, main_step.
    destruct (main st) as [|r|r|e|e|e|e] eqn:Hm.
    + destruct (body st) as [|r rest]; [split; [exact Hp | exact Hl]|].
      destruct (0 <? _); [split; [exact Hp | exact Hl]|].
      cbn. split; [exact Hp|]. destruct (after_chunk_cases r) as [-> | [e ->]]; exact Hl.
    + pose proof (write_output_frame (rdata r) (world st)) as (Hn & Hpp & _).
      destruct (write_output (rdata r) (world st)) as [e w']. cbn [snd] in Hn, Hpp.
      destruct (non_nil e); cbn; rewrite Hn, Hpp; (split; [exact Hp | exact Hl]).
    + cbn. split; [exact Hp|]. destruct (after_chunk_cases r) as [-> | [e ->]]; exact Hl.
    + destruct e as [e|]; cbn; [split; [exact Hp | exact Hl]|].
      split; [exact Hp|]. rewrite Hp. unfold os.Remove.
      destruct (os.names (fs (world st)) !! P) eqn:E; cbn; [apply lookup_delete_eq | exact E].
    + unfold close_progress.
      pose proof (on_progress_frame (fun s f => (s, (os.Close f).2)) (world st)
                    ltac:(reflexivity)) as (Hn & Hpp & _).
      cbn. rewrite Hn, Hpp. split; [exact Hp|]. destruct e; exact Hl.
    + unfold close_output. cbn. destruct (OutputFile (dl (world st)));
        cbn; (split; [exact Hp|]); destruct e; exact Hl.
    + rewrite Hm. split; [exact Hp | exact Hl].
  - pose proof (reporter_step_frame st) as (Hm & _ & Hn & Hpp & _).
    unfold sidecar_link. rewrite Hm, Hn, Hpp. split; [exact Hp | exact Hl].
  - pose proof (reporter_stop_frame st) as (Hw & Hm & _).
    unfold sidecar_link. rewrite Hm, Hw. split; [exact Hp | exact Hl].
Qed.

Lemma write_output_same_output (data : list byte) (w w' : World) :
  same_output w w' ->
  (write_output data w).1 = (write_output data w').1 /\
  same_output (write_output data w).2 (write_output data w').2.
Proof.
  intros [Hfl Ho]. unfold write_output.
  destruct (OutputFile (dl w)) as [f|] eqn:E, (OutputFile (dl w')) as [f'|] eqn:E';
    try discriminate Ho.
  - injection Ho as Hc. rewrite Hfl. unfold os.Write. rewrite Hc.
    destruct (os.fclosed f') eqn:Hc'; cbn.
    + split; [reflexivity|]. unfold same_output. cbn. now rewrite Hc, Hc'.
    + split; [reflexivity|]. unfold same_output. cbn. split; reflexivity.
  - cbn. split; [reflexivity|]. unfold same_output. now rewrite Hfl, E, E'.
Qed.

Lemma same_output_add (n : Z) (w w' : World) :
  same_output w w' -> same_output (add_downloaded n w) (add_downloaded n w').
Proof. exact id. Qed.

Lemma same_output_pass_time (dt : Z) (w w' : World) :
  same_output w w' -> same_output (pass_time dt w) (pass_time dt w').
Proof. exact id. Qed.

(** The verdict of the loop depends on the body, on the output handle and
    on the device, not on what the reporter touches. *)
Lemma DownloadChunks_same_output (body : list ReadResult) (w w' : World) :
  same_output w w' -> (DownloadChunks body w).1 = (DownloadChunks body w').1.
Proof.
  revert w w'. induction body as [|r body IH]; intros w w' Hs; [reflexivity|].
  cbn [DownloadChunks]. apply (same_output_pass_time (rtime r)) in Hs.
  destruct (0 <? Z.of_nat (length (rdata r))).
  - destruct (write_output_same_output (rdata r) _ _ Hs) as [He Hw].
    destruct (write_output (rdata r) (pass_time (rtime r) w)) as [e1 w1].
    destruct (write_output (rdata r) (pass_time (rtime r) w')) as [e2 w2].
    cbn [fst snd] in He, Hw. subst e2. destruct e1 as [e|]; cbn [non_nil]; [reflexivity|].
    destruct (rerr r) as [e|]; [destruct (is_EOF e); reflexivity|].
    apply IH, same_output_add, Hw.
  - destruct (rerr r) as [e|]; [destruct (is_EOF e); reflexivity|]. apply IH, Hs.
Qed.

Lemma engine_result_same_output (st st' : State) :
  main st' = main st -> body st' = body st -> same_output (world st) (world st') ->
  engine_result st' = engine_result st.
Proof.
  intros Hm Hb Hs. unfold engine_result. rewrite Hm, Hb.
  destruct (main st) as [|r|r|e|e|e|e]; try reflexivity.
  - symmetry. apply DownloadChunks_same_output, Hs.
  - destruct (write_output_same_output (rdata r) _ _ Hs) as [He Hw].
    destruct (write_output (rdata r) (world st)) as [e1 w1].
    destruct (write_output (rdata r) (world st')) as [e2 w2].
    cbn [fst snd] in He, Hw. subst e2. destruct (non_nil e1); [reflexivity|].
    destruct (rerr r) as [e|]; [reflexivity|].
    symmetry. apply DownloadChunks_same_output, same_output_add, Hw.
  - destruct (rerr r) as [e|]; [reflexivity|].
    symmetry. apply DownloadChunks_same_output, same_output_add, Hs.
Qed.

(** Whatever the schedule, the error [DownloadChunks] returns inside
    [Download] is the one the loop returns when it runs alone. *)
Lemma step_engine_result (a : Actor) (st : State) :
  engine_result (step a st) = engine_result st.
Proof.
  destruct a; cbn [step].
  - unfold main_step, engine_result.
    destruct (main st) as [|r|r|e|e|e|e] eqn:Hm; try reflexivity.
    + destruct (body st) as [|r rest] eqn:Hb; [reflexivity|].
      cbn [DownloadChunks].
      destruct (0 <? Z.of_nat (length (rdata r))) eqn:Hn; cbn.
      * destruct (write_output (rdata r) (pass_time (rtime r) (world st))) as [e1 w1].
        destruct e1 as [e|]; cbn [non_nil]; [reflexivity|].
        destruct (rerr r) as [e|]; [destruct (is_EOF e); reflexivity | reflexivity].
      * unfold after_chunk.
        destruct (rerr r) as [e|]; [destruct (is_EOF e); reflexivity | reflexivity].
    + destruct (write_output (rdata r) (world st)) as [e1 w1].
      destruct e1 as [e|]; cbn; reflexivity.
    + cbn. unfold after_chunk.
      destruct (rerr r) as [e|]; [destruct (is_EOF e); reflexivity | reflexivity].
    + rewrite Hm. reflexivity.
  - pose proof (reporter_step_frame st) as (Hm & Hb & _ & _ & Ho & _ & Hfl).
    apply engine_result_same_output; auto. split; [now rewrite Hfl | now rewrite Ho].
  - pose proof (reporter_stop_frame st) as (Hw & Hm & Hb).
    apply engine_result_same_output; auto. rewrite Hw. split; reflexivity.
Qed.

(** ** [Download] returns *)

Lemma main_step_measure (st : State) :
  (main_measure (main_step st) < main_measure st)%nat \/ main_measure st = 0%nat.
Proof.
  unfold main_measure, main_step. destruct (main st) as [|r|r|e|e|e|e] eqn:Hm.
  - destruct (body st) as [|r rest] eqn:Hb; cbn; [lia|].
    destruct (0 <? _); cbn; [lia|].
    destruct (after_chunk_cases r) as [-> | [e ->]]; lia.
  - destruct (write_output _ _) as [e w]. destruct (non_nil e); cbn; lia.
  - cbn. destruct (after_chunk_cases r) as [-> | [e ->]]; lia.
  - cbn. lia.
  - cbn. lia.
  - cbn. lia.
  - right. reflexivity.
Qed.

Lemma main_step_measure_zero (st : State) :
  main_measure st = 0%nat -> main_measure (main_step st) = 0%nat.
Proof.
  unfold main_measure, main_step. destruct (main st) eqn:Hm; try lia.
  intros _. now rewrite Hm.
Qed.

Lemma other_step_measure (a : Actor) (st : State) :
  a <> Main -> main_measure (step a st) = main_measure st.
Proof.
  intros Ha. destruct a; [congruence| |]; cbn [step]; unfold main_measure.
  - pose proof (reporter_step_frame st) as (Hm & Hb & _). now rewrite Hm, Hb.
  - pose proof (reporter_stop_frame st) as (_ & Hm & Hb). now rewrite Hm, Hb.
Qed.

Lemma run_measure (sched : list Actor) (st : State) :
  (main_measure (run sched st) <= main_measure st - main_actions sched)%nat.
Proof.
  revert st. induction sched as [|a sched IH]; intros st; [cbn; lia|].
  change (run (a :: sched) st) with (run sched (step a st)).
  specialize (IH (step a st)). destruct a; cbn [main_actions].
  - cbn [step] in *. destruct (main_step_measure st) as [H|H]; [lia|].
    apply main_step_measure_zero in H. lia.
  - rewrite other_step_measure in IH by discriminate. exact IH.
  - rewrite other_step_measure in IH by discriminate. exact IH.
Qed.

Lemma measure_zero_returned (st : State) :
  main_measure st = 0%nat -> exists err, returned st = Some err.
Proof.
  unfold main_measure, returned. destruct (main st); try lia. eauto.
Qed.

(** Whatever the reporter does in between, [Download] returns once it has
    been given enough actions: three for each read left in the body and four
    more. *)
Lemma Download_returns (env : Env) (sched : list Actor) (w : World) :
  (main_measure (Download_start env w) <= main_actions sched)%nat ->
  exists err, returned (Download env sched w) = Some err.
Proof.
  intros H. apply measure_zero_returned. unfold Download.
  pose proof (run_measure sched (Download_start env w)). lia.
Qed.

(** ** The progress file at the end of [Download] *)

Lemma Download_start_link (env : Env) (w : World) :
  returned (Download_start env w) = None ->
  exists ip,
    sidecar_link (ProgressPath (dl w)) ip (Download_start env w) /\
    forall i, os.names (fs w) !! ProgressPath (dl w) = Some i -> i = ip.
Proof.
  intros Hret.
  destruct (Download_start_running env w Hret)
    as (req & w1 & resp & fo0 & s1 & fp & s2 & Hcr & _ & Hoo & _ & Hop & H).
  destruct H as (Hm & _ & _ & _ & Hfs & _ & _ & _ & _ & Hpp & _).
  pose proof (CreateRequest_frame _ _ _ _ _ Hcr) as (Hfs1 & Hp1 & _).
  pose proof (OpenFile_spec _ _ _ _ Hop) as (_ & _ & Hlink & Hcase).
  exists (os.fino fp). split.
  - unfold sidecar_link. rewrite Hm, Hpp, Hfs, Hp1 in *. split; [reflexivity | exact Hlink].
  - intros i Hi. rewrite <- Hfs1, <- Hp1 in Hi.
    pose proof (OpenFile_names (fs w1) (FilePath (dl w1)) _ _ Hi) as Hi1.
    rewrite Hoo in Hi1. cbn [snd] in Hi1.
    destruct Hcase as [(_ & Hn & _) | (Hn & _)]; congruence.
Qed.

(** C5.  When [Download] returns after the loop has run, its result is
    the result of [DownloadChunks], and the name of the progress file is
    gone from the file system exactly when that result is nil: on an error
    the name is still there.  When [Download] returns before the loop, it
    returns an error and has done nothing after that point.  In no case of
    an error is a progress file that existed before unlinked. *)
Theorem sidecar_removed_iff_success (env : Env) (sched : list Actor) (w : World)
    (err : option error) :
  returned (Download env sched w) = Some err ->
  let P := ProgressPath (dl w) in
  let st0 := Download_start env w in
  let st := Download env sched w in
  (returned st0 = None ->
   err = (DownloadChunks (body st0) (world st0)).1 /\
   (err = None -> os.names (fs (world st)) !! P = None) /\
   (err <> None -> is_Some (os.names (fs (world st)) !! P))) /\
  (returned st0 <> None -> err <> None /\ st = st0) /\
  (err <> None ->
   forall i, os.names (fs w) !! P = Some i -> os.names (fs (world st)) !! P = Some i).
Proof.
  intros Hret P st0 st. change (returned st = Some err) in Hret.
  destruct (returned st0) as [e0|] eqn:Hret0.
  - destruct (Download_start_exit env w e0 Hret0) as (e & w' & -> & Hexit & Hpp & Hgrow).
    assert (Hst : st = st0).
    { subst st st0. unfold Download. rewrite Hexit. apply run_exit. }
    split; [discriminate|]. split.
    + intros _. split; [|exact Hst].
      rewrite Hst in Hret. subst st0. rewrite Hexit in Hret. cbn in Hret. congruence.
    + intros _ i Hi. rewrite Hst. subst st0. rewrite Hexit. cbn. apply Hgrow, Hi.
  - destruct (Download_start_link env w Hret0) as (ip & Hlink & Hip).
    pose proof (run_invariant _ (step_sidecar_link P ip) sched st0 Hlink) as [_ Hl].
    pose proof (run_invariant (fun s => engine_result s = engine_result st0)
                  (fun a s H => eq_trans (step_engine_result a s) H) sched st0 eq_refl)
      as Heng.
    change (run sched st0) with st in Hl, Heng. cbv beta in Heng.
    unfold returned in Hret. destruct (main st) as [| | | | | |e] eqn:Hm; try discriminate.
    injection Hret as ->.
    assert (Herr : err = (DownloadChunks (body st0) (world st0)).1).
    { unfold engine_result in Heng. rewrite Hm in Heng.
      destruct (Download_start_running env w Hret0) as (? & ? & ? & ? & ? & ? & ? & H).
      destruct H as (_ & _ & _ & _ & _ & Hm0 & _). fold st0 in Hm0.
      rewrite Hm0 in Heng. exact Heng. }
    split; [intros _; split; [exact Herr|]|split; [congruence|]].
    + destruct err as [e|]; split; intros H; try congruence; try (rewrite Hl; eauto).
    + intros Hne i Hi. destruct err as [e|]; [|congruence].
      rewrite Hl. f_equal. symmetry. apply Hip, Hi.
Qed.

Lemma sidecar_removed_iff_success_witness :
  os.names (fs (world (Download server_200 (replicate 7 Main) ten_bytes))) !! "f.progress"
    = None.
Proof.
  destruct (sidecar_removed_iff_success server_200 (replicate 7 Main) ten_bytes None eq_refl)
    as [H _].
  destruct (H eq_refl) as (_ & Hnone & _).
  exact (Hnone eq_refl).
Defined.

(** ** The persisted counter never runs ahead of the output file *)

Lemma write_output_effect (data : list byte) (w : World) (fo : os.File) :
  OutputFile (dl w) = Some fo ->
  exists fo',
    OutputFile (dl (write_output data w).2) = Some fo' /\
    os.fino fo' = os.fino fo /\
    (os.fpos fo <= os.fpos fo' <= os.fpos fo + length data)%nat /\
    ((write_output data w).1 = None -> os.fpos fo' = (os.fpos fo + length data)%nat) /\
    ProgressFile (dl (write_output data w).2) = ProgressFile (dl w) /\
    Downloaded (dl (write_output data w).2) = Downloaded (dl w) /\
    forall i, i <> os.fino fo ->
      os.inodes (fs (write_output data w).2) !! i = os.inodes (fs w) !! i.
Proof.
  intros Ho. unfold write_output. rewrite Ho. unfold os.Write.
  destruct (os.fclosed fo) eqn:Hc; cbn.
  - exists fo. repeat split; auto; try lia. discriminate.
  - eexists. split; [reflexivity|]. cbn.
    destruct (default None (head (faults w))) as [[k e]|]; cbn.
    + rewrite length_take. repeat split; try lia; try discriminate.
      intros i Hi. apply list_lookup_alter_ne. congruence.
    + repeat split; try lia. intros i Hi. apply list_lookup_alter_ne. congruence.
Qed.

Lemma sidecar_value_eq (w w' : World) (fp : os.File) :
  ProgressFile (dl w) = Some fp -> ProgressFile (dl w') = Some fp ->
  os.inodes (fs w') !! os.fino fp = os.inodes (fs w) !! os.fino fp ->
  sidecar_value w' = sidecar_value w.
Proof.
  intros H H' Hi. unfold sidecar_value, os.contents. now rewrite H, H', Hi.
Qed.

Lemma contents_eq (s s' : os.FS) (fp : os.File) :
  os.inodes s' !! os.fino fp = os.inodes s !! os.fino fp ->
  os.contents s' fp = os.contents s fp.
Proof. intros H. unfold os.contents. now rewrite H. Qed.

Lemma main_step_sound (st : State) : progress_sound st -> progress_sound (main_step st).
Proof.
  intros (fo & fp & Ho & Hp & Hne & Hin & Hd0 & Hcur & Hmax & Hrep & Hval & Hmid).
  unfold main_step. destruct (main st) as [|r|r|e|e|e|e] eqn:Hm.
  - (* Read *)
    destruct (body st) as [|r rest] eqn:Hb.
    + exists fo, fp. cbn. rewrite ?Hm, ?Hb in *. repeat split; auto.
    + rewrite body_bytes_cons in Hmax. pose proof (body_bytes_nonneg rest).
      destruct (Z.ltb_spec 0 (Z.of_nat (length (rdata r)))).
      * exists fo, fp. cbn in *. rewrite ?Hb. repeat split; auto; lia.
      * exists fo, fp. cbn in *. rewrite ?Hb.
        destruct (after_chunk_cases r) as [-> | [e ->]]; cbn; repeat split; auto; lia.
  - (* Write *)
    destruct (write_output_effect (rdata r) (world st) fo Ho)
      as (fo' & Ho' & Hino & Hpos & Hfull & Hpf & Hdl & Hother).
    destruct (write_output (rdata r) (world st)) as [e w'] eqn:Hw. cbn [fst snd] in *.
    assert (Hi' : os.inodes (fs w') !! os.fino fp = os.inodes (fs (world st)) !! os.fino fp)
      by (apply Hother; congruence).
    assert (Hval' : sidecar_value w' = sidecar_value (world st))
      by (apply (sidecar_value_eq _ _ fp); congruence).
    pose proof (body_bytes_nonneg (body st)).
    cbn in Hcur, Hmax.
    destruct e as [e|]; cbn [non_nil]; exists fo', fp; cbn;
      rewrite ?Hdl, ?Hval', ?Hi', ?(contents_eq _ _ fp Hi');
      (repeat split; auto; try congruence; try lia).
    all: try (specialize (Hfull eq_refl); lia).
  - (* Add *)
    cbn in Hcur, Hmax.
    assert (Hw : wrap64 (Downloaded (dl (world st)) + Z.of_nat (length (rdata r)))
                 = Downloaded (dl (world st)) + Z.of_nat (length (rdata r))).
    { pose proof (body_bytes_nonneg (body st)).
      apply wrap64_id. unfold in_int64, int64_min, int64_max in *. lia. }
    exists fo, fp. unfold add_downloaded.
    cbn [world set_world set_main main body reporter dl set_dl fs OutputFile ProgressFile
         set_Downloaded Downloaded].
    rewrite Hw.
    assert (Hval' : sidecar_value (set_dl (set_Downloaded
                      (Downloaded (dl (world st)) + Z.of_nat (length (rdata r)))
                      (dl (world st))) (world st)) = sidecar_value (world st))
      by (unfold sidecar_value; cbn; reflexivity).
    rewrite Hval'.
    destruct (after_chunk_cases r) as [-> | [e ->]]; cbn [to_count to_write];
      (repeat split; auto; try lia);
      destruct (reporter st); auto; lia.
  - (* Returned: remove the name on success *)
    exists fo, fp. destruct e as [e|]; cbn; rewrite ?Hm in *; cbn in *.
    + repeat split; auto.
    + unfold os.Remove.
      destruct (os.names (fs (world st)) !! ProgressPath (dl (world st))); cbn;
        repeat split; auto.
  - (* Close the progress file *)
    unfold close_progress, on_progress. rewrite Hp.
    exists fo, (os.Close fp).2. cbn. rewrite ?Hm in *. cbn in *.
    assert (Hf : os.fino (os.Close fp).2 = os.fino fp)
      by (unfold os.Close; destruct (os.fclosed fp); reflexivity).
    assert (Hc : os.fclosed (os.Close fp).2 = true)
      by (unfold os.Close; destruct (os.fclosed fp) eqn:E; [exact E | reflexivity]).
    rewrite Hf, Hc. unfold sidecar_value in *. cbn. rewrite Hp in Hval.
    unfold os.contents in *. rewrite Hf.
    repeat split; auto. discriminate.
  - (* Close the output file *)
    unfold close_output. rewrite Ho.
    assert (Hf : os.fino (os.Close fo).2 = os.fino fo
                 /\ os.fpos (os.Close fo).2 = os.fpos fo)
      by (unfold os.Close; destruct (os.fclosed fo); split; reflexivity).
    destruct Hf as [Hf Hq].
    exists (os.Close fo).2, fp. cbn. rewrite ?Hm in *. cbn in *. rewrite Hf, Hq.
    repeat split; auto.
  - exists fo, fp. rewrite Hm. repeat split; auto.
Qed.

Lemma value_of_nil : value_of [] = 0.
Proof. reflexivity. Qed.

Lemma reporter_step_sound (st : State) :
  progress_sound st -> progress_sound (reporter_step st).
Proof.
  intros (fo & fp & Ho & Hp & Hne & [nd Hnd] & Hd0 & Hcur & Hmax & Hrep & Hval & Hmid).
  unfold reporter_step. destruct (reporter st) as [| |c|c|c| |] eqn:Hr.
  - exists fo, fp. rewrite Hr. repeat split; eauto; try congruence; try lia.
  - (* the ticker fires: sample the counter *)
    cbn [dl set_dl ProgressFile set_PassedMilliSc]. rewrite Hp.
    exists fo, fp. cbn. unfold sidecar_value in *. cbn. rewrite Hp in *.
    repeat split; eauto; try congruence; try lia.
  - (* Seek(0, 0) *)
    unfold on_progress. rewrite Hp. unfold os.Seek.
    destruct (os.fclosed fp) eqn:Hc; cbn;
      [exists fo, fp | exists fo, (os.mkFile (os.fino fp) 0 false)];
      cbn; unfold sidecar_value in *; cbn; rewrite ?Hp in *;
      repeat split; eauto; try congruence; try lia.
  - (* Truncate(0) *)
    unfold on_progress. rewrite Hp. unfold os.Truncate.
    destruct (os.fclosed fp) eqn:Hc; cbn; exists fo, fp; cbn.
    + unfold sidecar_value in *. cbn. rewrite ?Hp in *.
      repeat split; eauto; try congruence; try lia.
    + unfold sidecar_value, os.contents in *. cbn. rewrite ?Hp in *.
      rewrite !list_lookup_alter_eq, Hnd. cbn.
      rewrite take_0, Nat.sub_0_l. cbn [replicate app]. rewrite value_of_nil.
      repeat split; eauto; try congruence; try lia.
  - (* WriteString *)
    unfold on_progress. rewrite Hp. unfold os.Write.
    destruct (os.fclosed fp) eqn:Hc; cbn.
    + exists fo, fp. cbn. unfold sidecar_value in *. cbn. rewrite ?Hp in *.
      repeat split; eauto; try congruence; try lia.
    + destruct (Hmid eq_refl) as [Hpos Hcont].
      eexists fo, _. cbn. split; [exact Ho|]. split; [reflexivity|]. cbn.
      unfold sidecar_value, os.contents in *. cbn. rewrite ?Hp in *.
      rewrite !list_lookup_alter_eq, Hnd in *. cbn in *.
      rewrite Hcont, Hpos, pwrite_empty.
      fold (decimal c). rewrite value_of_decimal;
        [|lia|unfold in_int64, int64_min, int64_max in *;
              pose proof (body_bytes_nonneg (body st));
              assert (0 <= to_count (main st)) by (destruct (main st); cbn; lia);
              assert (0 <= to_write (main st)) by (destruct (main st); cbn; lia); lia].
      repeat split; eauto; try congruence; try lia.
  - (* Sync *)
    unfold on_progress. rewrite Hp. unfold os.Sync.
    destruct (os.fclosed fp) eqn:Hc; cbn; exists fo, fp; cbn.
    + unfold sidecar_value in *. cbn. rewrite ?Hp in *. repeat split; eauto; try congruence; try lia.
    + unfold sidecar_value, os.contents in *. cbn. rewrite ?Hp in *.
      rewrite !list_lookup_alter_eq, Hnd in *. cbn in *.
      repeat split; eauto; try congruence; try lia.
  - exists fo, fp. rewrite Hr. repeat split; eauto; try congruence; try lia.
Qed.

Lemma step_sound (a : Actor) (st : State) : progress_sound st -> progress_sound (step a st).
Proof.
  destruct a; cbn [step].
  - apply main_step_sound.
  - apply reporter_step_sound.
  - intros H. unfold reporter_stop. destruct (reporter st) eqn:Hr; try exact H.
    destruct (stopChan st); [|exact H].
    destruct H as (fo & fp & H). exists fo, fp. cbn. rewrite Hr in H.
    repeat split; try apply H.
Qed.

Lemma baseline_value_of (s : os.FS) (p : string) (nd : os.Inode) :
  os.lookup_path s p = Some nd -> os.iperm nd = true ->
  baseline s p = value_of (os.idata nd).
Proof.
  intros Hl Hp. unfold baseline, progress_state, value_of. rewrite Hl, Hp.
  destruct (strconv.ParseInt (string_of_list_byte (os.idata nd))) as [v [e|]];
    [reflexivity|]. destruct (v <? 0); reflexivity.
Qed.

(** The loop starts with the counter at the cursor of the output file and
    the progress file not ahead of it. *)
Lemma Download_start_sound (env : Env) (w : World) :
  fs_wf (fs w) ->
  FilePath (dl w) <> ProgressPath (dl w) ->
  UseProgressFile (dl w) = true ->
  let st0 := Download_start env w in
  returned st0 = None ->
  Downloaded (dl (world st0)) + body_bytes (body st0) <= int64_max ->
  progress_sound st0 /\ out_pos (world st0) = Downloaded (dl (world st0)).
Proof.
  intros [Hrange Hinj] Hne Huse st0 Hret Hmax.
  destruct (Download_start_running env w Hret)
    as (req & w1 & resp & fo0 & s1 & fp & s2 & Hcr & _ & Hoo & Hd0 & Hop & H).
  fold st0 in H.
  destruct H as (Hm & Hr & _ & Hb & Hfs & _ & Hout & Hpf & Hdl & Hpp & Hfp & Hu).
  pose proof (CreateRequest_frame _ _ _ _ _ Hcr) as (Hfs1 & Hp1 & Hf1 & _ & Hbase).
  specialize (Hbase Huse ltac:(discriminate)).
  pose proof (OpenFile_spec _ _ _ _ Hoo) as (_ & _ & HlinkF & HcaseF).
  pose proof (OpenFile_spec _ _ _ _ Hop) as (Hpos0 & Hopen & HlinkP & HcaseP).
  rewrite Hfs1, Hp1, Hf1 in *.
  set (P := ProgressPath (dl w)) in *. set (F := FilePath (dl w)) in *.
  assert (Hrange1 : forall i, os.names s1 !! P = Some i ->
            os.names (fs w) !! P = Some i /\ (i < length (os.inodes (fs w)))%nat /\
            os.inodes s1 !! i = os.inodes (fs w) !! i).
  { intros i Hi. destruct HcaseF as [(-> & _) | (_ & _ & ->)].
    - split; [exact Hi|]. split; [eapply Hrange, Hi | reflexivity].
    - cbn in Hi |- *. rewrite lookup_insert_ne in Hi by exact Hne.
      split; [exact Hi|]. pose proof (Hrange _ _ Hi). split; [assumption|].
      now apply lookup_app_l. }
  split.
  - exists (os.mkFile (os.fino fo0) (Z.to_nat (Downloaded (dl w1))) false), fp.
    rewrite Hm, Hr, Hb, Hfs, Hdl in *. cbn [os.fino os.fpos to_count to_write].
    rewrite Z2Nat.id by exact Hd0.
    split; [exact Hout|]. split; [exact Hpf|]. split.
    { (* the two files are different inodes *)
      destruct HcaseP as [(-> & HnP & _) | (HnP & HiP & _)].
      - destruct (Hrange1 _ HnP) as (HnP0 & HltP & _).
        destruct HcaseF as [(_ & HnF & _) | (_ & HiF & _)].
        + intros Heq. rewrite Heq in HnF. apply Hne. eapply Hinj; eassumption.
        + lia.
      - destruct HcaseF as [(-> & HnF & _) | (_ & HiF & ->)].
        + pose proof (Hrange _ _ HnF). lia.
        + cbn in HiP. rewrite length_app in HiP. cbn in HiP. lia. }
    split.
    { destruct HcaseP as [(-> & _ & nd & Hnd & _) | (_ & HiP & ->)]; [eauto|].
      cbn. rewrite HiP. rewrite list_lookup_middle by reflexivity. eauto. }
    split; [exact Hd0|]. split; [lia|]. split; [lia|]. split; [exact I|].
    split; [|intros _; exact I].
    unfold sidecar_value. rewrite Hpf, Hfs. unfold os.contents.
    destruct HcaseP as [(-> & HnP & nd & Hnd & Hperm) | (_ & HiP & ->)].
    + rewrite Hnd. destruct (Hrange1 _ HnP) as (HnP0 & _ & Hsame).
      rewrite Hbase, (baseline_value_of (fs w) P nd); [lia| |exact Hperm].
      unfold os.lookup_path. rewrite HnP0, <- Hsame. exact Hnd.
    + cbn. rewrite HiP, list_lookup_middle by reflexivity. cbn.
      rewrite ?value_of_nil. exact Hd0.
  - unfold out_pos. rewrite Hout. cbn. rewrite Hdl. apply Z2Nat.id, Hd0.
Qed.

Lemma progress_sound_cursor (st : State) :
  progress_sound st ->
  sidecar_value (world st) <= Downloaded (dl (world st)) /\
  Downloaded (dl (world st)) <= out_pos (world st).
Proof.
  intros (fo & fp & Ho & _ & _ & _ & _ & Hcur & _ & _ & Hval & _).
  split; [exact Hval|]. unfold out_pos. rewrite Ho.
  assert (0 <= to_count (main st)) by (destruct (main st); cbn; lia). lia.
Qed.

(** C2 (amended).  Once the loop has started, with a file system that has
    a file per name, the progress file in use and no overflow of the
    counter: whatever the schedule of the two goroutines, at every moment,
    so after every tick, the offset held by the progress file is at most
    [Downloaded], which is at most the cursor of the output file: the offset
    at which the transfer was positioned plus the bytes its [Write] calls
    have taken.  Nothing is said of stable storage: the output file is never
    synced. *)
Theorem persisted_progress_sound (env : Env) (sched : list Actor) (w : World) :
  fs_wf (fs w) ->
  FilePath (dl w) <> ProgressPath (dl w) ->
  UseProgressFile (dl w) = true ->
  let st0 := Download_start env w in
  returned st0 = None ->
  Downloaded (dl (world st0)) + body_bytes (body st0) <= int64_max ->
  let st := Download env sched w in
  out_pos (world st0) = Downloaded (dl (world st0)) /\
  sidecar_value (world st) <= Downloaded (dl (world st)) /\
  Downloaded (dl (world st)) <= out_pos (world st).
Proof.
  intros Hwf Hne Huse st0 Hret Hmax st.
  destruct (Download_start_sound env w Hwf Hne Huse Hret Hmax) as [Hs Hpos].
  split; [exact Hpos|].
  apply progress_sound_cursor. subst st. unfold Download.
  apply (run_invariant _ step_sound), Hs.
Qed.

Lemma no_files_wf : fs_wf no_files.
Proof. split; intros *; cbn; rewrite lookup_empty; discriminate. Qed.

Lemma persisted_progress_sound_witness :
  let st := Download server_200 tick_after_first_chunk ten_bytes in
  sidecar_value (world st) <= Downloaded (dl (world st)) /\
  Downloaded (dl (world st)) <= out_pos (world st).
Proof.
  destruct (persisted_progress_sound server_200 tick_after_first_chunk ten_bytes
              no_files_wf) as (_ & H);
    [discriminate | reflexivity | reflexivity | vm_compute; discriminate |].
  exact H.
Defined.

(** C2 as stated fails on the code: after the first chunk of ten bytes is
    written and counted, a tick syncs ["10"] to the progress file, while
    nothing of the output file has been synced to stable storage. *)
Lemma persisted_ahead_of_stable_storage :
  let st := Download server_200 tick_after_first_chunk ten_bytes in
  sidecar_value (world st) = 10 /\
  out_data (world st) = list_byte_of_string "0123456789" /\
  out_durable (world st) = [] /\
  ~ (sidecar_value (world st) <= Z.of_nat (length (out_durable (world st)))).
Proof. vm_compute. repeat split. intros H. apply H. reflexivity. Qed.

(** ** [FormatEta] *)

Lemma length_append (a b : string) :
  String.length (a +:+ b) = (String.length a + String.length b)%nat.
Proof. induction a as [|c a IH]; simpl; [reflexivity | f_equal; exact IH]. Qed.

Lemma chars_append (a b : string) : chars (a +:+ b) = chars a ++ chars b.
Proof.
  unfold chars. induction a as [|c a IH]; simpl; [reflexivity | f_equal; exact IH].
Qed.

Lemma string_of_uint_length (d : Decimal.uint) :
  String.length (NilEmpty.string_of_uint d) = Decimal.nb_digits d.
Proof. induction d; cbn; congruence. Qed.

Lemma of_uint_acc_val (d : Decimal.uint) (acc : positive) :
  Z.pos (Pos.of_uint_acc d acc) = val_acc d (Z.pos acc).
Proof.
  revert acc. induction d; intros acc; cbn [Pos.of_uint_acc val_acc];
    [reflexivity | rewrite IHd; f_equal; lia ..].
Qed.

Lemma of_uint_val (d : Decimal.uint) : Z.of_uint d = val_acc d 0.
Proof.
  unfold Z.of_uint. induction d; cbn [Pos.of_uint val_acc Z.of_N]; 
    [reflexivity | exact IHd | apply of_uint_acc_val ..].
Qed.

Lemma val_acc_bounds (d : Decimal.uint) (acc : Z) :
  0 <= acc ->
  acc * 10 ^ Z.of_nat (Decimal.nb_digits d) <= val_acc d acc
    < (acc + 1) * 10 ^ Z.of_nat (Decimal.nb_digits d).
Proof.
  revert acc. induction d; intros acc Hacc; cbn [val_acc Decimal.nb_digits];
    [cbn; lia | rewrite Nat2Z.inj_succ, Z.pow_succ_r by lia;
                match goal with
                | |- context [val_acc d ?a] => specialize (IHd a ltac:(lia))
                end; nia ..].
Qed.

(** A numeral of [k] digits stands for a number below [10 ^ k]. *)
Lemma of_uint_upper (d : Decimal.uint) :
  0 <= Z.of_uint d < 10 ^ Z.of_nat (Decimal.nb_digits d).
Proof.
  rewrite of_uint_val. pose proof (val_acc_bounds d 0 ltac:(lia)). lia.
Qed.

(** The numeral of a positive number has no zero in front. *)
Lemma to_uint_lower (p : positive) :
  10 ^ (Z.of_nat (Decimal.nb_digits (Pos.to_uint p)) - 1) <= Z.pos p.
Proof.
  assert (Hv : Z.of_uint (Pos.to_uint p) = Z.pos p)
    by (unfold Z.of_uint; now rewrite DecimalPos.Unsigned.of_to).
  assert (Hn : Decimal.unorm (Pos.to_uint p) = Pos.to_uint p).
  { rewrite <- DecimalPos.Unsigned.to_of, DecimalPos.Unsigned.of_to. reflexivity. }
  rewrite of_uint_val in Hv.
  destruct (Pos.to_uint p) as [|d|d|d|d|d|d|d|d|d|d] eqn:E;
    cbn [val_acc Decimal.nb_digits] in *;
    rewrite ?Nat2Z.inj_succ;
    try (match type of Hv with
         | val_acc d ?a = _ => pose proof (val_acc_bounds d a ltac:(lia))
         end;
         replace (Z.succ (Z.of_nat (Decimal.nb_digits d)) - 1)
           with (Z.of_nat (Decimal.nb_digits d)) by lia; nia).
  - cbn. lia.
  - exfalso. pose proof (DecimalFacts.nb_digits_nzhead d) as Hle.
    unfold Decimal.unorm in Hn. cbn [Decimal.nzhead] in Hn.
    destruct (Decimal.nzhead d) eqn:Hz.
    + injection Hn as <-. cbn in Hv. lia.
    + rewrite Hn in Hle. cbn in Hle. lia.
    + rewrite Hn in Hle. cbn in Hle. lia.
    + rewrite Hn in Hle. cbn in Hle. lia.
    + rewrite Hn in Hle. cbn in Hle. lia.
    + rewrite Hn in Hle. cbn in Hle. lia.
    + rewrite Hn in Hle. cbn in Hle. lia.
    + rewrite Hn in Hle. cbn in Hle. lia.
    + rewrite Hn in Hle. cbn in Hle. lia.
    + rewrite Hn in Hle. cbn in Hle. lia.
    + rewrite Hn in Hle. cbn in Hle. lia.
Qed.

Lemma FormatInt_length (n : Z) (k : nat) :
  0 <= n -> (1 <= k)%nat ->
  (String.length (strconv.FormatInt n) <= k)%nat <-> n < 10 ^ Z.of_nat k.
Proof.
  intros Hn Hk. unfold strconv.FormatInt.
  destruct n as [|p|p]; cbn [Z.to_int NilEmpty.string_of_int]; [| |lia].
  - cbn [NilEmpty.string_of_uint String.length]. split; [|lia].
    intros _. apply Z.pow_pos_nonneg; lia.
  - rewrite string_of_uint_length.
    pose proof (of_uint_upper (Pos.to_uint p)) as Hu.
    pose proof (to_uint_lower p) as Hl.
    assert (Hv : Z.of_uint (Pos.to_uint p) = Z.pos p)
      by (unfold Z.of_uint; now rewrite DecimalPos.Unsigned.of_to).
    rewrite Hv in Hu. set (L := Decimal.nb_digits (Pos.to_uint p)) in *.
    split; intros H.
    + eapply Z.lt_le_trans; [apply Hu|]. apply Z.pow_le_mono_r; lia.
    + assert (Hlt : 10 ^ (Z.of_nat L - 1) < 10 ^ Z.of_nat k) by lia.
      apply Z.pow_lt_mono_r_iff in Hlt; lia.
Qed.

Lemma FormatInt_digits (n : Z) :
  0 <= n ->
  exists d : Decimal.uint,
    strconv.FormatInt n = NilEmpty.string_of_uint d /\
    d <> Decimal.Nil /\ Z.of_uint d = n.
Proof.
  intros Hn. unfold strconv.FormatInt.
  destruct n as [|p|p]; cbn [Z.to_int NilEmpty.string_of_int]; [| |lia].
  - exists (Decimal.D0 Decimal.Nil). repeat split. discriminate.
  - exists (Pos.to_uint p). repeat split.
    + apply DecimalPos.Unsigned.to_uint_nonnil.
    + unfold Z.of_uint. now rewrite DecimalPos.Unsigned.of_to.
Qed.

Lemma digits_no_minus (d : Decimal.uint) :
  ~ In "-"%char (chars (NilEmpty.string_of_uint d)).
Proof.
  unfold chars. induction d; cbn; [tauto | intros [H|H]; [discriminate H | tauto] ..].
Qed.

(** What [%02d] gives for a number that is not negative. *)
Lemma Sprintf_02d_nonneg (n : Z) :
  0 <= n ->
  (2 <= String.length (fmt.Sprintf_02d n))%nat /\
  (String.length (fmt.Sprintf_02d n) = 2%nat <-> n < 100) /\
  ~ In "-"%char (chars (fmt.Sprintf_02d n)) /\
  (n <= int64_max -> strconv.ParseInt (fmt.Sprintf_02d n) = (n, None)).
Proof.
  intros Hn. unfold fmt.Sprintf_02d.
  destruct (Z.ltb_spec n 0) as [|_]; [lia|]. rewrite Z.abs_eq by exact Hn.
  destruct (FormatInt_digits n Hn) as (d & Hd & Hnil & Hv).
  pose proof (FormatInt_length n 1 Hn ltac:(lia)) as H1.
  pose proof (FormatInt_length n 2 Hn ltac:(lia)) as H2.
  assert (Hpos : (1 <= String.length (strconv.FormatInt n))%nat).
  { rewrite Hd, string_of_uint_length. destruct d; cbn; try lia. congruence. }
  change (10 ^ Z.of_nat 1) with 10 in H1. change (10 ^ Z.of_nat 2) with 100 in H2.
  destruct (Nat.ltb_spec (String.length (strconv.FormatInt n)) 2) as [Hlt|Hge].
  - assert (Hn10 : n < 10) by (apply H1; lia).
    change ("0" +:+ strconv.FormatInt n) with (String "0" (strconv.FormatInt n)).
    cbn [String.length]. split; [lia|]. split; [split; lia|]. split.
    + unfold chars. cbn [list_ascii_of_string]. intros [H|H]; [discriminate H|].
      rewrite Hd in H. exact (digits_no_minus d H).
    + intros Hmax. rewrite Hd. unfold strconv.ParseInt. cbn [Ascii.eqb Bool.eqb].
      change (NilEmpty.uint_of_string (String "0" (NilEmpty.string_of_uint d)))
        with (match NilEmpty.uint_of_string (NilEmpty.string_of_uint d) with
              | Some d => Some (Decimal.D0 d) | None => None end).
      rewrite NilEmpty.usu.
      change (Z.of_uint (Decimal.D0 d)) with (Z.of_uint d). rewrite Hv.
      destruct (Z.ltb_spec n (2 ^ 63)); [reflexivity | lia].
  - split; [lia|]. split; [split; intros H; [apply H2; lia | apply H2 in H; lia]|].
    split.
    + rewrite Hd. apply digits_no_minus.
    + intros Hmax. rewrite Hd, ParseInt_digits; [now rewrite Hv | exact Hnil |].
      rewrite Hv. unfold int64_max in Hmax. lia.
Qed.

Lemma Sprintf_02d_neg (n : Z) :
  n < 0 -> In "-"%char (chars (fmt.Sprintf_02d n)).
Proof.
  intros Hn. unfold fmt.Sprintf_02d. destruct (Z.ltb_spec n 0); [|lia].
  left. reflexivity.
Qed.

(** The three fields of [FormatEta]. *)
Lemma eta_fields (secs : Z) :
  0 <= secs ->
  let h := Z.quot secs 3600 in
  let m := Z.quot (Z.rem secs 3600) 60 in
  let s := Z.rem secs 60 in
  0 <= h <= secs /\ 0 <= m < 60 /\ 0 <= s < 60 /\ 3600 * h + 60 * m + s = secs /\
  (h < 100 <-> secs < 360000).
Proof.
  intros Hs h m s. subst h m s.
  rewrite !Z.quot_div_nonneg, !Z.rem_mod_nonneg; try lia.
  - split; [|split; [|split; [|split]]]; Z.to_euclidean_division_equations; lia.
  - apply Z.rem_bound_pos; lia.
Qed.

(** X1.  For a number of seconds that is not negative, [FormatEta] gives
    three fields separated by colons; minutes and seconds are two characters
    each and below 60, hours are two characters or more; read back with
    [strconv.ParseInt], the fields are the hours, minutes and seconds that add
    up to the number given. *)
Theorem FormatEta_fields (secs : Z) :
  0 <= secs <= int64_max ->
  exists hh mm ss h m s,
    FormatEta secs = hh +:+ ":" +:+ mm +:+ ":" +:+ ss /\
    (2 <= String.length hh)%nat /\ String.length mm = 2%nat /\ String.length ss = 2%nat /\
    strconv.ParseInt hh = (h, None) /\
    strconv.ParseInt mm = (m, None) /\
    strconv.ParseInt ss = (s, None) /\
    0 <= h /\ 0 <= m < 60 /\ 0 <= s < 60 /\
    3600 * h + 60 * m + s = secs.
Proof.
  intros [H0 Hmax]. destruct (eta_fields secs H0) as (Hh & Hm & Hs & Hsum & _).
  unfold FormatEta.
  set (h := Z.quot secs 3600) in *. set (m := Z.quot (Z.rem secs 3600) 60) in *.
  set (s := Z.rem secs 60) in *.
  destruct (Sprintf_02d_nonneg h ltac:(lia)) as (Hlh & _ & _ & Hph).
  destruct (Sprintf_02d_nonneg m ltac:(lia)) as (_ & Hlm & _ & Hpm).
  destruct (Sprintf_02d_nonneg s ltac:(lia)) as (_ & Hls & _ & Hps).
  unfold int64_max in *.
  exists (fmt.Sprintf_02d h), (fmt.Sprintf_02d m), (fmt.Sprintf_02d s), h, m, s.
  split; [reflexivity|]. split; [exact Hlh|].
  split; [apply Hlm; lia|]. split; [apply Hls; lia|].
  split; [apply Hph; lia|]. split; [apply Hpm; lia|]. split; [apply Hps; lia|].
  lia.
Qed.

Lemma FormatEta_fields_witness :
  exists hh mm ss h m s,
    FormatEta 3725 = hh +:+ ":" +:+ mm +:+ ":" +:+ ss /\
    (2 <= String.length hh)%nat /\ String.length mm = 2%nat /\ String.length ss = 2%nat /\
    strconv.ParseInt hh = (h, None) /\
    strconv.ParseInt mm = (m, None) /\
    strconv.ParseInt ss = (s, None) /\
    0 <= h /\ 0 <= m < 60 /\ 0 <= s < 60 /\
    3600 * h + 60 * m + s = 3725.
Proof. apply (FormatEta_fields 3725). unfold int64_max. lia. Defined.

(** X2.  For a number of seconds that is not negative, the result of
    [FormatEta] is never shorter than the eight characters of [HH:MM:SS], and
    it is exactly that long as long as the number stays below a hundred
    hours; from there on the hours take more room. *)
Theorem FormatEta_width (secs : Z) :
  0 <= secs ->
  (8 <= String.length (FormatEta secs))%nat /\
  (String.length (FormatEta secs) = 8%nat <-> secs < 360000).
Proof.
  intros H0. destruct (eta_fields secs H0) as (Hh & Hm & Hs & _ & Hiff).
  unfold FormatEta.
  set (h := Z.quot secs 3600) in *. set (m := Z.quot (Z.rem secs 3600) 60) in *.
  set (s := Z.rem secs 60) in *.
  destruct (Sprintf_02d_nonneg h ltac:(lia)) as (Hlh & Hl2 & _).
  destruct (Sprintf_02d_nonneg m ltac:(lia)) as (_ & Hlm & _).
  destruct (Sprintf_02d_nonneg s ltac:(lia)) as (_ & Hls & _).
  rewrite !length_append. cbn [String.length].
  assert (Em : String.length (fmt.Sprintf_02d m) = 2%nat) by (apply Hlm; lia).
  assert (Es : String.length (fmt.Sprintf_02d s) = 2%nat) by (apply Hls; lia).
  rewrite Em, Es. split; [lia|]. rewrite <- Hiff, <- Hl2. lia.
Qed.

Lemma FormatEta_width_witness :
  String.length (FormatEta 359999) = 8%nat /\ String.length (FormatEta 360000) <> 8%nat.
Proof.
  split.
  - apply (FormatEta_width 359999); lia.
  - intros H. apply (FormatEta_width 360000) in H; lia.
Defined.

(** X3.  A minus sign shows up in the result of [FormatEta] exactly when
    the number of seconds is negative: each field is formatted on its own,
    and a field that is negative carries its own sign. *)
Theorem FormatEta_minus_sign (secs : Z) :
  In "-"%char (chars (FormatEta secs)) <-> secs < 0.
Proof.
  unfold FormatEta.
  set (h := Z.quot secs 3600). set (m := Z.quot (Z.rem secs 3600) 60).
  set (s := Z.rem secs 60).
  rewrite !chars_append, !in_app_iff.
  assert (Hc : ~ In "-"%char (chars ":")) by (cbn; intros [H|[]]; discriminate H).
  destruct (Z.lt_ge_cases secs 0) as [Hneg|Hpos].
  - split; [intros _; exact Hneg|]. intros _.
    assert (Hs : h < 0 \/ m < 0 \/ s < 0).
    { subst h m s. Z.to_euclidean_division_equations. lia. }
    destruct Hs as [Hs|[Hs|Hs]]; apply Sprintf_02d_neg in Hs; tauto.
  - destruct (eta_fields secs Hpos) as (Hh & Hm & Hs & _).
    fold h m s in Hh, Hm, Hs.
    destruct (Sprintf_02d_nonneg h ltac:(lia)) as (_ & _ & Nh & _).
    destruct (Sprintf_02d_nonneg m ltac:(lia)) as (_ & _ & Nm & _).
    destruct (Sprintf_02d_nonneg s ltac:(lia)) as (_ & _ & Ns & _).
    split; [|lia]. tauto.
Qed.
(** ** The rate-limited loop against the plain one *)

Lemma write_output_keeps (data : list byte) (w : World) :
  clock (write_output data w).2 = clock w /\
  Downloaded (dl (write_output data w).2) = Downloaded (dl w).
Proof.
  unfold write_output. destruct (OutputFile (dl w)) as [f|]; [|split; reflexivity].
  destruct (os.Write (fs w) f data (default None (head (faults w)))) as [[[n e] f'] s'].
  split; reflexivity.
Qed.

(** The sleeps of the rate-limited loop only add to the clock. *)
Lemma limit_loop_clock (body : list ReadResult) (startTime totalBytes maxSpeedBytes : Z)
    (w w0 : World) :
  same_but_clock w w0 -> clock w0 <= clock w ->
  clock (DownloadChunks body w0).2
    <= clock (limit_loop startTime totalBytes maxSpeedBytes body w).2.
Proof.
  revert totalBytes w w0. induction body as [|r body IH]; intros totalBytes w w0 Hs Hc.
  - exact Hc.
  - cbn [limit_loop DownloadChunks].
    pose proof (same_but_clock_pass_time w w0 (rtime r) (rtime r) Hs) as Hs1.
    assert (Hc1 : clock (pass_time (rtime r) w0) <= clock (pass_time (rtime r) w))
      by (cbn; lia).
    destruct (0 <? Z.of_nat (length (rdata r))).
    + destruct (write_output_clock (rdata r) _ _ Hs1) as [He Hw].
      pose proof (write_output_keeps (rdata r) (pass_time (rtime r) w)) as [Hk _].
      pose proof (write_output_keeps (rdata r) (pass_time (rtime r) w0)) as [Hk0 _].
      destruct (write_output (rdata r) (pass_time (rtime r) w)) as [e1 w1].
      destruct (write_output (rdata r) (pass_time (rtime r) w0)) as [e2 w2].
      cbn [fst snd] in He, Hw, Hk, Hk0. subst e2.
      destruct e1 as [e|]; cbn [non_nil snd]; [lia|].
      pose proof (same_but_clock_add _ _ (Z.of_nat (length (rdata r))) Hw) as Ha.
      assert (Hca : clock (add_downloaded (Z.of_nat (length (rdata r))) w2)
                    <= clock (add_downloaded (Z.of_nat (length (rdata r))) w1))
        by (cbn; lia).
      match goal with
      | |- context [if ?c then _ else _] => destruct c eqn:Hsl
      end.
      * apply Z.ltb_lt in Hsl.
        destruct (rerr r) as [e|]; [destruct (is_EOF e); cbn in *; lia|].
        apply IH; [exact Ha | cbn in *; lia].
      * destruct (rerr r) as [e|]; [destruct (is_EOF e); exact Hca|].
        apply IH; [exact Ha | exact Hca].
    + destruct (rerr r) as [e|]; [destruct (is_EOF e); exact Hc1|].
      apply IH; [exact Hs1 | exact Hc1].
Qed.

(** X4.  Rate limiting only delays: whatever the cap, the body and the
    device, [DownloadChunksWithLimit] returns what [DownloadChunks] returns
    and leaves the same downloader, the same files and the same fault script
    behind; the two differ by the clock only, which is never earlier under
    the limit. *)
Theorem DownloadChunksWithLimit_only_delays (body : list ReadResult) (maxSpeedBytes : Z)
    (w : World) :
  let limited := DownloadChunksWithLimit body maxSpeedBytes w in
  let plain := DownloadChunks body w in
  limited.1 = plain.1 /\
  dl limited.2 = dl plain.2 /\
  fs limited.2 = fs plain.2 /\
  faults limited.2 = faults plain.2 /\
  clock plain.2 <= clock limited.2.
Proof.
  intros limited plain. subst limited plain. unfold DownloadChunksWithLimit.
  destruct (limit_loop_DownloadChunks body (clock w) 0 maxSpeedBytes w w)
    as (Hres & Hdl & Hfs & Hfl); [repeat split|].
  repeat split; try assumption.
  apply limit_loop_clock; [repeat split | lia].
Qed.

(** The rate-limited loop keeps the clock at or past the whole seconds its
    byte count asks for. *)
Lemma limit_loop_rate (body : list ReadResult) (startTime totalBytes maxSpeedBytes : Z)
    (w : World) :
  0 < maxSpeedBytes ->
  Forall (fun r => 0 <= rtime r) body ->
  0 <= totalBytes ->
  totalBytes + body_bytes body <= int64_max ->
  Z.quot (totalBytes + body_bytes body) maxSpeedBytes * time.Second <= int64_max ->
  in_int64 (Downloaded (dl w)) ->
  Downloaded (dl w) + body_bytes body <= int64_max ->
  Z.quot totalBytes maxSpeedBytes * time.Second <= clock w - startTime ->
  let w' := (limit_loop startTime totalBytes maxSpeedBytes body w).2 in
  let n := Downloaded (dl w') - Downloaded (dl w) in
  0 <= n <= body_bytes body /\
  Z.quot (totalBytes + n) maxSpeedBytes * time.Second <= clock w' - startTime.
Proof.
  intros Hmax. revert totalBytes w.
  induction body as [|r body IH]; intros totalBytes w Ht Htb Htot Hexp Hd Hov Hinv w' n.
  - subst n w'. cbn. rewrite Z.sub_diag, Z.add_0_r. unfold body_bytes. cbn. lia.
  - inversion Ht as [|? ? Hr Hbody]; subst.
    rewrite body_bytes_cons in Htot, Hexp, Hov |- *.
    pose proof (body_bytes_nonneg body) as Hbb.
    set (len := Z.of_nat (length (rdata r))) in *.
    assert (Hlen : 0 <= len) by (subst len; lia).
    assert (Hmono : forall a b, 0 <= a <= b ->
              0 <= Z.quot a maxSpeedBytes * time.Second
                <= Z.quot b maxSpeedBytes * time.Second).
    { intros a b Hab. unfold time.Second.
      pose proof (Z.quot_le_mono a b maxSpeedBytes Hmax ltac:(lia)).
      pose proof (Z.quot_pos a maxSpeedBytes ltac:(lia) Hmax). lia. }
    subst n w'. cbn [limit_loop]. fold len.
    destruct (Z.ltb_spec 0 len) as [Hpos|Hzero].
    + pose proof (write_output_keeps (rdata r) (pass_time (rtime r) w)) as [Hk Hkd].
      destruct (write_output (rdata r) (pass_time (rtime r) w)) as [e1 w1].
      cbn [snd] in Hk, Hkd. cbn [pass_time set_clock clock dl] in Hk, Hkd.
      destruct e1 as [e|]; cbn [non_nil snd].
      { rewrite Hkd, Z.sub_diag, Z.add_0_r, Hk. lia. }
      assert (Hw64 : wrap64 (totalBytes + len) = totalBytes + len).
      { apply wrap64_id. unfold in_int64, int64_min, int64_max in *. lia. }
      assert (Hd64 : wrap64 (Downloaded (dl w1) + len) = Downloaded (dl w1) + len).
      { apply wrap64_id. rewrite Hkd. unfold in_int64, int64_min, int64_max in *. lia. }
      rewrite Hw64. unfold time.DurationOfQuotient.
      pose proof (Hmono (totalBytes + len) (totalBytes + (len + body_bytes body))
                    ltac:(lia)) as Hq.
      assert (He64 : wrap64 (Z.quot (totalBytes + len) maxSpeedBytes * time.Second)
                     = Z.quot (totalBytes + len) maxSpeedBytes * time.Second).
      { apply wrap64_id. unfold in_int64, int64_min. lia. }
      rewrite He64.
      set (w2 := add_downloaded len w1).
      assert (Hd2 : Downloaded (dl w2) = Downloaded (dl w) + len).
      { subst w2. cbn. rewrite Hd64, Hkd. reflexivity. }
      assert (Hc2 : clock w2 = clock w + rtime r) by (subst w2; cbn; exact Hk).
      set (expected := Z.quot (totalBytes + len) maxSpeedBytes * time.Second) in *.
      set (w3 := if 0 <? expected - (clock w2 - startTime)
                 then pass_time (expected - (clock w2 - startTime)) w2 else w2).
      assert (Hd3 : Downloaded (dl w3) = Downloaded (dl w) + len).
      { subst w3. destruct (0 <? _); exact Hd2. }
      assert (Hc3 : expected <= clock w3 - startTime /\ clock w2 <= clock w3).
      { subst w3. destruct (Z.ltb_spec 0 (expected - (clock w2 - startTime))); cbn; lia. }
      replace (if 0 <? expected - (clock w2 - startTime)
               then (@None error, totalBytes + len,
                     pass_time (expected - (clock w2 - startTime)) w2)
               else (None, totalBytes + len, w2))
        with (@None error, totalBytes + len, w3)
        by (subst w3; destruct (0 <? _); reflexivity).
      destruct (rerr r) as [e|].
      { assert (Hres : (if is_EOF e then (@None error, w3) else (Some e, w3)).2 = w3)
          by (destruct (is_EOF e); reflexivity).
        rewrite Hres, Hd3.
        replace (Downloaded (dl w) + len - Downloaded (dl w)) with len by lia. lia. }
      specialize (IH (totalBytes + len) w3 Hbody ltac:(lia)).
      rewrite Hd3 in IH. rewrite Z.add_assoc in Hexp.
      specialize (IH ltac:(lia) ltac:(lia)
                     ltac:(unfold in_int64, int64_min, int64_max in *; lia)
                     ltac:(lia) ltac:(lia)).
      cbn zeta in IH. destruct IH as [IHn IHc].
      set (wf := (limit_loop startTime (totalBytes + len) maxSpeedBytes body w3).2) in *.
      split; [lia|].
      replace (totalBytes + (Downloaded (dl wf) - Downloaded (dl w)))
        with (totalBytes + len + (Downloaded (dl wf) - (Downloaded (dl w) + len))) by lia.
      exact IHc.
    + assert (Hl0 : len = 0) by lia.
      set (w1 := pass_time (rtime r) w).
      destruct (rerr r) as [e|].
      { assert (Hres : (if is_EOF e then (@None error, w1) else (Some e, w1)).2 = w1)
          by (destruct (is_EOF e); reflexivity).
        rewrite Hres. subst w1. cbn. rewrite Z.sub_diag, Z.add_0_r. lia. }
      specialize (IH totalBytes w1 Hbody Htb).
      rewrite Hl0, Z.add_0_l in Hexp, Htot.
      specialize (IH Htot Hexp Hd ltac:(subst w1; cbn; lia) ltac:(subst w1; cbn; lia)).
      cbn zeta in IH. subst w1. cbn [pass_time set_clock dl] in IH |- *.
      destruct IH as [IHn IHc]. split; [lia | exact IHc].
Qed.

(** X5.  What the limiter does guarantee.  With a positive cap, reads that
    take no negative time, and byte counts in the range where the loop's
    arithmetic is exact, the bytes [DownloadChunksWithLimit] has counted when
    it returns (for whatever reason) stay below the cap times the whole
    seconds elapsed plus one: the loop has slept up to the last whole second
    its byte count asks for. *)
Theorem DownloadChunksWithLimit_rate (body : list ReadResult) (maxSpeedBytes : Z)
    (w : World) :
  0 < maxSpeedBytes < 2 ^ 53 ->
  body_bytes body < 2 ^ 53 ->
  Z.quot (body_bytes body) maxSpeedBytes * time.Second <= int64_max ->
  Forall (fun r => 0 <= rtime r) body ->
  in_int64 (Downloaded (dl w)) ->
  Downloaded (dl w) + body_bytes body <= int64_max ->
  let w' := (DownloadChunksWithLimit body maxSpeedBytes w).2 in
  let n := Downloaded (dl w') - Downloaded (dl w) in
  let elapsed := clock w' - clock w in
  0 <= n <= body_bytes body /\
  Z.quot n maxSpeedBytes * time.Second <= elapsed /\
  n * time.Second < maxSpeedBytes * (elapsed + time.Second).
Proof.
  intros [Hmax _] Hbig Hexp Ht Hd Hov w' n elapsed.
  destruct (limit_loop_rate body (clock w) 0 maxSpeedBytes w Hmax Ht ltac:(lia))
    as [Hn Hc]; try assumption.
  { unfold int64_max. lia. }
  { rewrite Z.quot_0_l by lia. lia. }
  fold (DownloadChunksWithLimit body maxSpeedBytes w) in Hn, Hc. fold w' in Hn, Hc.
  fold n in Hn, Hc. rewrite Z.add_0_l in Hc. fold elapsed in Hc.
  split; [exact Hn|]. split; [exact Hc|].
  pose proof (Z.mul_succ_quot_gt n maxSpeedBytes ltac:(lia) Hmax) as Hq.
  unfold time.Second in *. nia.
Qed.

Lemma DownloadChunksWithLimit_rate_witness :
  let w := streaming_world [] in
  let w' := (DownloadChunksWithLimit burst_body 8 w).2 in
  Downloaded (dl w') - Downloaded (dl w) = 80 /\
  80 * time.Second < 8 * (clock w' - clock w + time.Second).
Proof.
  destruct (DownloadChunksWithLimit_rate burst_body 8 (streaming_world []))
    as (_ & _ & H);
    [lia | vm_compute; reflexivity | vm_compute; discriminate
    | repeat constructor; vm_compute; discriminate
    | vm_compute; split; discriminate | vm_compute; discriminate |].
  split; [vm_compute; reflexivity|]. exact H.
Defined.
(** ** What [ReadProgress] accepts *)

(** X6.  [ReadProgress] resumes from a positive offset only when the
    progress file is there, readable, and holds nothing but decimal digits
    after an optional plus sign; the digits are the numeral of the offset.  A
    file with anything else in it, a space or a final newline say, starts the
    transfer from 0. *)
Theorem ReadProgress_only_numerals (w : World) :
  0 < Downloaded (dl (ReadProgress w)) ->
  exists (nd : os.Inode) (d : Decimal.uint),
    os.lookup_path (fs w) (ProgressPath (dl w)) = Some nd /\
    os.iperm nd = true /\
    (string_of_list_byte (os.idata nd) = NilEmpty.string_of_uint d \/
     string_of_list_byte (os.idata nd) = String "+" (NilEmpty.string_of_uint d)) /\
    Z.of_uint d = Downloaded (dl (ReadProgress w)).
Proof.
  unfold ReadProgress, os.ReadFile.
  destruct (os.lookup_path (fs w) (ProgressPath (dl w))) as [nd|]; [|cbn; lia].
  destruct (os.iperm nd) eqn:Hperm; [|cbn; lia]. cbn [non_nil].
  destruct (strconv.ParseInt (string_of_list_byte (os.idata nd))) as [v [e|]] eqn:Hp;
    cbn [non_nil orb]; [cbn; lia|].
  destruct (Z.ltb_spec v 0) as [Hneg|Hpos]; [cbn; lia|]. cbn. intros Hv.
  unfold strconv.ParseInt in Hp.
  destruct (string_of_list_byte (os.idata nd)) as [|c rest] eqn:Hs; [discriminate Hp|].
  assert (Hdigits : forall digits u,
            NilEmpty.uint_of_string digits = Some u -> Z.of_uint u = v ->
            exists d, digits = NilEmpty.string_of_uint d /\ Z.of_uint d = v).
  { intros digits u Hu Hz. exists u. split; [|exact Hz].
    symmetry. apply NilEmpty.sus. exact Hu. }
  destruct (Ascii.eqb c "+") eqn:Hplus.
  - apply Ascii.eqb_eq in Hplus. subst c.
    destruct (NilEmpty.uint_of_string rest) as [u|] eqn:Hu; [|discriminate Hp].
    assert (Hz : Z.of_uint u = v).
    { destruct u; try discriminate Hp; cbv beta iota zeta in Hp;
        (destruct (Z.of_uint _ <? 2 ^ 63);
         [injection Hp as <-; reflexivity | discriminate Hp]). }
    destruct (Hdigits rest u Hu Hz) as (d & -> & Hd).
    exists nd, d. repeat split; auto.
  - destruct (Ascii.eqb c "-") eqn:Hminus.
    + exfalso. destruct (NilEmpty.uint_of_string rest) as [u|]; [|discriminate Hp].
      destruct u; try discriminate Hp; cbv beta iota zeta in Hp;
        (match type of Hp with
         | context [Z.of_uint ?x <=? _] =>
             pose proof (of_uint_upper x) as [Hu0 _];
             destruct (Z.of_uint x <=? 2 ^ 63);
             [injection Hp as <-; lia | discriminate Hp]
         end).
    + destruct (NilEmpty.uint_of_string (String c rest)) as [u|] eqn:Hu; [|discriminate Hp].
      assert (Hz : Z.of_uint u = v).
      { destruct u; try discriminate Hp; cbv beta iota zeta in Hp;
          (destruct (Z.of_uint _ <? 2 ^ 63);
           [injection Hp as <-; reflexivity | discriminate Hp]). }
      destruct (Hdigits (String c rest) u Hu Hz) as (d & Hd1 & Hd).
      exists nd, d. rewrite Hs. repeat split; auto.
Qed.

Lemma ReadProgress_only_numerals_witness :
  exists (nd : os.Inode) (d : Decimal.uint),
    os.lookup_path (one_file "f.progress" "4096") "f.progress" = Some nd /\
    os.iperm nd = true /\
    (string_of_list_byte (os.idata nd) = NilEmpty.string_of_uint d \/
     string_of_list_byte (os.idata nd) = String "+" (NilEmpty.string_of_uint d)) /\
    Z.of_uint d = 4096.
Proof.
  apply (ReadProgress_only_numerals (fresh_world (one_file "f.progress" "4096"))).
  vm_compute. reflexivity.
Defined.

(** ** A malformed [Content-Length] *)

(** The four ways [strconv.ParseInt] can end. *)
Lemma ParseInt_cases (s : string) :
  strconv.ParseInt s = (0, Some strconv_ErrSyntax) \/
  strconv.ParseInt s = (int64_min, Some strconv_ErrRange) \/
  strconv.ParseInt s = (int64_max, Some strconv_ErrRange) \/
  exists z, strconv.ParseInt s = (z, None).
Proof.
  unfold strconv.ParseInt. destruct s as [|c rest]; [auto|].
  destruct (if Ascii.eqb c "+" then (false, rest)
            else if Ascii.eqb c "-" then (true, rest) else (false, String c rest))
    as [neg digits].
  destruct (NilEmpty.uint_of_string digits) as [u|]; [|auto].
  destruct u; [auto | cbv beta iota zeta ..];
    (destruct neg;
     [destruct (Z.of_uint _ <=? 2 ^ 63) | destruct (Z.of_uint _ <? 2 ^ 63)]; eauto 6).
Qed.

Lemma CreateRequest_handles (env : Env) (w w' : World) (req : option Request)
    (err : option error) :
  CreateRequest env w = (req, err, w') ->
  OutputFile (dl w') = OutputFile (dl w) /\ ProgressFile (dl w') = ProgressFile (dl w).
Proof.
  unfold CreateRequest. destruct (NewRequest env (Url (dl w))) as [[r|] [e|]];
    try (intros [= <- <- <-]; split; reflexivity).
  pose proof (ReadProgress_frame w) as (_ & _ & _ & _ & _ & _ & Ho & Hp & _).
  destruct (UseProgressFile (dl w)).
  - destruct (0 <? Downloaded (dl (ReadProgress w)));
      intros [= <- <- <-]; split; assumption.
  - intros [= <- <- <-]. split; reflexivity.
Qed.

(** X7.  When the answer passes the status checks and carries a
    [Content-Length] that [strconv.ParseInt] rejects (not a numeral, or out
    of the range of [int64]), [Download] returns that error of [strconv]; it
    has then opened no file and changed nothing in the file system. *)
Theorem Download_bad_content_length (env : Env) (sched : list Actor) (w w1 : World)
    (req : Request) (resp : Response) (v : Z) (e : error) :
  CreateRequest env w = (Some req, None, w1) ->
  Do env req = inl resp ->
  StatusCode resp = StatusPartialContent \/
    (StatusCode resp = StatusOK /\ Downloaded (dl w1) <= 0) ->
  Get (RespHeader resp) "Content-Length" <> EmptyString ->
  strconv.ParseInt (Get (RespHeader resp) "Content-Length") = (v, Some e) ->
  let st := Download env sched w in
  returned st = Some (Some e) /\
  (e = strconv_ErrSyntax \/ e = strconv_ErrRange) /\
  fs (world st) = fs w /\
  OutputFile (dl (world st)) = OutputFile (dl w) /\
  ProgressFile (dl (world st)) = ProgressFile (dl w) /\
  reporter st = RNotStarted.
Proof.
  intros Hcr Hdo Hstatus Hne Hparse st.
  pose proof (CreateRequest_frame _ _ _ _ _ Hcr) as Hfr.
  assert (Hst : st = exit (Some e) w1).
  { subst st. unfold Download, Download_start. rewrite Hcr, Hdo.
    assert (Hs1 : negb (StatusCode resp =? StatusOK)
                  && negb (StatusCode resp =? StatusPartialContent) = false).
    { destruct Hstatus as [-> | [-> _]]; reflexivity. }
    assert (Hs2 : (0 <? Downloaded (dl w1))
                  && negb (StatusCode resp =? StatusPartialContent) = false).
    { destruct Hstatus as [-> | [-> Hd]].
      - apply andb_false_r.
      - destruct (Z.ltb_spec 0 (Downloaded (dl w1))); [lia | reflexivity]. }
    rewrite Hs1, Hs2.
    destruct (String.eqb_spec (Get (RespHeader resp) "Content-Length") EmptyString)
      as [Heq|_]; [contradiction|].
    rewrite Hparse. cbn [non_nil]. apply run_exit. }
  rewrite Hst. cbn [exit returned main world reporter].
  split; [reflexivity|]. split.
  { destruct (ParseInt_cases (Get (RespHeader resp) "Content-Length"))
      as [H | [H | [H | [z H]]]]; rewrite H in Hparse; inversion Hparse; auto. }
  destruct Hfr as (Hfs & _).
  destruct (CreateRequest_handles _ _ _ _ _ Hcr) as [Hof Hpf].
  repeat split; auto.
Qed.

Lemma Download_bad_content_length_witness :
  returned (Download server_bad_length [Main] (fresh_world no_files))
    = Some (Some strconv_ErrSyntax).
Proof.
  refine (proj1 (Download_bad_content_length server_bad_length [Main]
                   (fresh_world no_files) _ _ _ 0 strconv_ErrSyntax _ _ _ _ _));
    [reflexivity | reflexivity | right; split; [reflexivity | vm_compute; discriminate]
    | discriminate | reflexivity].
Defined.

(** ** From a tick to the next run *)

(** X8.  What a whole tick has put in the progress file, [ReadProgress]
    reads back: with the progress file open under its name and the counter
    not negative, any later [ReadProgress] on the file system the tick leaves
    behind sets both [Downloaded] and [ResumedAt] to the value the counter
    had when the tick began. *)
Theorem tick_then_ReadProgress (st : State) (f : os.File) (nd : os.Inode) (w2 : World) :
  reporter st = RSelect ->
  ProgressFile (dl (world st)) = Some f -> os.fclosed f = false ->
  os.names (fs (world st)) !! ProgressPath (dl (world st)) = Some (os.fino f) ->
  os.inodes (fs (world st)) !! os.fino f = Some nd -> os.iperm nd = true ->
  0 <= Downloaded (dl (world st)) <= int64_max ->
  fs w2 = fs (world (run tick st)) ->
  ProgressPath (dl w2) = ProgressPath (dl (world st)) ->
  Downloaded (dl (ReadProgress w2)) = Downloaded (dl (world st)) /\
  ResumedAt (dl (ReadProgress w2)) = Downloaded (dl (world st)).
Proof.
  intros Hr Hpf Hopen Hname Hnd Hperm Hrange Hfs Hpath.
  destruct st as [[d s fl t] b sc m r]. destruct f as [ino pos cl].
  destruct d as [u fp pp up dn ts ra pm fo pf bs].
  cbn [reporter world main body dl fs ProgressFile ProgressPath os.fclosed os.fino
       Downloaded] in *.
  subst r pf cl.
  assert (Hfile : os.ReadFile (fs w2) pp = (decimal dn, None)).
  { rewrite Hfs. unfold tick, run, decimal, os.ReadFile, os.lookup_path.
    cbn -[os.pwrite list_byte_of_string wrap64].
    rewrite Hname, !list_lookup_alter_eq, Hnd.
    cbn -[os.pwrite list_byte_of_string wrap64]. rewrite Hperm, pwrite_empty.
    reflexivity. }
  unfold ReadProgress. rewrite Hpath, Hfile. cbn [non_nil]. unfold decimal.
  rewrite string_of_list_byte_of_string, ParseInt_FormatInt
    by (unfold in_int64, int64_min, int64_max in *; lia).
  cbn [non_nil orb]. destruct (Z.ltb_spec dn 0); [lia|]. split; reflexivity.
Qed.

Lemma tick_then_ReadProgress_witness :
  let w2 := fresh_world (fs (world (run tick ticking_state))) in
  Downloaded (dl (ReadProgress w2)) = 500 /\ ResumedAt (dl (ReadProgress w2)) = 500.
Proof.
  intros w2.
  apply (tick_then_ReadProgress ticking_state (os.mkFile 0 7 false)
           (os.mkInode (list_byte_of_string "5000000") [] true) w2);
    try reflexivity.
  vm_compute. split; discriminate.
Defined.
(** ** One action of either goroutine, seen from the file system *)

Lemma alter_effect (g : os.Inode -> os.Inode) (j : nat) (l : list os.Inode) :
  (forall nd, os.iperm (g nd) = os.iperm nd) ->
  length (alter g j l) = length l /\
  (forall i, i <> j -> alter g j l !! i = l !! i) /\
  (forall i, os.iperm <$> alter g j l !! i = os.iperm <$> l !! i).
Proof.
  intros Hg. split; [apply length_alter|]. split.
  - intros i Hi. apply list_lookup_alter_ne. congruence.
  - intros i. destruct (decide (i = j)) as [->|Hne].
    + rewrite list_lookup_alter_eq. destruct (l !! j); cbn; [now rewrite Hg | reflexivity].
    + rewrite list_lookup_alter_ne by congruence. reflexivity.
Qed.

Lemma step_keeps_refl (a : Actor) (st : State) (fo fp : os.File) :
  handles st fo fp -> step_keeps a st st fo fp.
Proof.
  intros H. exists fo, fp. repeat split; auto; apply H.
Qed.

Lemma main_step_keeps (st : State) (fo fp : os.File) :
  handles st fo fp -> step_keeps Main st (main_step st) fo fp.
Proof.
  intros (Ho & Hp & Hne).
  destruct st as [[d s fl t] b sc m r].
  destruct d as [u F P up dn ts ra pm ofo ofp bs].
  cbn [world dl OutputFile ProgressFile] in Ho, Hp. subst ofo ofp.
  unfold main_step. cbn [main].
  destruct m as [|rd|rd|e|e|e|e].
  - cbn [body]. destruct b as [|rd rest].
    + exists fo, fp. unfold handles. cbn. repeat split; auto; congruence.
    + destruct (0 <? Z.of_nat (length (rdata rd)));
        exists fo, fp; unfold handles; cbn; repeat split; auto; congruence.
  - unfold write_output. cbn [world dl OutputFile fs faults]. unfold os.Write.
    destruct (os.fclosed fo) eqn:Hc.
    + cbn [non_nil]. exists fo, fp. unfold handles. cbn. repeat split; auto; congruence.
    + set (x := default None (head fl)).
      set (g := fun nd : os.Inode =>
                  os.set_idata
                    (os.pwrite (os.idata nd) (os.fpos fo)
                       match x with Some (k, _) => take k (rdata rd) | None => rdata rd end)
                    nd).
      destruct (alter_effect g (os.fino fo) (os.inodes s) ltac:(reflexivity))
        as (Hlen & Hother & Hperm).
      destruct (non_nil match x with Some (_, e) => Some e | None => None end);
        eexists _, fp; unfold handles; cbn;
        (repeat split; auto; try congruence; try discriminate;
         try (intros; apply Hother; congruence)).
  - exists fo, fp. unfold handles. cbn. repeat split; auto; congruence.
  - destruct e as [e|]; cbn [non_nil].
    + exists fo, fp. unfold handles. cbn. repeat split; auto; congruence.
    + unfold os.Remove. cbn [world dl fs ProgressPath].
      destruct (os.names s !! P) as [i|] eqn:Hn;
        exists fo, fp; unfold handles; cbn; repeat split; auto; try congruence.
      * intros q Hq. apply lookup_delete_ne. congruence.
      * right. apply lookup_delete_eq.
  - unfold close_progress, on_progress. cbn [world dl ProgressFile fs].
    unfold os.Close. destruct (os.fclosed fp) eqn:Hc;
      eexists fo, _; unfold handles; cbn; repeat split; auto; congruence.
  - unfold close_output. cbn [world dl OutputFile fs].
    unfold os.Close. destruct (os.fclosed fo) eqn:Hc;
      eexists _, fp; unfold handles; cbn; repeat split; auto; congruence.
  - exists fo, fp. unfold handles. cbn. repeat split; auto; congruence.
Qed.

Lemma reporter_step_keeps (st : State) (fo fp : os.File) :
  handles st fo fp -> step_keeps Reporter st (reporter_step st) fo fp.
Proof.
  intros (Ho & Hp & Hne).
  destruct st as [[d s fl t] b sc m r].
  destruct d as [u F P up dn ts ra pm ofo ofp bs].
  cbn [world dl OutputFile ProgressFile] in Ho, Hp. subst ofo ofp.
  unfold reporter_step. cbn [reporter world].
  destruct r as [| |c|c|c| |].
  - exists fo, fp. unfold handles. cbn. repeat split; auto; congruence.
  - exists fo, fp. unfold handles. cbn. repeat split; auto; congruence.
  - unfold on_progress. cbn [dl ProgressFile fs]. unfold os.Seek.
    destruct (os.fclosed fp) eqn:Hc; cbn [snd];
      eexists fo, _; unfold handles; cbn; repeat split; auto; congruence.
  - unfold on_progress. cbn [dl ProgressFile fs]. unfold os.Truncate.
    destruct (os.fclosed fp) eqn:Hc; cbn [snd].
    + exists fo, fp. unfold handles. cbn. repeat split; auto; congruence.
    + match goal with
      | |- context [alter ?g (os.fino fp) (os.inodes s)] =>
          destruct (alter_effect g (os.fino fp) (os.inodes s) ltac:(reflexivity))
            as (Hlen & Hother & Hperm)
      end.
      exists fo, fp. unfold handles. cbn -[take replicate].
      repeat split; auto; try congruence; try discriminate;
        intros; apply Hother; congruence.
  - unfold on_progress. cbn [dl ProgressFile fs]. unfold os.Write.
    destruct (os.fclosed fp) eqn:Hc.
    + exists fo, fp. unfold handles. cbn. repeat split; auto; congruence.
    + match goal with
      | |- context [alter ?g (os.fino fp) (os.inodes s)] =>
          destruct (alter_effect g (os.fino fp) (os.inodes s) ltac:(reflexivity))
            as (Hlen & Hother & Hperm)
      end.
      eexists fo, _. unfold handles. cbn -[os.pwrite list_byte_of_string].
      repeat split; auto; try congruence; try discriminate;
        intros; apply Hother; congruence.
  - unfold on_progress. cbn [dl ProgressFile fs]. unfold os.Sync.
    destruct (os.fclosed fp) eqn:Hc; cbn [snd].
    + exists fo, fp. unfold handles. cbn. repeat split; auto; congruence.
    + match goal with
      | |- context [alter ?g (os.fino fp) (os.inodes s)] =>
          destruct (alter_effect g (os.fino fp) (os.inodes s) ltac:(reflexivity))
            as (Hlen & Hother & Hperm)
      end.
      exists fo, fp. unfold handles. cbn.
      repeat split; auto; try congruence; try discriminate;
        intros; apply Hother; congruence.
  - exists fo, fp. unfold handles. cbn. repeat split; auto; congruence.
Qed.

(** Every action of either goroutine keeps the two handles on their files,
    leaves every other file and every other name alone, and changes no
    permission. *)
Lemma step_keeps_step (a : Actor) (st : State) (fo fp : os.File) :
  handles st fo fp -> step_keeps a st (step a st) fo fp.
Proof.
  intros H. destruct a; cbn [step].
  - apply main_step_keeps, H.
  - apply reporter_step_keeps, H.
  - unfold reporter_stop. destruct (reporter st); try (apply step_keeps_refl, H).
    destruct (stopChan st); [|apply step_keeps_refl, H].
    destruct H as (Ho & Hp & Hne).
    exists fo, fp. unfold handles. cbn. repeat split; auto; congruence.
Qed.
(** ** How [Download] gets to the loop, and how it leaves before *)

(** What a successful [os.OpenFile] does to a file system that has a file
    per name: nothing, or a new empty file under the name. *)
Lemma OpenFile_effect (s s' : os.FS) (p : string) (f : os.File) :
  fs_wf s ->
  os.OpenFile s p = (Some f, None, s') ->
  fs_wf s' /\
  os.fpos f = 0%nat /\ os.fclosed f = false /\
  os.names s' = <[p := os.fino f]> (os.names s) /\
  (forall i, (i < length (os.inodes s))%nat -> os.inodes s' !! i = os.inodes s !! i) /\
  (exists nd, os.inodes s' !! os.fino f = Some nd /\ os.iperm nd = true) /\
  (forall q, file_at s' q = file_at s q) /\
  (forall q, baseline s' q = baseline s q).
Proof.
  intros [Hrange Hinj] Ho.
  destruct (OpenFile_spec _ _ _ _ Ho) as (Hpos & Hcl & Hlink & Hcase).
  destruct Hcase as [(-> & Hn & nd & Hnd & Hperm) | (Hn & Hi & ->)].
  - split; [split; assumption|]. split; [exact Hpos|]. split; [exact Hcl|].
    split; [now rewrite insert_id|]. split; [reflexivity|]. split; [eauto|].
    split; reflexivity.
  - cbn [os.names os.inodes]. rewrite Hi.
    assert (Hold : forall q i, os.names s !! q = Some i ->
              q <> p /\ (i < length (os.inodes s))%nat /\
              (os.inodes s ++ [os.mkInode [] [] true]) !! i = os.inodes s !! i).
    { intros q i Hq. split; [congruence|]. pose proof (Hrange _ _ Hq).
      split; [assumption | now apply lookup_app_l]. }
    assert (Hpath : forall q, q <> p ->
              os.lookup_path
                (os.mkFS (<[p := length (os.inodes s)]> (os.names s))
                         (os.inodes s ++ [os.mkInode [] [] true])) q
              = os.lookup_path s q).
    { intros q Hq. unfold os.lookup_path. cbn [os.names os.inodes].
      rewrite lookup_insert_ne by congruence.
      destruct (os.names s !! q) as [i|] eqn:Hqi; [|reflexivity].
      apply (Hold q i Hqi). }
    assert (Hnew : os.lookup_path
                     (os.mkFS (<[p := length (os.inodes s)]> (os.names s))
                              (os.inodes s ++ [os.mkInode [] [] true])) p
                   = Some (os.mkInode [] [] true)).
    { unfold os.lookup_path. cbn [os.names os.inodes].
      rewrite lookup_insert_eq. now rewrite list_lookup_middle. }
    assert (Hnone : os.lookup_path s p = None)
      by (unfold os.lookup_path; now rewrite Hn).
    split; [split|].
    + intros q i. cbn [os.names os.inodes]. rewrite length_app. cbn [length].
      destruct (decide (q = p)) as [->|Hne].
      * rewrite lookup_insert_eq. intros [= <-]. lia.
      * rewrite lookup_insert_ne by congruence. intros Hq.
        pose proof (Hrange _ _ Hq). lia.
    + intros q1 q2 i. cbn [os.names].
      destruct (decide (q1 = p)) as [->|Hne1], (decide (q2 = p)) as [->|Hne2];
        rewrite ?lookup_insert_eq, ?lookup_insert_ne by congruence.
      * reflexivity.
      * intros [= <-] Hq. pose proof (Hrange _ _ Hq). lia.
      * intros Hq [= <-]. pose proof (Hrange _ _ Hq). lia.
      * apply Hinj.
    + split; [exact Hpos|]. split; [exact Hcl|]. split; [reflexivity|].
      split; [intros i Hlt; now apply lookup_app_l|].
      split; [exists (os.mkInode [] [] true); split;
              [now rewrite list_lookup_middle | reflexivity]|].
      split; intros q; (destruct (decide (q = p)) as [->|Hne]).
      * unfold file_at. now rewrite Hnew, Hnone.
      * unfold file_at. now rewrite Hpath.
      * unfold baseline, progress_state. now rewrite Hnew, Hnone.
      * unfold baseline, progress_state. now rewrite Hpath.
Qed.

Lemma CreateRequest_faults (env : Env) (w w' : World) (req : option Request)
    (err : option error) :
  CreateRequest env w = (req, err, w') -> faults w' = faults w /\ clock w' = clock w.
Proof.
  unfold CreateRequest. destruct (NewRequest env (Url (dl w))) as [[r|] [e|]];
    try (intros [= <- <- <-]; split; reflexivity).
  pose proof (ReadProgress_frame w) as (_ & Hf & Hc & _).
  destruct (UseProgressFile (dl w)).
  - destruct (0 <? Downloaded (dl (ReadProgress w)));
      intros [= <- <- <-]; split; assumption.
  - intros [= <- <- <-]. split; reflexivity.
Qed.

(** The state in which the two goroutines start: both files open under
    their names, on two different files, the output positioned at the resume
    offset; every file holds what it held, a file that was not there
    counting as empty. *)
Lemma Download_start_files (env : Env) (w : World) :
  fs_wf (fs w) ->
  FilePath (dl w) <> ProgressPath (dl w) ->
  let st0 := Download_start env w in
  returned st0 = None ->
  exists fo fp,
    handles st0 fo fp /\
    os.fclosed fo = false /\ os.fclosed fp = false /\ os.fpos fp = 0%nat /\
    0 <= Downloaded (dl (world st0)) /\
    Z.of_nat (os.fpos fo) = Downloaded (dl (world st0)) /\
    fs_wf (fs (world st0)) /\
    os.names (fs (world st0))
      = <[ProgressPath (dl w) := os.fino fp]> (<[FilePath (dl w) := os.fino fo]> (os.names (fs w))) /\
    (forall i, (i < length (os.inodes (fs w)))%nat ->
       os.inodes (fs (world st0)) !! i = os.inodes (fs w) !! i) /\
    (exists nd, os.inodes (fs (world st0)) !! os.fino fo = Some nd /\ os.iperm nd = true) /\
    (exists nd, os.inodes (fs (world st0)) !! os.fino fp = Some nd /\ os.iperm nd = true) /\
    (forall q, file_at (fs (world st0)) q = file_at (fs w) q) /\
    (forall q, baseline (fs (world st0)) q = baseline (fs w) q) /\
    ProgressPath (dl (world st0)) = ProgressPath (dl w) /\
    FilePath (dl (world st0)) = FilePath (dl w) /\
    faults (world st0) = faults w /\
    main st0 = MRead /\ reporter st0 = RSelect /\
    (UseProgressFile (dl w) = true ->
     Downloaded (dl (world st0)) = baseline (fs w) (ProgressPath (dl w))).
Proof.
  intros Hwf Hne st0 Hret.
  destruct (Download_start_running env w Hret)
    as (req & w1 & resp & fo0 & s1 & fp & s2 & Hcr & _ & Hoo & Hd0 & Hop & H).
  fold st0 in H.
  destruct H as (Hm & Hr & _ & Hb & Hfs & Hfl & Hout & Hpf & Hdl & Hpp & Hfp & Hu).
  pose proof (CreateRequest_frame _ _ _ _ _ Hcr) as (Hfs1 & Hp1 & Hf1 & Hu1 & Hbase).
  pose proof (CreateRequest_faults _ _ _ _ _ Hcr) as [Hfl1 _].
  rewrite Hfs1, Hf1 in Hoo. rewrite Hp1 in Hop.
  destruct (OpenFile_effect _ _ _ _ Hwf Hoo)
    as (Hwf1 & _ & _ & Hn1 & Hi1 & (ndo & Hndo & Hpo) & Hfa1 & Hba1).
  destruct (OpenFile_effect _ _ _ _ Hwf1 Hop)
    as (Hwf2 & Hpos & Hcl & Hn2 & Hi2 & (ndp & Hndp & Hpp2) & Hfa2 & Hba2).
  assert (Hlen1 : (length (os.inodes (fs w)) <= length (os.inodes s1))%nat).
  { destruct (OpenFile_spec _ _ _ _ Hoo) as (_ & _ & _ & [(-> & _) | (_ & _ & ->)]);
      [lia | cbn; rewrite length_app; lia]. }
  assert (HnF : os.names s2 !! FilePath (dl w) = Some (os.fino fo0)).
  { rewrite Hn2, lookup_insert_ne by congruence. rewrite Hn1. apply lookup_insert_eq. }
  assert (HnP : os.names s2 !! ProgressPath (dl w) = Some (os.fino fp)).
  { rewrite Hn2. apply lookup_insert_eq. }
  assert (Hlt : (os.fino fo0 < length (os.inodes s1))%nat).
  { destruct Hwf1 as [Hrange _]. eapply Hrange. rewrite Hn1. apply lookup_insert_eq. }
  exists (os.mkFile (os.fino fo0) (Z.to_nat (Downloaded (dl w1))) false), fp.
  rewrite Hfs, Hdl, Hpp, Hfp, Hfl. cbn [os.fino os.fpos os.fclosed].
  split.
  { split; [exact Hout|]. split; [exact Hpf|]. cbn [os.fino].
    intros Heq. apply Hne. destruct Hwf2 as [_ Hinj].
    eapply Hinj; [exact HnF | rewrite Heq; exact HnP]. }
  split; [reflexivity|]. split; [exact Hcl|]. split; [exact Hpos|].
  split; [exact Hd0|]. split; [apply Z2Nat.id, Hd0|]. split; [exact Hwf2|].
  split; [rewrite Hn2, Hn1; reflexivity|].
  split; [intros i Hi; rewrite Hi2 by lia; now apply Hi1|].
  split; [exists ndo; split; [rewrite Hi2 by exact Hlt; exact Hndo | exact Hpo]|].
  split; [eauto|].
  split; [intros q; now rewrite Hfa2, Hfa1|].
  split; [intros q; now rewrite Hba2, Hba1|].
  split; [exact Hp1|]. split; [exact Hf1|]. split; [exact Hfl1|].
  split; [exact Hm|]. split; [exact Hr|].
  intros Huse. apply Hbase; [exact Huse | discriminate].
Qed.

(** A return of [Download] before the loop: it has at most opened the
    output file, and has closed it again if it has; the file system holds
    at most one file more, the output file, empty. *)
Lemma Download_start_exit_files (env : Env) (w : World) (err : option error) :
  returned (Download_start env w) = Some err ->
  exists w',
    Download_start env w = exit err w' /\
    (fs w' = fs w \/
     exists f, os.OpenFile (fs w) (FilePath (dl w)) = (Some f, None, fs w')) /\
    (OutputFile (dl w') = OutputFile (dl w) \/ OutputFile (dl w') = None \/
     exists f, OutputFile (dl w') = Some f /\ os.fclosed f = true) /\
    (ProgressFile (dl w') = ProgressFile (dl w) \/ ProgressFile (dl w') = None).
Proof.
  intros H. unfold Download_start in H |- *.
  destruct (CreateRequest env w) as [[req e0] w1] eqn:Hcr.
  pose proof (CreateRequest_frame _ _ _ _ _ Hcr) as (Hfs & _ & Hfp & _).
  pose proof (CreateRequest_handles _ _ _ _ _ Hcr) as (Hho & Hhp).
  assert (Hexit : forall e,
            returned (exit e w1) = Some err ->
            exists w',
              exit e w1 = exit err w' /\
              (fs w' = fs w \/
               exists f, os.OpenFile (fs w) (FilePath (dl w)) = (Some f, None, fs w')) /\
              (OutputFile (dl w') = OutputFile (dl w) \/ OutputFile (dl w') = None \/
               exists f, OutputFile (dl w') = Some f /\ os.fclosed f = true) /\
              (ProgressFile (dl w') = ProgressFile (dl w) \/ ProgressFile (dl w') = None)).
  { intros e [= <-]. exists w1. repeat split; auto. }
  destruct req as [req|], e0 as [e0|]; try (apply Hexit; exact H).
  destruct (Do env req) as [resp|e]; [|apply Hexit; exact H].
  destruct (negb (StatusCode resp =? StatusOK)
            && negb (StatusCode resp =? StatusPartialContent));
    [apply Hexit; exact H|].
  destruct ((0 <? Downloaded (dl w1)) && negb (StatusCode resp =? StatusPartialContent));
    [apply Hexit; exact H|].
  destruct (if String.eqb (Get (RespHeader resp) "Content-Length") EmptyString
            then (0, None)
            else strconv.ParseInt (Get (RespHeader resp) "Content-Length"))
    as [contentLen [e|]] eqn:Hcl; cbn [non_nil] in H |- *;
    [apply Hexit; exact H|].
  set (w2 := if String.eqb (Get (RespHeader resp) "Content-Length") EmptyString
             then w1
             else set_dl (set_TotalSize (wrap64 (Downloaded (dl w1) + contentLen)) (dl w1)) w1)
    in *.
  assert (Hw2 : fs w2 = fs w1 /\ FilePath (dl w2) = FilePath (dl w1) /\
                ProgressFile (dl w2) = ProgressFile (dl w1)).
  { subst w2. destruct (String.eqb _ _); repeat split. }
  destruct Hw2 as (Hfs2 & Hfp2 & Hpf2).
  destruct (os.OpenFile (fs w2) (FilePath (dl w2))) as [[fo0 e1] s1] eqn:Hoo.
  rewrite Hfs2, Hfs, Hfp2, Hfp in Hoo.
  assert (Hfail : forall f e, os.OpenFile (fs w) (FilePath (dl w)) = (f, Some e, s1) ->
            f = None /\ s1 = fs w).
  { intros f e. unfold os.OpenFile.
    destruct (os.names (fs w) !! FilePath (dl w)) as [j|];
      [destruct (os.inodes (fs w) !! j) as [nd|]; [destruct (os.iperm nd)|]|];
      intros Heq; inversion Heq; subst; split; reflexivity. }
  destruct fo0 as [fo0|], e1 as [e1|].
  { destruct (Hfail _ _ Hoo) as [[=] _]. }
  2: { destruct (Hfail _ _ Hoo) as [_ ->].
       cbn [returned exit main] in H. injection H as <-.
       eexists. split; [reflexivity|]. cbn. rewrite Hpf2. repeat split; auto. }
  2: { exfalso. unfold os.OpenFile in Hoo.
       destruct (os.names (fs w) !! FilePath (dl w)) as [j|];
         [destruct (os.inodes (fs w) !! j) as [nd|]; [destruct (os.iperm nd)|]|];
         discriminate Hoo. }
  cbn [dl set_dl set_fs Downloaded set_OutputFile fs ProgressPath] in H |- *.
  destruct (os.Seek fo0 (Downloaded (dl w2))) as [[z e2] fo1].
  destruct e2 as [e2|]; cbn [non_nil] in H |- *.
  { cbn [returned exit main] in H. injection H as <-.
    eexists. split; [reflexivity|]. unfold close_output. cbn. rewrite Hpf2.
    split; [right; eauto|]. split; [|auto].
    right. right. unfold os.Close. destruct (os.fclosed fo1) eqn:Hc; cbn; eauto. }
  cbn [dl set_dl set_fs Downloaded set_OutputFile fs ProgressPath] in H |- *.
  destruct (os.OpenFile s1 (ProgressPath (dl w2))) as [[fp e3] s2] eqn:Hop.
  assert (Hfail2 : forall f e, os.OpenFile s1 (ProgressPath (dl w2)) = (f, Some e, s2) ->
            f = None /\ s2 = s1).
  { intros f e. unfold os.OpenFile.
    destruct (os.names s1 !! ProgressPath (dl w2)) as [j|];
      [destruct (os.inodes s1 !! j) as [nd|]; [destruct (os.iperm nd)|]|];
      intros Heq; inversion Heq; subst; split; reflexivity. }
  destruct fp as [fp|], e3 as [e3|].
  - destruct (Hfail2 _ _ Hop) as [[=] _].
  - discriminate H.
  - destruct (Hfail2 _ _ Hop) as [_ ->].
    cbn [returned exit main] in H. injection H as <-.
    eexists. split; [reflexivity|]. unfold close_output. cbn.
    split; [right; eauto|]. split; [|auto].
    right. right. unfold os.Close. destruct (os.fclosed fo1) eqn:Hc; cbn; eauto.
  - exfalso. unfold os.OpenFile in Hop.
    destruct (os.names s1 !! ProgressPath (dl w2)) as [j|];
      [destruct (os.inodes s1 !! j) as [nd|]; [destruct (os.iperm nd)|]|];
      discriminate Hop.
Qed.
(** ** Files closed on return *)

Lemma step_closed_so_far (a : Actor) (st : State) :
  closed_so_far st -> closed_so_far (step a st).
Proof.
  intros (fo & fp & Ho & Hp & Hc).
  destruct st as [[d s fl t] b sc m r].
  destruct d as [u F P up dn ts ra pm ofo ofp bs].
  cbn [world dl OutputFile ProgressFile main] in Ho, Hp, Hc. subst ofo ofp.
  destruct a; cbn [step].
  - unfold main_step. cbn [main].
    destruct m as [|rd|rd|e|e|e|e].
    + cbn [body]. destruct b as [|rd rest].
      * exists fo, fp. cbn. auto.
      * destruct (0 <? Z.of_nat (length (rdata rd)));
          [exists fo, fp; cbn; auto|].
        exists fo, fp. cbn. repeat split.
        destruct (after_chunk_cases rd) as [-> | [e ->]]; exact I.
    + unfold write_output. cbn [world dl OutputFile fs faults]. unfold os.Write.
      destruct (os.fclosed fo) eqn:Hcl.
      * cbn [non_nil]. exists fo, fp. cbn. auto.
      * destruct (non_nil _); eexists _, fp; cbn; auto.
    + exists fo, fp. cbn. repeat split.
      destruct (after_chunk_cases rd) as [-> | [e ->]]; exact I.
    + destruct e as [e|]; cbn [non_nil]; exists fo, fp; cbn; auto.
    + unfold close_progress, on_progress. cbn [world dl ProgressFile fs].
      unfold os.Close. destruct (os.fclosed fp) eqn:Hcl; eexists fo, _; cbn; auto.
    + unfold close_output. cbn [world dl OutputFile fs].
      unfold os.Close. destruct (os.fclosed fo) eqn:Hcl; eexists _, fp; cbn; auto.
    + exists fo, fp. cbn. auto.
  - assert (Hkeep : forall (op : os.FS -> os.File -> os.FS * os.File) pc,
              (forall s0 f, os.fclosed f = true -> os.fclosed (op s0 f).2 = true) ->
              closed_so_far
                (set_reporter pc
                   (set_world
                      (on_progress op
                         (mkWorld (mkDownloader u F P up dn ts ra pm (Some fo) (Some fp) bs)
                                  s fl t))
                      (mkState (mkWorld (mkDownloader u F P up dn ts ra pm (Some fo)
                                           (Some fp) bs) s fl t) b sc m r)))).
    { intros op pc Hop. unfold on_progress. cbn [dl ProgressFile fs].
      specialize (Hop s fp). destruct (op s fp) as [s' fp'].
      exists fo, fp'. cbn in *. repeat split.
      destruct m; auto. destruct Hc as [Hc1 Hc2]. auto. }
    unfold reporter_step. cbn [reporter world].
    destruct r as [| |c|c|c| |]; try apply Hkeep.
    + exists fo, fp. cbn. auto.
    + exists fo, fp. cbn. auto.
    + intros s0 f Hf. unfold os.Seek. now rewrite Hf.
    + intros s0 f Hf. exact Hf.
    + intros s0 f Hf. unfold os.Write. now rewrite Hf.
    + intros s0 f Hf. exact Hf.
    + exists fo, fp. cbn. auto.
  - unfold reporter_stop. cbn [reporter stopChan].
    destruct r; try (exists fo, fp; cbn; auto; fail).
    destruct sc; exists fo, fp; cbn; auto.
Qed.

(** X9.  [Download] leaves no file open behind: when it has returned,
    with an error or without, every file it has opened has been closed, and
    stays closed whatever the reporter does afterwards. *)
Theorem Download_closes_handles (env : Env) (sched : list Actor) (w : World)
    (err : option error) :
  OutputFile (dl w) = None -> ProgressFile (dl w) = None ->
  let st := Download env sched w in
  returned st = Some err ->
  (forall f, OutputFile (dl (world st)) = Some f -> os.fclosed f = true) /\
  (forall f, ProgressFile (dl (world st)) = Some f -> os.fclosed f = true).
Proof.
  intros Hno Hnp st Hret. subst st. unfold Download in *.
  destruct (returned (Download_start env w)) as [err0|] eqn:Hret0.
  - destruct (Download_start_exit_files env w err0 Hret0) as (w' & -> & _ & Ho & Hp).
    rewrite run_exit. cbn [exit world]. rewrite Hno in Ho. rewrite Hnp in Hp.
    split; intros f Hf.
    + destruct Ho as [Ho | [Ho | (f' & Ho & Hc)]]; congruence.
    + destruct Hp as [Hp | Hp]; congruence.
  - assert (H0 : closed_so_far (Download_start env w)).
    { destruct (Download_start_running env w Hret0)
        as (? & ? & ? & ? & ? & fp & ? & _ & _ & _ & _ & _ & H).
      destruct H as (Hm & _ & _ & _ & _ & _ & Hout & Hpf & _).
      eexists _, fp. rewrite Hm. repeat split; eassumption. }
    pose proof (run_invariant _ step_closed_so_far sched _ H0) as (fo & fp & Ho & Hp & Hc).
    unfold returned in Hret.
    destruct (main (run sched (Download_start env w))); try discriminate Hret.
    destruct Hc as [Hcp Hco]. split; intros f Hf; congruence.
Qed.

Lemma Download_closes_handles_witness :
  let st := Download server_200 run_with_tick ten_bytes in
  returned st = Some None /\
  (forall f, OutputFile (dl (world st)) = Some f -> os.fclosed f = true) /\
  (forall f, ProgressFile (dl (world st)) = Some f -> os.fclosed f = true).
Proof.
  split; [reflexivity|].
  apply (Download_closes_handles server_200 run_with_tick ten_bytes None);
    reflexivity.
Defined.

(** ** Runs, seen from the file system *)

(** A whole run keeps the two handles on their files, leaves every other
    file and every name but that of the progress file alone, and changes no
    permission; actions of [Download] alone leave the progress file as it
    is. *)
Lemma run_keeps (sched : list Actor) (st0 : State) (fo0 fp0 : os.File) :
  handles st0 fo0 fp0 ->
  let st := run sched st0 in
  exists fo fp,
    handles st fo fp /\ os.fino fo = os.fino fo0 /\ os.fino fp = os.fino fp0 /\
    ProgressPath (dl (world st)) = ProgressPath (dl (world st0)) /\
    FilePath (dl (world st)) = FilePath (dl (world st0)) /\
    length (os.inodes (fs (world st))) = length (os.inodes (fs (world st0))) /\
    (forall i, i <> os.fino fo0 -> i <> os.fino fp0 ->
       os.inodes (fs (world st)) !! i = os.inodes (fs (world st0)) !! i) /\
    (forall i, os.iperm <$> os.inodes (fs (world st)) !! i
               = os.iperm <$> os.inodes (fs (world st0)) !! i) /\
    (forall q, q <> ProgressPath (dl (world st0)) ->
       os.names (fs (world st)) !! q = os.names (fs (world st0)) !! q) /\
    (os.names (fs (world st)) !! ProgressPath (dl (world st0))
       = os.names (fs (world st0)) !! ProgressPath (dl (world st0)) \/
     os.names (fs (world st)) !! ProgressPath (dl (world st0)) = None) /\
    (Forall (eq Main) sched ->
       os.inodes (fs (world st)) !! os.fino fp0 = os.inodes (fs (world st0)) !! os.fino fp0).
Proof.
  revert st0 fo0 fp0. induction sched as [|a sched IH]; intros st0 fo0 fp0 H st.
  - exists fo0, fp0. subst st. cbn. repeat split; auto; apply H.
  - subst st. change (run (a :: sched) st0) with (run sched (step a st0)).
    destruct (step_keeps_step a st0 fo0 fp0 H)
      as (fo1 & fp1 & H1 & Hio1 & Hip1 & _ & _ & Hpp1 & Hfp1 & Hlen1 & Hoth1 & Hperm1
          & Hnam1 & HnP1 & Hmain1 & _).
    destruct (IH (step a st0) fo1 fp1 H1)
      as (fo & fp & H2 & Hio & Hip & Hpp & Hfp & Hlen & Hoth & Hperm & Hnam & HnP & Hmain).
    exists fo, fp. rewrite Hpp1 in *. rewrite Hio1, Hip1 in *.
    split; [exact H2|]. split; [exact Hio|]. split; [exact Hip|].
    split; [congruence|]. split; [congruence|]. split; [congruence|].
    split; [intros i Hi1 Hi2; rewrite Hoth by assumption; now apply Hoth1|].
    split; [intros i; now rewrite Hperm|].
    split; [intros q Hq; rewrite Hnam by assumption; now apply Hnam1|].
    split.
    { destruct HnP as [HnP|HnP]; [|right; exact HnP].
      rewrite HnP. exact HnP1. }
    intros Hall. inversion Hall as [|? ? Ha Hrest]; subst.
    rewrite Hmain by assumption. apply Hmain1. reflexivity.
Qed.

Lemma path_ne_progress (p : string) : p <> p +:+ ".progress".
Proof.
  intros H. apply (f_equal String.length) in H. rewrite length_append in H.
  cbn in H. lia.
Qed.

Lemma lookup_path_eq (s s' : os.FS) (q : string) :
  os.names s' !! q = os.names s !! q ->
  (forall i, os.names s !! q = Some i -> os.inodes s' !! i = os.inodes s !! i) ->
  os.lookup_path s' q = os.lookup_path s q.
Proof.
  intros Hn Hi. unfold os.lookup_path. rewrite Hn.
  destruct (os.names s !! q) as [i|]; [now apply Hi | reflexivity].
Qed.

(** [Download] and the files of others: whatever it returns and whatever
    the schedule, a path that is neither its output path nor its progress
    path leads where it led, to the same bytes. *)
Lemma Download_other_files (env : Env) (sched : list Actor) (w : World) (q : string) :
  fs_wf (fs w) ->
  FilePath (dl w) <> ProgressPath (dl w) ->
  q <> FilePath (dl w) -> q <> ProgressPath (dl w) ->
  os.lookup_path (fs (world (Download env sched w))) q = os.lookup_path (fs w) q.
Proof.
  intros Hwf Hne HqF HqP. unfold Download.
  destruct (returned (Download_start env w)) as [err|] eqn:Hret.
  - destruct (Download_start_exit_files env w err Hret) as (w' & -> & Hfs & _).
    rewrite run_exit. cbn [exit world].
    destruct Hfs as [-> | (f & Ho)]; [reflexivity|].
    destruct (OpenFile_effect _ _ _ _ Hwf Ho) as (_ & _ & _ & Hn & Hi & _).
    apply lookup_path_eq.
    + rewrite Hn. apply lookup_insert_ne. congruence.
    + intros i Hqi. apply Hi. destruct Hwf as [Hrange _]. eapply Hrange, Hqi.
  - destruct (Download_start_files env w Hwf Hne Hret)
      as (fo & fp & Hh & _ & _ & _ & _ & _ & Hwf0 & Hn0 & Hi0 & _ & _ & _ & _ & HP & _).
    destruct (run_keeps sched _ fo fp Hh)
      as (fo' & fp' & _ & _ & _ & _ & _ & _ & Hoth & _ & Hnam & _).
    rewrite HP in Hnam.
    assert (Hq0 : os.names (fs (world (Download_start env w))) !! q = os.names (fs w) !! q).
    { rewrite Hn0, !lookup_insert_ne by congruence. reflexivity. }
    apply lookup_path_eq.
    + rewrite Hnam by exact HqP. exact Hq0.
    + intros i Hqi. destruct Hwf as [Hrange Hinj].
      rewrite Hoth; [apply Hi0; eapply Hrange, Hqi | |].
      * intros ->. destruct Hwf0 as [_ Hinj0].
        apply HqF. apply (Hinj0 q (FilePath (dl w)) (os.fino fo)).
        -- rewrite Hq0. exact Hqi.
        -- rewrite Hn0, lookup_insert_ne by congruence. apply lookup_insert_eq.
      * intros ->. destruct Hwf0 as [_ Hinj0].
        apply HqP. apply (Hinj0 q (ProgressPath (dl w)) (os.fino fp)).
        -- rewrite Hq0. exact Hqi.
        -- rewrite Hn0. apply lookup_insert_eq.
Qed.

(** X10.  The program touches two files only.  Run with a URL and an
    output path on a file system that has a file per name, whatever the
    server, the device and the schedule do, and at whatever moment one looks:
    every path other than the output path and that path with [.progress]
    appended leads to the file it led to, with the bytes, synced bytes and
    permission it had, or to no file as before. *)
Theorem main_touches_only_its_files (args : list string) (env : Env) (sched : list Actor)
    (s : os.FS) (fl : list os.WFault) (t : Z) (st : State) :
  fs_wf s ->
  medow.main args env sched s fl t = Some st ->
  exists url path,
    args !! 1%nat = Some url /\ args !! 2%nat = Some path /\
    forall q, q <> path -> q <> path +:+ ".progress" ->
      os.lookup_path (fs (world st)) q = os.lookup_path s q.
Proof.
  intros Hwf Hmain. unfold medow.main in Hmain.
  destruct (args !! 1%nat) as [url|]; [|discriminate Hmain].
  destruct (args !! 2%nat) as [path|]; [|discriminate Hmain].
  injection Hmain as <-. exists url, path. split; [reflexivity|]. split; [reflexivity|].
  intros q HqF HqP.
  apply (Download_other_files env sched (mkWorld (NewDownloader url path true) s fl t) q);
    [exact Hwf | apply path_ne_progress | exact HqF | exact HqP].
Qed.

Lemma two_other_files_wf : fs_wf two_other_files.
Proof.
  assert (Hcases : forall p i, os.names two_other_files !! p = Some i ->
            (p = "notes" /\ i = 0%nat) \/ (p = "f.old" /\ i = 1%nat)).
  { intros p i H. unfold two_other_files in H. cbn [os.names] in H.
    apply lookup_insert_Some in H as [[<- <-] | [_ H]]; [auto|].
    apply lookup_singleton_Some in H as [<- <-]. auto. }
  split.
  - intros p i H. destruct (Hcases p i H) as [[_ ->] | [_ ->]]; cbn; lia.
  - intros p q i Hp Hq.
    destruct (Hcases p i Hp) as [[-> ->] | [-> ->]],
             (Hcases q _ Hq) as [[-> Hi] | [-> Hi]]; congruence.
Qed.

Lemma main_touches_only_its_files_witness :
  let st := Download server_200 run_with_tick
              (mkWorld (NewDownloader "http://host/f" "f" true) two_other_files [] 0) in
  os.lookup_path (fs (world st)) "notes" = os.lookup_path two_other_files "notes" /\
  os.lookup_path (fs (world st)) "f.old" = os.lookup_path two_other_files "f.old".
Proof.
  intros st.
  destruct (main_touches_only_its_files ["medow"; "http://host/f"; "f"] server_200
              run_with_tick two_other_files [] 0 st two_other_files_wf eq_refl)
    as (url & path & [= <-] & [= <-] & H).
  split; apply H; discriminate.
Defined.

(** X11.  [Download] itself never writes the progress file: ticks do.
    When no tick falls into a transfer that fails, at whatever point, the
    progress file holds on return exactly what it held at the start (nothing,
    if there was none), whatever has been written to the output file
    meanwhile. *)
Theorem Download_alone_keeps_sidecar (env : Env) (sched : list Actor) (w : World)
    (e : error) :
  fs_wf (fs w) ->
  FilePath (dl w) <> ProgressPath (dl w) ->
  Forall (eq Main) sched ->
  let st := Download env sched w in
  returned st = Some (Some e) ->
  file_at (fs (world st)) (ProgressPath (dl w)) = file_at (fs w) (ProgressPath (dl w)).
Proof.
  intros Hwf Hne Hall st Hret. subst st. unfold Download in *.
  destruct (returned (Download_start env w)) as [err|] eqn:Hret0.
  - destruct (Download_start_exit_files env w err Hret0) as (w' & -> & Hfs & _).
    rewrite run_exit. cbn [exit world].
    destruct Hfs as [-> | (f & Ho)]; [reflexivity|].
    destruct (OpenFile_effect _ _ _ _ Hwf Ho) as (_ & _ & _ & _ & _ & _ & Hfa & _).
    apply Hfa.
  - destruct (Download_start_files env w Hwf Hne Hret0)
      as (fo & fp & Hh & _ & _ & _ & _ & _ & _ & Hn0 & _ & _ & _ & Hfa0 & _ & HP & _).
    destruct (Download_start_link env w Hret0) as (ip & Hlink & _).
    assert (Hip : os.names (fs (world (Download_start env w))) !! ProgressPath (dl w)
                  = Some ip).
    { destruct Hlink as [_ Hl].
      destruct (Download_start_running env w Hret0) as (? & ? & ? & ? & ? & ? & ? & H).
      destruct H as (_ & _ & _ & _ & _ & Hm0 & _). rewrite Hm0 in Hl. exact Hl. }
    assert (Hfp : ip = os.fino fp).
    { rewrite Hn0, lookup_insert_eq in Hip. congruence. }
    pose proof (run_invariant _ (step_sidecar_link (ProgressPath (dl w)) ip) sched _ Hlink)
      as [_ Hl].
    destruct (run_keeps sched _ fo fp Hh)
      as (_ & _ & _ & _ & _ & _ & _ & _ & _ & _ & _ & _ & Hmain).
    specialize (Hmain Hall).
    unfold returned in Hret.
    destruct (main (run sched (Download_start env w))); try discriminate Hret.
    injection Hret as ->.
    rewrite <- Hfa0. unfold file_at, os.lookup_path. rewrite Hl, Hip, Hfp, Hmain.
    reflexivity.
Qed.

Lemma Download_alone_keeps_sidecar_witness :
  let st := Download server_reset no_tick ten_bytes in
  returned st = Some (Some (EnvError 104)) /\
  file_at (fs (world st)) "f.progress" = file_at no_files "f.progress" /\
  file_at (fs (world st)) "f" = list_byte_of_string "hello wor".
Proof.
  split; [reflexivity|]. split; [|reflexivity].
  apply (Download_alone_keeps_sidecar server_reset no_tick ten_bytes (EnvError 104)
           no_files_wf);
    [discriminate | repeat constructor | reflexivity].
Defined.

(** ** The transfer is that of [DownloadChunks] run alone *)

Lemma transfer_out_view (w w' : World) : transfer w = transfer w' -> out_view w = out_view w'.
Proof.
  unfold transfer, out_view, out_pos, out_data, os.contents.
  intros [= Hd Ho Hf Hi]. rewrite Hd, Ho in *.
  destruct (OutputFile (dl w')) as [f|]; [|reflexivity].
  destruct (os.inodes (fs w) !! os.fino f), (os.inodes (fs w') !! os.fino f);
    cbn in Hi; congruence.
Qed.

Lemma write_output_transfer (data : list byte) (w w' : World) :
  transfer w = transfer w' ->
  (write_output data w).1 = (write_output data w').1 /\
  transfer (write_output data w).2 = transfer (write_output data w').2.
Proof.
  intros Ht. pose proof Ht as Ht0. unfold transfer in Ht. injection Ht as Hd Ho Hf Hi.
  unfold write_output. rewrite Ho in *.
  destruct (OutputFile (dl w')) as [f|] eqn:Ho'; [|split; [reflexivity | exact Ht0]].
  rewrite Hf. unfold os.Write.
  destruct (os.fclosed f); unfold transfer;
    cbn [fst snd dl fs faults set_OutputFile OutputFile Downloaded os.fino os.inodes].
  - rewrite Hd, Hi. split; reflexivity.
  - rewrite Hd, !list_lookup_alter_eq. split; [reflexivity|].
    destruct (os.inodes (fs w) !! os.fino f), (os.inodes (fs w') !! os.fino f);
      cbn in Hi |- *; congruence.
Qed.

Lemma add_downloaded_transfer (n : Z) (w w' : World) :
  transfer w = transfer w' -> transfer (add_downloaded n w) = transfer (add_downloaded n w').
Proof. unfold transfer. cbn. intros [= -> -> -> ->]. reflexivity. Qed.

Lemma pass_time_transfer (dt : Z) (w : World) : transfer (pass_time dt w) = transfer w.
Proof. reflexivity. Qed.

(** The loop reads nothing of a world but its transfer part, and leaves the
    same transfer part behind from worlds that agree on it. *)
Lemma DownloadChunks_transfer (body : list ReadResult) (w w' : World) :
  transfer w = transfer w' ->
  (DownloadChunks body w).1 = (DownloadChunks body w').1 /\
  transfer (DownloadChunks body w).2 = transfer (DownloadChunks body w').2.
Proof.
  revert w w'. induction body as [|r body IH]; intros w w' Ht; [split; [reflexivity | exact Ht]|].
  cbn [DownloadChunks].
  assert (Ht1 : transfer (pass_time (rtime r) w) = transfer (pass_time (rtime r) w'))
    by (now rewrite !pass_time_transfer).
  destruct (0 <? Z.of_nat (length (rdata r))).
  - destruct (write_output_transfer (rdata r) _ _ Ht1) as [He Hw].
    destruct (write_output (rdata r) (pass_time (rtime r) w)) as [e1 w1].
    destruct (write_output (rdata r) (pass_time (rtime r) w')) as [e2 w2].
    cbn [fst snd] in He, Hw. subst e2.
    destruct e1 as [e|]; cbn [non_nil]; [split; [reflexivity | exact Hw]|].
    pose proof (add_downloaded_transfer (Z.of_nat (length (rdata r))) _ _ Hw) as Ha.
    destruct (rerr r) as [e|]; [destruct (is_EOF e); (split; [reflexivity | exact Ha])|].
    apply IH, Ha.
  - destruct (rerr r) as [e|]; [destruct (is_EOF e); (split; [reflexivity | exact Ht1])|].
    apply IH, Ht1.
Qed.

Lemma loop_outcome_transfer (st st' : State) :
  main st' = main st -> body st' = body st ->
  transfer (world st') = transfer (world st) ->
  (loop_outcome st').1 = (loop_outcome st).1 /\
  transfer (loop_outcome st').2 = transfer (loop_outcome st).2.
Proof.
  intros Hm Hb Ht. unfold loop_outcome. rewrite Hm, Hb.
  destruct (main st) as [|r|r|e|e|e|e]; try (split; [reflexivity | exact Ht]).
  - apply DownloadChunks_transfer, Ht.
  - destruct (write_output_transfer (rdata r) _ _ Ht) as [He Hw].
    destruct (write_output (rdata r) (world st')) as [e1 w1].
    destruct (write_output (rdata r) (world st)) as [e2 w2].
    cbn [fst snd] in He, Hw. subst e2.
    destruct e1 as [e|]; cbn [non_nil]; [split; [reflexivity | exact Hw]|].
    pose proof (add_downloaded_transfer (Z.of_nat (length (rdata r))) _ _ Hw) as Ha.
    destruct (rerr r) as [e|]; [destruct (is_EOF e); (split; [reflexivity | exact Ha])|].
    apply DownloadChunks_transfer, Ha.
  - pose proof (add_downloaded_transfer (Z.of_nat (length (rdata r))) _ _ Ht) as Ha.
    destruct (rerr r) as [e|]; [destruct (is_EOF e); (split; [reflexivity | exact Ha])|].
    apply DownloadChunks_transfer, Ha.
Qed.

(** An action of [Download] is a step of the loop run alone, or one of the
    deferred calls, which leave the counter and the output file alone. *)
Lemma main_step_outcome (st : State) :
  (loop_outcome (main_step st)).1 = (loop_outcome st).1 /\
  out_view (loop_outcome (main_step st)).2 = out_view (loop_outcome st).2.
Proof.
  unfold main_step, loop_outcome.
  destruct (main st) as [|r|r|e|e|e|e] eqn:Hm.
  - destruct (body st) as [|r rest] eqn:Hb; [cbn; rewrite ?Hm; split; reflexivity|].
    cbn [DownloadChunks].
    destruct (0 <? Z.of_nat (length (rdata r))) eqn:Hn; cbn [main body world set_main
      set_body set_world].
    + destruct (write_output (rdata r) (pass_time (rtime r) (world st))) as [e1 w1].
      destruct e1 as [e|]; cbn [non_nil]; [split; reflexivity|].
      destruct (rerr r) as [e|]; [destruct (is_EOF e); split; reflexivity|].
      split; reflexivity.
    + unfold after_chunk.
      destruct (rerr r) as [e|]; [destruct (is_EOF e); cbn; split; reflexivity|].
      cbn. split; reflexivity.
  - destruct (write_output (rdata r) (world st)) as [e1 w1].
    destruct e1 as [e|]; cbn [non_nil main body world set_main set_world];
      [split; reflexivity|].
    destruct (rerr r) as [e|]; split; reflexivity.
  - cbn [main body world set_main set_world]. unfold after_chunk.
    destruct (rerr r) as [e|]; [destruct (is_EOF e); cbn; split; reflexivity|].
    cbn. split; reflexivity.
  - cbn [main world set_main set_world snd fst]. split; [reflexivity|].
    destruct e as [e|]; cbn [non_nil]; [reflexivity|].
    unfold out_view, out_pos, out_data. cbn. unfold os.Remove.
    destruct (os.names (fs (world st)) !! ProgressPath (dl (world st))); reflexivity.
  - cbn [main world set_main set_world snd fst]. split; [reflexivity|].
    unfold out_view, out_pos, out_data, close_progress, on_progress.
    destruct (ProgressFile (dl (world st))); reflexivity.
  - cbn [main world set_main set_world snd fst]. split; [reflexivity|].
    unfold out_view, out_pos, out_data, close_output.
    destruct (OutputFile (dl (world st))) as [f|] eqn:Ho; [|now rewrite Ho].
    cbn. unfold os.Close. destruct (os.fclosed f) eqn:Hc; cbn; [|reflexivity].
    destruct f as [i p c]. cbn in Hc. now subst c.
  - rewrite Hm. split; reflexivity.
Qed.

(** No action of the reporter changes what the loop returns or what it
    leaves in the counter and the output file. *)
Lemma step_outcome (a : Actor) (st : State) (fo fp : os.File) :
  handles st fo fp ->
  (loop_outcome (step a st)).1 = (loop_outcome st).1 /\
  out_view (loop_outcome (step a st)).2 = out_view (loop_outcome st).2.
Proof.
  intros Hh.
  assert (Ha : a = Main \/ a <> Main) by (destruct a; [left | right ..]; congruence).
  destruct Ha as [->|Hne]; [apply main_step_outcome|].
  destruct (step_keeps_step a st fo fp Hh)
    as (fo' & fp' & (Ho' & _) & _ & _ & _ & _ & _ & _ & _ & _ & _ & _ & _ & _ & Hrep).
  destruct (Hrep Hne) as (-> & Hm & Hb & _ & Hd & Hf & Hi).
  destruct (loop_outcome_transfer st (step a st) Hm Hb) as [He Ht].
  - unfold transfer. destruct Hh as (Ho & _). rewrite Hd, Ho', Ho, Hf, Hi. reflexivity.
  - split; [exact He | apply transfer_out_view, Ht].
Qed.

(** Whatever the schedule, what [Download] returns and leaves in the
    counter and the output file is what the loop gives when it runs alone. *)
Lemma Download_outcome (env : Env) (sched : list Actor) (w : World)
    (err : option error) :
  fs_wf (fs w) ->
  FilePath (dl w) <> ProgressPath (dl w) ->
  let st0 := Download_start env w in
  returned st0 = None ->
  let st := Download env sched w in
  returned st = Some err ->
  let alone := DownloadChunks (body st0) (world st0) in
  err = alone.1 /\
  Downloaded (dl (world st)) = Downloaded (dl alone.2) /\
  out_pos (world st) = out_pos alone.2 /\
  out_data (world st) = out_data alone.2.
Proof.
  intros Hwf Hne st0 Hret0 st Hret alone.
  destruct (Download_start_files env w Hwf Hne Hret0) as (fo & fp & Hh & H).
  fold st0 in Hh, H.
  assert (Hm0 : main st0 = MRead) by (decompose [and] H; assumption).
  assert (Hinv : (exists fo fp, handles st fo fp) /\
                 (loop_outcome st).1 = (loop_outcome st0).1 /\
                 out_view (loop_outcome st).2 = out_view (loop_outcome st0).2).
  { subst st. unfold Download. fold st0.
    apply (run_invariant
             (fun s => (exists fo fp, handles s fo fp) /\
                       (loop_outcome s).1 = (loop_outcome st0).1 /\
                       out_view (loop_outcome s).2 = out_view (loop_outcome st0).2)).
    - intros a s ((fo1 & fp1 & Hh1) & He & Hv).
      destruct (step_keeps_step a s fo1 fp1 Hh1) as (fo2 & fp2 & Hh2 & _).
      destruct (step_outcome a s fo1 fp1 Hh1) as [He' Hv'].
      split; [eauto|]. split; congruence.
    - split; [eauto|]. split; reflexivity. }
  destruct Hinv as (_ & He & Hv).
  unfold loop_outcome in He, Hv. rewrite Hm0 in He, Hv. fold alone in He, Hv.
  unfold returned in Hret. destruct (main st) eqn:Hm; try discriminate Hret.
  injection Hret as ->. cbn [fst snd] in He, Hv.
  unfold out_view in Hv. injection Hv as Hd Hp Hc. auto.
Qed.

(** X12.  The reporter never disturbs the transfer.  Once the loop has
    started, on a file system that has a file per name and with the two
    paths different: whatever the schedule of the two goroutines and
    whatever the device does, when [Download] returns, the error it returns,
    the counter, the cursor of the output file and the bytes of the output
    file are those [DownloadChunks] gives when it runs alone on the body from
    the state in which the loop started. *)
Theorem Download_transfer_sequential (env : Env) (sched : list Actor) (w : World)
    (err : option error) :
  fs_wf (fs w) ->
  FilePath (dl w) <> ProgressPath (dl w) ->
  let st0 := Download_start env w in
  returned st0 = None ->
  let st := Download env sched w in
  returned st = Some err ->
  let alone := DownloadChunks (body st0) (world st0) in
  err = alone.1 /\
  Downloaded (dl (world st)) = Downloaded (dl alone.2) /\
  out_pos (world st) = out_pos alone.2 /\
  out_data (world st) = out_data alone.2.
Proof.
  intros Hwf Hne st0 Hret0 st Hret alone.
  exact (Download_outcome env sched w err Hwf Hne Hret0 Hret).
Qed.

Lemma Download_transfer_sequential_witness :
  let st := Download server_200 run_with_tick ten_bytes in
  let st0 := Download_start server_200 ten_bytes in
  let alone := DownloadChunks (body st0) (world st0) in
  Downloaded (dl (world st)) = Downloaded (dl alone.2) /\
  out_data (world st) = out_data alone.2.
Proof.
  intros st st0 alone.
  destruct (Download_transfer_sequential server_200 run_with_tick ten_bytes None
              no_files_wf) as (_ & Hd & _ & Hc);
    [discriminate | reflexivity | reflexivity |].
  split; assumption.
Defined.

(** ** What ends up in the output file *)

(** X13.  [Download] writes the body into the output file at the resume
    offset and touches nothing else of it.  When the device takes every
    write and the counter does not overflow, then whatever the schedule, once
    [Download] has returned after the loop ran: it returns what the first
    read error of the body asks for; the counter is the resume offset plus
    the bytes read up to that error; and the output file is the file that was
    there (an empty one if there was none) overwritten by those bytes from
    the resume offset on.  The file is never truncated: what it held before
    the offset and beyond the end of the transfer stays. *)
Theorem Download_output_contents (env : Env) (sched : list Actor) (w : World)
    (err : option error) :
  fs_wf (fs w) ->
  FilePath (dl w) <> ProgressPath (dl w) ->
  faults w = [] ->
  let st0 := Download_start env w in
  returned st0 = None ->
  let N := Downloaded (dl (world st0)) in
  let data := body_data (taken (body st0)) in
  N + Z.of_nat (length data) <= int64_max ->
  let st := Download env sched w in
  returned st = Some err ->
  err = read_verdict (body st0) /\
  Downloaded (dl (world st)) = N + Z.of_nat (length data) /\
  file_at (fs (world st)) (FilePath (dl w))
    = os.pwrite (file_at (fs w) (FilePath (dl w))) (Z.to_nat N) data.
Proof.
  intros Hwf Hne Hfl st0 Hret0 N data Hmax st Hret.
  destruct (Download_outcome env sched w err Hwf Hne Hret0 Hret) as (He & Hd & _ & Hc).
  fold st0 st in He, Hd, Hc.
  destruct (Download_start_files env w Hwf Hne Hret0)
    as (fo & fp & Hh & Hco & _ & _ & HN0 & HposN & _ & Hn0 & _ & (ndo & Hndo & _) & _
        & Hfa0 & _ & HP & HF & Hfl0 & _).
  fold st0 in Hh, HN0, HposN, Hn0, Hndo, Hfa0, HP, HF, Hfl0. fold N in HN0, HposN.
  assert (Hopen : output_open (world st0) fo).
  { destruct Hh as (Ho & _). split; [exact Ho|]. split; [exact Hco | eauto]. }
  destruct (DownloadChunks_no_fault (body st0) (world st0) fo Hopen) as (w' & Heq & Hs).
  { rewrite Hfl0, Hfl, take_nil. constructor. }
  { fold N. unfold in_int64, int64_min, int64_max in *. lia. }
  { fold N. unfold body_bytes. fold data. exact Hmax. }
  rewrite Heq in He, Hd, Hc. cbn [fst snd] in He, Hd, Hc.
  destruct Hs as (f & f' & (Hof & _) & (Hof' & _) & Hino & _ & Hdl & Hcont & _).
  assert (f = fo) as -> by (destruct Hh as (Ho & _); congruence).
  fold data N in Hdl, Hcont.
  split; [exact He|]. split; [congruence|].
  (* the name of the output file still leads to the file the handle is on *)
  destruct (run_keeps sched st0 fo fp Hh)
    as (fo1 & fp1 & (Ho1 & _) & Hio1 & _ & _ & _ & _ & _ & _ & Hnam & _).
  change (run sched st0) with st in Ho1, Hnam.
  assert (HnF0 : os.names (fs (world st0)) !! FilePath (dl w) = Some (os.fino fo)).
  { rewrite Hn0, lookup_insert_ne by congruence. apply lookup_insert_eq. }
  assert (HnF : os.names (fs (world st)) !! FilePath (dl w) = Some (os.fino fo)).
  { rewrite Hnam; [exact HnF0 | congruence]. }
  assert (Hfile : file_at (fs (world st)) (FilePath (dl w)) = out_data (world st)).
  { unfold file_at, os.lookup_path, out_data, os.contents. rewrite HnF, Ho1, Hio1.
    reflexivity. }
  rewrite Hfile, Hc. unfold out_data. rewrite Hof', Hcont.
  f_equal; [|lia].
  rewrite <- Hfa0. unfold file_at, os.lookup_path, os.contents. rewrite HnF0. reflexivity.
Qed.

Lemma resume_files_wf : fs_wf resume_files.
Proof.
  assert (Hcases : forall p i, os.names resume_files !! p = Some i ->
            (p = "f" /\ i = 0%nat) \/ (p = "f.progress" /\ i = 1%nat)).
  { intros p i H. unfold resume_files in H. cbn [os.names] in H.
    apply lookup_insert_Some in H as [[<- <-] | [_ H]]; [auto|].
    apply lookup_singleton_Some in H as [<- <-]. auto. }
  split.
  - intros p i H. destruct (Hcases p i H) as [[_ ->] | [_ ->]]; cbn; lia.
  - intros p q i Hp Hq.
    destruct (Hcases p i Hp) as [[-> ->] | [-> ->]],
             (Hcases q _ Hq) as [[-> Hi] | [-> Hi]]; congruence.
Qed.

Lemma Download_output_contents_witness :
  let st := Download server_206 run_with_tick (fresh_world resume_files) in
  returned st = Some None /\
  Downloaded (dl (world st)) = 10 /\
  file_at (fs (world st)) "f" = list_byte_of_string "0123456789ghijklmnop".
Proof.
  intros st. split; [reflexivity|].
  destruct (Download_output_contents server_206 run_with_tick (fresh_world resume_files)
              None resume_files_wf) as (_ & Hd & Hc);
    [discriminate | reflexivity | reflexivity | vm_compute; discriminate | reflexivity |].
  split; [exact Hd | exact Hc].
Defined.

(** ** Resuming *)

Lemma pwrite_prefix (content old acc : list byte) (pos : nat) :
  old `prefix_of` content -> (pos <= length old)%nat ->
  acc `prefix_of` drop pos content ->
  os.pwrite old pos acc `prefix_of` content /\
  (pos + length acc <= length (os.pwrite old pos acc))%nat.
Proof.
  intros [k ->] Hpos [k' Hacc].
  destruct acc as [|x acc]; [cbn; split; [now exists k | lia]|].
  unfold os.pwrite.
  replace (pos - length old)%nat with 0%nat by lia. cbn [replicate]. rewrite app_nil_r.
  set (a := x :: acc) in *.
  set (o1 := take pos old). set (o2 := drop pos old).
  assert (Hold : old = o1 ++ o2) by (subst o1 o2; now rewrite take_drop).
  assert (Ho1 : length o1 = pos) by (subst o1; rewrite length_take; lia).
  assert (Hd : drop (pos + length a) old = drop (length a) o2).
  { subst o2. now rewrite drop_drop. }
  rewrite Hd.
  assert (Hc : o2 ++ k = a ++ k').
  { rewrite <- Hacc. subst o2. rewrite drop_app_le by lia. reflexivity. }
  split; [|rewrite !length_app, length_drop; lia].
  destruct (Nat.le_gt_cases (length a) (length o2)) as [Hle|Hgt].
  - rewrite <- (take_drop (length a) o2) in Hc. rewrite <- app_assoc in Hc.
    apply app_inj_1 in Hc as [Ha _]; [|rewrite length_take; lia].
    assert (Hao : a ++ drop (length a) o2 = o2)
      by (rewrite <- Ha at 1; apply take_drop).
    rewrite Hao, <- Hold. now exists k.
  - rewrite drop_ge, app_nil_r by lia.
    exists k'. rewrite Hold, <- !app_assoc, Hc. reflexivity.
Qed.

Lemma prefix_drop_app (a b c : list byte) (n : nat) :
  (a ++ b) `prefix_of` drop n c -> b `prefix_of` drop (n + length a) c.
Proof.
  intros [k H]. exists k. rewrite <- drop_drop, H, <- app_assoc, drop_app_length.
  reflexivity.
Qed.

Lemma eq_drop_app (a b c : list byte) (n : nat) :
  a ++ b = drop n c -> b = drop (n + length a) c.
Proof.
  intros H. rewrite <- drop_drop, <- H, drop_app_length. reflexivity.
Qed.

Lemma body_data_taken_cons (r : ReadResult) (rest : list ReadResult) :
  body_data (taken (r :: rest))
  = rdata r ++ match rerr r with None => body_data (taken rest) | Some _ => [] end.
Proof.
  cbn [taken]. destruct (rerr r); [unfold body_data; cbn; reflexivity|].
  apply body_data_cons.
Qed.

(** What a [Write] on the output file leaves in the file. *)
Lemma write_output_contents (data : list byte) (w : World) (fo : os.File) :
  OutputFile (dl w) = Some fo ->
  is_Some (os.inodes (fs w) !! os.fino fo) ->
  let w' := (write_output data w).2 in
  exists fo' acc,
    OutputFile (dl w') = Some fo' /\ os.fino fo' = os.fino fo /\
    is_Some (os.inodes (fs w') !! os.fino fo) /\
    acc `prefix_of` data /\
    os.fpos fo' = (os.fpos fo + length acc)%nat /\
    os.contents (fs w') fo' = os.pwrite (os.contents (fs w) fo) (os.fpos fo) acc /\
    ((write_output data w).1 = None -> acc = data).
Proof.
  intros Ho [nd Hnd] w'. subst w'. unfold write_output. rewrite Ho. unfold os.Write.
  destruct (os.fclosed fo) eqn:Hc; cbn [fst snd dl fs set_OutputFile OutputFile].
  - exists fo, []. split; [reflexivity|]. split; [reflexivity|]. split; [eauto|].
    split; [apply prefix_nil|]. split; [cbn [length]; lia|].
    split; [reflexivity | discriminate].
  - set (x := default None (head (faults w))).
    set (acc := match x with Some (k, _) => take k data | None => data end).
    eexists _, acc. cbn [os.fino os.fpos os.inodes].
    split; [reflexivity|]. split; [reflexivity|].
    split; [rewrite list_lookup_alter_eq, Hnd; eauto|].
    split; [subst acc; destruct x as [[k e]|]; [apply prefix_take | reflexivity]|].
    split; [reflexivity|]. split.
    + unfold os.contents. cbn [os.inodes os.fino].
      rewrite list_lookup_alter_eq, Hnd. reflexivity.
    + subst acc. destruct x as [[k e]|]; [discriminate | reflexivity].
Qed.

(** An action of [Download] keeps the transfer on course. *)
Lemma main_step_on_course (content : list byte) (st : State) :
  on_course content st -> on_course content (main_step st).
Proof.
  intros (fo & Ho & Hin & Hpre & Hpos & HA & HB).
  assert (HB' : engine_result (main_step st) = None ->
                coming st = drop (os.fpos fo) content).
  { intros H. apply HB. rewrite <- (step_engine_result Main st). exact H. }
  revert HB'. clear HB. unfold main_step, on_course.
  unfold coming_all, coming in *.
  destruct (main st) as [|r|r|e|e|e|e] eqn:Hm.
  - (* Read *)
    destruct (body st) as [|r rest] eqn:Hb.
    + intros HB. exists fo. cbn. repeat split; auto; try apply prefix_nil; try (cbn; discriminate).
    + rewrite body_data_taken_cons. rewrite body_data_cons in HA.
      destruct (Z.ltb_spec 0 (Z.of_nat (length (rdata r)))) as [Hn|Hn].
      * intros HB. exists fo. cbn. repeat split; auto.
      * assert (Hnil : rdata r = [])
          by (destruct (rdata r); [reflexivity | cbn in Hn; lia]).
        rewrite Hnil in *. cbn [app] in *. unfold after_chunk.
        destruct (rerr r) as [e|]; [destruct (is_EOF e)|];
          intros HB; exists fo;
          cbn [world set_world set_main set_body main body pass_time set_clock
               dl fs OutputFile];
          repeat split; auto; try apply prefix_nil; try (cbn; discriminate).
  - (* Write *)
    destruct (write_output_contents (rdata r) (world st) fo Ho Hin)
      as (fo' & acc & Ho' & Hino & Hin' & Hacc & Hfpos & Hcont & Hfull).
    destruct (write_output (rdata r) (world st)) as [e w'] eqn:Hw. cbn [fst snd] in *.
    assert (Haccp : acc `prefix_of` drop (os.fpos fo) content).
    { etransitivity; [exact Hacc|]. etransitivity; [|exact HA]. now apply prefix_app_r. }
    destruct (pwrite_prefix content _ acc (os.fpos fo) Hpre Hpos Haccp) as [Hp1 Hp2].
    destruct e as [e|]; cbn [non_nil]; intros HB; exists fo';
      cbn [world set_world set_main main body]; rewrite Hino, Hcont, Hfpos.
    + repeat split; auto; try apply prefix_nil. cbn. discriminate.
    + specialize (Hfull eq_refl). subst acc.
      repeat split; auto.
      * apply prefix_drop_app, HA.
      * intros H. apply eq_drop_app, HB, H.
  - (* Add *)
    unfold after_chunk.
    destruct (rerr r) as [e|]; [destruct (is_EOF e)|];
      intros HB; exists fo;
      cbn [world set_world set_main main body add_downloaded set_dl dl
           fs OutputFile set_Downloaded];
      repeat split; auto; try apply prefix_nil; try (cbn; discriminate).
  - (* Returned *)
    intros HB. exists fo. destruct e as [e|]; cbn [non_nil];
      cbn [world set_world set_main main body set_fs dl fs OutputFile].
    + repeat split; auto.
    + unfold os.Remove.
      destruct (os.names (fs (world st)) !! ProgressPath (dl (world st))); cbn;
        repeat split; auto.
  - (* Close the progress file *)
    intros HB. unfold close_progress, on_progress.
    destruct (ProgressFile (dl (world st))) as [fp|];
      exists fo; cbn; repeat split; auto.
  - (* Close the output file *)
    intros HB. unfold close_output. rewrite Ho.
    assert (Hf : os.fino (os.Close fo).2 = os.fino fo
                 /\ os.fpos (os.Close fo).2 = os.fpos fo)
      by (unfold os.Close; destruct (os.fclosed fo); split; reflexivity).
    destruct Hf as [Hf Hq].
    exists (os.Close fo).2. cbn [world set_world set_main main body set_dl dl fs
                                 OutputFile set_OutputFile].
    unfold os.contents in *. rewrite Hf, Hq. repeat split; auto.
  - intros HB. exists fo. rewrite Hm. repeat split; auto.
Qed.

(** No action of either goroutine takes the transfer off course. *)
Lemma step_on_course (content : list byte) (a : Actor) (st : State) (fo fp : os.File) :
  handles st fo fp -> on_course content st -> on_course content (step a st).
Proof.
  intros Hh Hc.
  assert (Ha : a = Main \/ a <> Main) by (destruct a; [left | right ..]; congruence).
  destruct Ha as [->|Hne]; [apply main_step_on_course, Hc|].
  destruct (step_keeps_step a st fo fp Hh)
    as (fo' & fp' & (Ho' & _) & _ & _ & _ & _ & _ & _ & _ & _ & _ & _ & _ & _ & Hrep).
  destruct (Hrep Hne) as (-> & Hm & Hb & _ & _ & _ & Hi).
  destruct Hc as (fo1 & Ho1 & Hin & Hpre & Hpos & HA & HB).
  assert (fo1 = fo) as -> by (destruct Hh as (Ho & _); congruence).
  exists fo. unfold coming_all, coming, os.contents in *.
  rewrite Hm, Hb, Hi, step_engine_result. repeat split; assumption.
Qed.

Lemma DownloadChunks_None_verdict (body : list ReadResult) (w : World) :
  (DownloadChunks body w).1 = None -> read_verdict body = None.
Proof.
  revert w. induction body as [|r body IH]; intros w; [reflexivity|].
  cbn [DownloadChunks read_verdict].
  destruct (0 <? Z.of_nat (length (rdata r))).
  - destruct (write_output (rdata r) (pass_time (rtime r) w)) as [e1 w1].
    destruct e1 as [e|]; cbn [non_nil]; [discriminate|].
    destruct (rerr r) as [e|]; [destruct (is_EOF e); [reflexivity | discriminate]|].
    apply IH.
  - destruct (rerr r) as [e|]; [destruct (is_EOF e); [reflexivity | discriminate]|].
    apply IH.
Qed.

Lemma CreateRequest_header (env : Env) (w w1 : World) (req : Request) :
  CreateRequest env w = (Some req, None, w1) ->
  UseProgressFile (dl w) = true ->
  Header req !! "Range"
  = if 0 <? Downloaded (dl w1) then Some (range_from (Downloaded (dl w1))) else None.
Proof.
  unfold CreateRequest, NewRequest. intros H Huse.
  destruct (url_ok env (Url (dl w))); [|discriminate H]. rewrite Huse in H.
  destruct (0 <? Downloaded (dl (ReadProgress w))) eqn:Hpos;
    injection H as <- <-; rewrite Hpos; cbn [Header HeaderSet].
  - apply lookup_insert_eq.
  - apply lookup_empty.
Qed.

(** The loop starts only after an answer 200 or 206, and after 206 when a
    resume was asked for. *)
Lemma Download_start_status (env : Env) (w w1 : World) (req : Request) (resp : Response) :
  returned (Download_start env w) = None ->
  CreateRequest env w = (Some req, None, w1) ->
  Do env req = inl resp ->
  (StatusCode resp = StatusOK \/ StatusCode resp = StatusPartialContent) /\
  (0 < Downloaded (dl w1) -> StatusCode resp = StatusPartialContent).
Proof.
  intros H Hcr Hdo. unfold Download_start in H. rewrite Hcr, Hdo in H.
  destruct (Z.eqb_spec (StatusCode resp) StatusOK) as [H200|H200],
           (Z.eqb_spec (StatusCode resp) StatusPartialContent) as [H206|H206];
    cbn [negb andb] in H; try discriminate H.
  - split; [auto|]. intros _. exact H206.
  - split; [auto|]. intros Hpos. destruct (Z.ltb_spec 0 (Downloaded (dl w1))); [|lia].
    cbn [andb] in H. discriminate H.
  - split; [auto|]. intros _. exact H206.
Qed.

Lemma prefix_length_eq_full (a c : list byte) :
  a `prefix_of` c -> (length c <= length a)%nat -> a = c.
Proof.
  intros [k ->] H. rewrite length_app in H. destruct k; [now rewrite app_nil_r|].
  cbn in H. lia.
Qed.

(** The file system a run leaves, at whatever moment, can be resumed from;
    and a run that returns nil leaves the whole content. *)
Lemma Download_resumable (env : Env) (sched : list Actor) (w : World)
    (content : list byte) :
  honest env content ->
  Z.of_nat (length content) <= int64_max ->
  UseProgressFile (dl w) = true ->
  ProgressPath (dl w) = FilePath (dl w) +:+ ".progress" ->
  resumable content (FilePath (dl w)) (fs w) ->
  let st := Download env sched w in
  resumable content (FilePath (dl w)) (fs (world st)) /\
  (returned st = Some None -> file_at (fs (world st)) (FilePath (dl w)) = content).
Proof.
  intros Hhon Hsize Huse HPdef (Hwf & Hpre & Hbase) st.
  rewrite <- HPdef in Hbase.
  assert (Hne : FilePath (dl w) <> ProgressPath (dl w))
    by (rewrite HPdef; apply path_ne_progress).
  unfold resumable. rewrite <- HPdef.
  set (F := FilePath (dl w)) in *. set (P := ProgressPath (dl w)) in *.
  subst st. unfold Download.
  destruct (returned (Download_start env w)) as [err|] eqn:Hret.
  { (* a return before the loop *)
    destruct (Download_start_exit env w err Hret) as (e & w0 & -> & _).
    destruct (Download_start_exit_files env w _ Hret) as (w' & -> & Hfs & _).
    rewrite run_exit. cbn [exit world returned main]. split; [|discriminate].
    destruct Hfs as [-> | (f & Ho)]; [auto|].
    destruct (OpenFile_effect _ _ _ _ Hwf Ho) as (Hwf' & _ & _ & _ & _ & _ & Hfa & Hba).
    rewrite !Hfa, Hba. auto. }
  set (st0 := Download_start env w) in *.
  destruct (Download_start_files env w Hwf Hne Hret)
    as (fo & fp & Hh & Hco & _ & _ & HN0 & HposN & Hwf0 & Hn0 & _ & Hndo & (ndp & Hndp & Hpp)
        & Hfa0 & _ & HP & _ & _ & Hm0 & _ & HN).
  fold st0 in Hh, HN0, HposN, Hwf0, Hn0, Hndo, Hndp, Hfa0, HP, Hm0, HN.
  fold F P in Hn0, HP, HN. specialize (HN Huse).
  set (N := Downloaded (dl (world st0))) in *.
  destruct (Download_start_running env w Hret)
    as (req & w1 & resp & fo0 & s1 & fp0 & s2 & Hcr & Hdo & _ & _ & _ & Hrun).
  fold st0 in Hrun. destruct Hrun as (_ & _ & _ & Hb0 & _ & _ & _ & _ & HdN & _).
  fold N in HdN.
  destruct (Download_start_status env w w1 req resp Hret Hcr Hdo) as [Hstat H206].
  pose proof (CreateRequest_header env w w1 req Hcr Huse) as Hhdr.
  rewrite <- HdN in Hhdr, H206.
  assert (HnF0 : os.names (fs (world st0)) !! F = Some (os.fino fo)).
  { rewrite Hn0, lookup_insert_ne by congruence. apply lookup_insert_eq. }
  assert (HnP0 : os.names (fs (world st0)) !! P = Some (os.fino fp)).
  { rewrite Hn0. apply lookup_insert_eq. }
  assert (Hc0 : os.contents (fs (world st0)) fo = file_at (fs w) F).
  { rewrite <- Hfa0. unfold file_at, os.lookup_path, os.contents. now rewrite HnF0. }
  assert (HNle : N <= Z.of_nat (length (file_at (fs w) F))) by (rewrite HN; exact Hbase).
  assert (HNc : N <= Z.of_nat (length content)).
  { apply prefix_length in Hpre. lia. }
  (* what the server sends *)
  assert (Hdel : delivers (body st0) (drop (Z.to_nat N) content)).
  { rewrite Hb0. destruct (Hhon req resp Hdo) as [Hwhole Hpart].
    destruct (Z.ltb_spec 0 N) as [Hpos|Hzero].
    - apply (Hpart N Hpos Hhdr), H206, Hpos.
    - replace N with 0 by lia. cbn [Z.to_nat drop]. apply Hwhole; assumption. }
  destruct Hdel as [Hall Hwhole].
  (* the invariants at the start of the loop *)
  assert (Hcourse0 : on_course content st0).
  { destruct Hh as (Ho & _). exists fo.
    split; [exact Ho|]. split; [destruct Hndo as (nd & -> & _); eauto|].
    rewrite Hc0. split; [exact Hpre|]. split; [lia|].
    unfold coming_all, coming, engine_result. rewrite Hm0.
    replace (os.fpos fo) with (Z.to_nat N) by lia.
    split; [exact Hall|]. intros He. apply Hwhole.
    eapply DownloadChunks_None_verdict, He. }
  assert (Hmax : N + body_bytes (body st0) <= int64_max).
  { apply prefix_length in Hall. rewrite length_drop in Hall.
    unfold body_bytes. lia. }
  destruct (Download_start_sound env w Hwf Hne Huse Hret Hmax) as [Hsound0 _].
  fold st0 in Hsound0.
  (* the run *)
  pose proof (run_invariant _ step_sound sched st0 Hsound0) as Hsound.
  apply progress_sound_cursor in Hsound as [Hval Hcur].
  assert (Hinv : (exists fo fp, handles (run sched st0) fo fp) /\
                 on_course content (run sched st0)).
  { apply (run_invariant
             (fun s => (exists fo fp, handles s fo fp) /\ on_course content s)).
    - intros a s ((fo1 & fp1 & Hh1) & Hc1).
      destruct (step_keeps_step a s fo1 fp1 Hh1) as (fo2 & fp2 & Hh2 & _).
      split; [eauto | eapply step_on_course; eassumption].
    - split; [eauto | exact Hcourse0]. }
  destruct Hinv as [_ (fo1 & Ho1 & _ & Hpre1 & Hpos1 & _ & HB1)].
  destruct (run_keeps sched st0 fo fp Hh)
    as (fo2 & fp2 & (Ho2 & Hp2 & _) & Hio2 & Hip2 & _ & _ & Hlen & _ & Hperm & Hnam & HnP & _).
  rewrite HP in Hnam, HnP.
  set (st := run sched st0) in *.
  assert (fo2 = fo1) as -> by congruence.
  assert (HnF : os.names (fs (world st)) !! F = Some (os.fino fo)).
  { rewrite Hnam by congruence. exact HnF0. }
  assert (Hfile : file_at (fs (world st)) F = os.contents (fs (world st)) fo1).
  { unfold file_at, os.lookup_path, os.contents. now rewrite HnF, Hio2. }
  rewrite Hfile.
  split; [split; [|split]|].
  - (* a file per name *)
    destruct Hwf0 as [Hrange Hinj].
    assert (Hsub : forall q i, os.names (fs (world st)) !! q = Some i ->
              os.names (fs (world st0)) !! q = Some i).
    { intros q i Hq. destruct (decide (q = P)) as [->|Hq'].
      - destruct HnP as [HnP|HnP]; congruence.
      - now rewrite <- Hnam. }
    split.
    + intros q i Hq. rewrite Hlen. eapply Hrange, Hsub, Hq.
    + intros q1 q2 i H1 H2. eapply Hinj; eapply Hsub; eassumption.
  - exact Hpre1.
  - (* the progress file does not point past the end *)
    assert (Hout : out_pos (world st) = Z.of_nat (os.fpos fo1))
      by (unfold out_pos; now rewrite Ho1).
    destruct HnP as [HnP|HnP].
    + specialize (Hperm (os.fino fp)). rewrite Hndp in Hperm. cbn in Hperm.
      destruct (os.inodes (fs (world st)) !! os.fino fp) as [nd|] eqn:Hnd;
        [|discriminate Hperm].
      injection Hperm as Hperm.
      rewrite (baseline_value_of _ P nd);
        [| unfold os.lookup_path; now rewrite HnP, HnP0 | congruence].
      assert (Hsv : sidecar_value (world st) = value_of (os.idata nd)).
      { unfold sidecar_value, os.contents. now rewrite Hp2, Hip2, Hnd. }
      lia.
    + unfold baseline, progress_state, os.lookup_path. rewrite HnP. lia.
  - (* a run that returns nil has it all *)
    intros Hdone. unfold returned in Hdone.
    destruct (main st) eqn:Hm; try discriminate Hdone. injection Hdone as ->.
    unfold engine_result, coming in HB1. rewrite Hm in HB1. specialize (HB1 eq_refl).
    apply prefix_length_eq_full; [exact Hpre1|].
    symmetry in HB1. apply (f_equal length) in HB1. rewrite length_drop in HB1.
    cbn in HB1. lia.
Qed.

(** X14.  Resuming is sound.  Take a server that has some content and
    honours [Range], and a file system in which the output file is a
    beginning of the content and the progress file does not point past the
    end of the output file: one without either file, for a start.  Run the
    program and stop it at whatever moment, under whatever schedule of ticks
    and whatever the device does with the writes: the file system is again
    of that kind, so that a next run can pick it up; and when [Download]
    returns nil, the output file is the content, all of it and nothing
    else. *)
Theorem main_resumes (args : list string) (env : Env) (sched : list Actor)
    (s : os.FS) (fl : list os.WFault) (t : Z) (content : list byte) (path : string)
    (st : State) :
  honest env content ->
  Z.of_nat (length content) <= int64_max ->
  args !! 2%nat = Some path ->
  resumable content path s ->
  medow.main args env sched s fl t = Some st ->
  resumable content path (fs (world st)) /\
  (returned st = Some None -> file_at (fs (world st)) path = content).
Proof.
  intros Hhon Hsize Hpath Hres Hmain. unfold medow.main in Hmain.
  rewrite Hpath in Hmain.
  destruct (args !! 1%nat) as [url|]; [|discriminate Hmain].
  injection Hmain as <-.
  apply (Download_resumable env sched (mkWorld (NewDownloader url path true) s fl t)
           content Hhon Hsize eq_refl eq_refl Hres).
Qed.

Lemma append_inj_r (x y : string) (c : ascii) :
  x +:+ String c EmptyString = y +:+ String c EmptyString -> x = y.
Proof.
  revert y. induction x as [|a x IH]; intros [|b y] H; simpl in H.
  - reflexivity.
  - injection H as _ H. destruct y; discriminate H.
  - injection H as _ H. destruct x; discriminate H.
  - injection H as -> H. f_equal. apply IH, H.
Qed.

Lemma range_from_inj (n m : Z) : range_from n = range_from m -> n = m.
Proof.
  unfold range_from. intros H. apply String.app_inj in H. apply append_inj_r in H.
  unfold strconv.FormatInt in H.
  apply DecimalZ.to_int_inj.
  pose proof (NilEmpty.isi (Z.to_int n)) as Hn. rewrite H, NilEmpty.isi in Hn.
  congruence.
Qed.

Lemma ten_byte_server_honest :
  honest ten_byte_server (list_byte_of_string "0123456789").
Proof.
  intros req resp Hdo. unfold ten_byte_server in Hdo. cbn [Do] in Hdo. split.
  - intros Hnone _. rewrite Hnone in Hdo. injection Hdo as <-. cbn [Body].
    split; [reflexivity|]. intros _. reflexivity.
  - intros n Hn Hsome H206. rewrite Hsome in Hdo.
    destruct (String.eqb_spec (range_from n) "bytes=4-") as [Heq|Hne].
    + injection Hdo as <-. cbn [Body].
      change "bytes=4-"%string with (range_from 4) in Heq.
      apply range_from_inj in Heq. subst n.
      split; [reflexivity|]. intros _. reflexivity.
    + injection Hdo as <-. discriminate H206.
Qed.

Lemma no_files_resumable (content : list byte) (path : string) :
  resumable content path no_files.
Proof.
  split; [apply no_files_wf|]. split; [apply prefix_nil | reflexivity].
Qed.

Lemma main_resumes_witness :
  let content := list_byte_of_string "0123456789" in
  let st := Download ten_byte_server run_with_tick (fresh_world interrupted) in
  file_at interrupted "f" = list_byte_of_string "0123" /\
  file_at interrupted "f.progress" = list_byte_of_string "4" /\
  returned st = Some None /\
  file_at (fs (world st)) "f" = content.
Proof.
  intros content st.
  split; [reflexivity|]. split; [reflexivity|]. split; [reflexivity|].
  assert (Hsize : Z.of_nat (length content) <= int64_max) by (vm_compute; discriminate).
  destruct (main_resumes ["medow"; "http://host/f"; "f"] ten_byte_server
              tick_after_first_chunk no_files [] 0 content "f" _
              ten_byte_server_honest Hsize eq_refl (no_files_resumable content "f")
              eq_refl) as [Hres _].
  destruct (main_resumes ["medow"; "http://host/f"; "f"] ten_byte_server
              run_with_tick interrupted [] 0 content "f" st
              ten_byte_server_honest Hsize eq_refl Hres eq_refl) as [_ Hdone].
  apply Hdone. reflexivity.
Defined.

(** ** The counter and the announced size *)

Lemma to_write_after_chunk (r : ReadResult) : to_write (after_chunk r) = 0.
Proof. destruct (after_chunk_cases r) as [-> | [e ->]]; reflexivity. Qed.

(** No action moves the cursor of the output file past what the body
    carries, and none changes [TotalSize]. *)
Lemma step_reach (a : Actor) (st : State) :
  reach (step a st) <= reach st /\
  TotalSize (dl (world (step a st))) = TotalSize (dl (world st)).
Proof.
  unfold reach. destruct a; cbn [step].
  - unfold main_step. destruct (main st) as [|r|r|e|e|e|e] eqn:Hm.
    + destruct (body st) as [|r rest] eqn:Hb; [cbn; rewrite Hb; split; [lia | reflexivity]|].
      rewrite body_bytes_cons.
      destruct (Z.ltb_spec 0 (Z.of_nat (length (rdata r)))) as [Hn|Hn];
        cbn [world body main set_main set_body set_world]; rewrite ?to_write_after_chunk;
        cbn [to_write]; (split; [|reflexivity]);
        change (out_pos (pass_time (rtime r) (world st))) with (out_pos (world st)); lia.
    + cbn [to_write].
      assert (Hw : out_pos (write_output (rdata r) (world st)).2
                   <= out_pos (world st) + Z.of_nat (length (rdata r)) /\
                   TotalSize (dl (write_output (rdata r) (world st)).2)
                   = TotalSize (dl (world st))).
      { unfold out_pos. destruct (OutputFile (dl (world st))) as [fo|] eqn:Ho.
        - destruct (write_output_effect (rdata r) (world st) fo Ho)
            as (fo' & -> & _ & Hpos & _).
          split; [lia|]. unfold write_output. rewrite Ho.
          destruct (os.Write _ _ _ _) as [[[? ?] ?] ?]. reflexivity.
        - unfold write_output. rewrite Ho. cbn. rewrite Ho. split; [lia | reflexivity]. }
      destruct (write_output (rdata r) (world st)) as [e w']. cbn [snd] in Hw.
      destruct (non_nil e); cbn [world body main set_main set_world to_write];
        (split; [lia | apply Hw]).
    + cbn [world body main set_main set_world]. rewrite to_write_after_chunk.
      cbn [to_write]. split; [|reflexivity].
      change (out_pos (add_downloaded _ (world st))) with (out_pos (world st)). lia.
    + cbn [world body main set_main set_world to_write]. split; [|destruct (non_nil e); reflexivity].
      destruct (non_nil e); [lia|].
      change (out_pos (set_fs _ (world st))) with (out_pos (world st)). lia.
    + cbn [world body main set_main set_world to_write].
      unfold close_progress, on_progress.
      destruct (ProgressFile (dl (world st))); split; try reflexivity;
        unfold out_pos; cbn; lia.
    + cbn [world body main set_main set_world to_write].
      unfold close_output, out_pos.
      destruct (OutputFile (dl (world st))) as [fo|] eqn:Ho; rewrite ?Ho;
        (split; [|reflexivity]); cbn; [|lia].
      unfold os.Close. destruct (os.fclosed fo); cbn; lia.
    + rewrite Hm. split; [lia | reflexivity].
  - pose proof (reporter_step_frame st) as (Hm & Hb & _ & _ & Ho & _).
    unfold out_pos. rewrite Hm, Hb, Ho. split; [lia|].
    unfold reporter_step. destruct (reporter st); try reflexivity.
    + cbn. destruct (ProgressFile (dl (world st))); reflexivity.
    + cbn. unfold on_progress. destruct (ProgressFile (dl (world st))); reflexivity.
    + cbn. unfold on_progress. destruct (ProgressFile (dl (world st))); [|reflexivity].
      destruct (os.Truncate _ _ _); reflexivity.
    + cbn. unfold on_progress. destruct (ProgressFile (dl (world st))); [|reflexivity].
      destruct (os.Write _ _ _ _) as [[[? ?] ?] ?]; reflexivity.
    + cbn. unfold on_progress. destruct (ProgressFile (dl (world st))); [|reflexivity].
      destruct (os.Sync _ _); reflexivity.
  - pose proof (reporter_stop_frame st) as (Hw & Hm & Hb).
    rewrite Hw, Hm, Hb. split; [lia | reflexivity].
Qed.

(** [TotalSize] when the loop starts: the resume offset plus the announced
    length of the body. *)
Lemma Download_start_total (env : Env) (w w1 : World) (req : Request) (resp : Response)
    (c : Z) :
  CreateRequest env w = (Some req, None, w1) ->
  Do env req = inl resp ->
  Get (RespHeader resp) "Content-Length" <> EmptyString ->
  strconv.ParseInt (Get (RespHeader resp) "Content-Length") = (c, None) ->
  returned (Download_start env w) = None ->
  TotalSize (dl (world (Download_start env w))) = wrap64 (Downloaded (dl w1) + c).
Proof.
  intros Hcr Hdo Hne Hparse. unfold Download_start. rewrite Hcr, Hdo.
  destruct (negb (StatusCode resp =? StatusOK)
            && negb (StatusCode resp =? StatusPartialContent)); [discriminate|].
  destruct ((0 <? Downloaded (dl w1)) && negb (StatusCode resp =? StatusPartialContent));
    [discriminate|].
  destruct (String.eqb_spec (Get (RespHeader resp) "Content-Length") EmptyString)
    as [Heq|_]; [contradiction|].
  rewrite Hparse. cbn [non_nil].
  destruct (os.OpenFile _ _) as [[[fo0|] [e1|]] s1]; try discriminate.
  cbn [dl set_dl set_fs Downloaded set_OutputFile fs ProgressPath set_TotalSize].
  destruct (os.Seek fo0 _) as [[z [e2|]] fo1]; cbn [non_nil]; [discriminate|].
  cbn [dl set_dl set_fs Downloaded set_OutputFile fs ProgressPath set_TotalSize].
  destruct (os.OpenFile s1 _) as [[[fp|] [e3|]] s2]; try discriminate.
  intros _. reflexivity.
Qed.

(** X15.  The counter stays within the announced size.  With
    [UseProgressFile] set, as [main] sets it, when the answer carries a
    [Content-Length] that parses and the body carries no more bytes than it
    announces, [TotalSize] is the resume offset plus that length from
    the start of the loop on, and at every moment of every schedule
    [0 <= Downloaded <= TotalSize]: the progress shown never passes the
    whole. *)
Theorem Downloaded_within_TotalSize (env : Env) (sched : list Actor) (w w1 : World)
    (req : Request) (resp : Response) (c : Z) :
  fs_wf (fs w) ->
  FilePath (dl w) <> ProgressPath (dl w) ->
  UseProgressFile (dl w) = true ->
  CreateRequest env w = (Some req, None, w1) ->
  Do env req = inl resp ->
  Get (RespHeader resp) "Content-Length" <> EmptyString ->
  strconv.ParseInt (Get (RespHeader resp) "Content-Length") = (c, None) ->
  body_bytes (Body resp) <= c ->
  Downloaded (dl w1) + c <= int64_max ->
  returned (Download_start env w) = None ->
  let st := Download env sched w in
  TotalSize (dl (world st)) = Downloaded (dl w1) + c /\
  0 <= Downloaded (dl (world st)) <= TotalSize (dl (world st)).
Proof.
  intros Hwf Hne Huse Hcr Hdo Hlen Hparse Hbody Hmax Hret st.
  set (st0 := Download_start env w) in *.
  pose proof (Download_start_total env w w1 req resp c Hcr Hdo Hlen Hparse Hret) as Ht0.
  fold st0 in Ht0.
  destruct (Download_start_running env w Hret)
    as (req' & w1' & resp' & fo0 & s1 & fp0 & s2 & Hcr' & Hdo' & _ & Hd0 & _ & Hrun).
  fold st0 in Hrun. rewrite Hcr in Hcr'. injection Hcr' as <- <-.
  rewrite Hdo in Hdo'. injection Hdo' as <-.
  destruct Hrun as (Hm0 & _ & _ & Hb0 & _ & _ & Hout0 & _ & HdN & _).
  assert (Hmax0 : Downloaded (dl (world st0)) + body_bytes (body st0) <= int64_max)
    by (rewrite HdN, Hb0; lia).
  destruct (Download_start_sound env w Hwf Hne Huse Hret Hmax0) as [Hsound0 Hpos0].
  fold st0 in Hsound0, Hpos0.
  pose proof (run_invariant _ step_sound sched st0 Hsound0) as Hsound.
  pose proof (run_invariant
                (fun s => reach s <= reach st0 /\
                          TotalSize (dl (world s)) = TotalSize (dl (world st0)))
                (fun a s H => conj (Z.le_trans _ _ _ (proj1 (step_reach a s)) (proj1 H))
                                   (eq_trans (proj2 (step_reach a s)) (proj2 H)))
                sched st0 (conj (Z.le_refl _) eq_refl)) as [Hreach Htot].
  change (run sched st0) with st in Hsound, Hreach, Htot.
  pose proof (body_bytes_nonneg (Body resp)) as Hbb.
  rewrite wrap64_id in Ht0
    by (unfold in_int64, int64_min, int64_max in *; lia).
  rewrite Htot, Ht0. split; [reflexivity|].
  destruct (progress_sound_cursor st Hsound) as [_ Hcur].
  destruct Hsound as (fo & fp & _ & _ & _ & _ & Hnonneg & _).
  split; [exact Hnonneg|].
  unfold reach in Hreach. rewrite Hm0, Hb0, Hpos0, HdN in Hreach. cbn [to_write] in Hreach.
  pose proof (body_bytes_nonneg (body st)).
  assert (0 <= to_write (main st)) by (destruct (main st); cbn; lia).
  lia.
Qed.

Lemma Downloaded_within_TotalSize_witness :
  let st := Download server_206 tick_after_first_chunk (fresh_world resume_files) in
  TotalSize (dl (world st)) = 10 /\ 0 <= Downloaded (dl (world st)) <= 10.
Proof.
  intros st.
  edestruct (Downloaded_within_TotalSize server_206 tick_after_first_chunk
               (fresh_world resume_files)) as [Ht Hd];
    [apply resume_files_wf | discriminate | reflexivity | reflexivity | reflexivity
    | discriminate | reflexivity | vm_compute; discriminate | vm_compute; discriminate
    | reflexivity |].
  fold st in Ht, Hd. rewrite Ht in Hd. split; [exact Ht | exact Hd].
Defined.

(** ** [Download] and the reporter's pace *)

(** X16.  [Download] never waits for the reporter.  Once its own goroutine
    has taken three actions for every read of the body and four more (the
    last read, the removal of the progress file and the two deferred closes),
    [Download] has returned, however many actions of the reporter the
    schedule puts in between, and whether the reporter runs at all. *)
Theorem Download_never_waits (env : Env) (sched : list Actor) (w : World) :
  (3 * length (body (Download_start env w)) + 4 <= main_actions sched)%nat ->
  exists err, returned (Download env sched w) = Some err.
Proof.
  intros Hn. apply Download_returns.
  etransitivity; [|exact Hn].
  unfold main_measure.
  destruct (returned (Download_start env w)) as [err|] eqn:Hret.
  - unfold returned in Hret. destruct (main (Download_start env w)); try discriminate Hret.
    lia.
  - destruct (Download_start_running env w Hret) as (? & ? & ? & ? & ? & ? & ? & H).
    destruct H as (_ & _ & _ & _ & _ & Hm & _). rewrite Hm. lia.
Qed.

Lemma Download_never_waits_witness :
  exists err, returned (Download server_200 run_with_tick ten_bytes) = Some err.
Proof.
  apply (Download_never_waits server_200 run_with_tick ten_bytes).
  vm_compute. lia.
Defined.

(** ** After the return *)

(** On return the progress file, if it was opened, is closed. *)
Lemma Download_returned_closed (env : Env) (sched : list Actor) (w : World)
    (err : option error) :
  ProgressFile (dl w) = None ->
  returned (Download env sched w) = Some err ->
  forall f, ProgressFile (dl (world (Download env sched w))) = Some f -> os.fclosed f = true.
Proof.
  intros Hnp Hret. unfold Download in *.
  destruct (returned (Download_start env w)) as [err0|] eqn:Hret0.
  - destruct (Download_start_exit_files env w err0 Hret0) as (w' & -> & _ & _ & Hp).
    rewrite run_exit. cbn [exit world]. rewrite Hnp in Hp.
    intros f Hf. destruct Hp as [Hp | Hp]; congruence.
  - assert (H0 : closed_so_far (Download_start env w)).
    { destruct (Download_start_running env w Hret0)
        as (? & ? & ? & ? & ? & fp & ? & _ & _ & _ & _ & _ & H).
      destruct H as (Hm & _ & _ & _ & _ & _ & Hout & Hpf & _).
      eexists _, fp. rewrite Hm. repeat split; eassumption. }
    pose proof (run_invariant _ step_closed_so_far sched _ H0) as (fo & fp & Ho & Hp & Hc).
    unfold returned in Hret.
    destruct (main (run sched (Download_start env w))); try discriminate Hret.
    destruct Hc as [Hcp Hco]. intros f Hf. congruence.
Qed.

(** Once [Download] has returned and closed the progress file, no action
    changes the file system or the counter. *)
Lemma step_settled (a : Actor) (st : State) (err : option error) :
  main st = MDone err ->
  (forall f, ProgressFile (dl (world st)) = Some f -> os.fclosed f = true) ->
  main (step a st) = MDone err /\
  (forall f, ProgressFile (dl (world (step a st))) = Some f -> os.fclosed f = true) /\
  fs (world (step a st)) = fs (world st) /\
  Downloaded (dl (world (step a st))) = Downloaded (dl (world st)).
Proof.
  intros Hm Hcl. destruct a; cbn [step].
  - unfold main_step. rewrite Hm. auto.
  - assert (Hkeep : forall (op : os.FS -> os.File -> os.FS * os.File) pc,
              (forall s f, os.fclosed f = true -> op s f = (s, f)) ->
              let st' := set_reporter pc (set_world (on_progress op (world st)) st) in
              main st' = MDone err /\
              (forall f, ProgressFile (dl (world st')) = Some f -> os.fclosed f = true) /\
              fs (world st') = fs (world st) /\
              Downloaded (dl (world st')) = Downloaded (dl (world st))).
    { intros op pc Hop. cbn. unfold on_progress.
      destruct (ProgressFile (dl (world st))) as [f|] eqn:Hp.
      - rewrite (Hop (fs (world st)) f (Hcl f eq_refl)). cbn.
        repeat split; auto; try (intros f' [= <-]; auto).
      - repeat split; auto; try (rewrite Hp; discriminate). }
    unfold reporter_step. destruct (reporter st); try apply Hkeep.
    + auto.
    + cbn. destruct (ProgressFile (dl (world st))) eqn:Hp; cbn; rewrite ?Hp;
        repeat split; auto.
    + intros s f Hf. unfold os.Seek. now rewrite Hf.
    + intros s f Hf. unfold os.Truncate. now rewrite Hf.
    + intros s f Hf. unfold os.Write. now rewrite Hf.
    + intros s f Hf. unfold os.Sync. now rewrite Hf.
    + auto.
  - pose proof (reporter_stop_frame st) as (Hw & Hm' & _).
    rewrite Hw, Hm'. auto.
Qed.

(** X17.  The reporter that outlives [Download] can do no harm to the
    files.  Once [Download] has returned, whatever it returned, nothing that
    happens afterwards changes the file system or the counter: the ticks that
    still come work on a closed handle and write nothing. *)
Theorem Download_returned_settled (env : Env) (sched later : list Actor) (w : World)
    (err : option error) :
  ProgressFile (dl w) = None ->
  returned (Download env sched w) = Some err ->
  let st := Download env sched w in
  let st' := Download env (sched ++ later) w in
  returned st' = Some err /\
  fs (world st') = fs (world st) /\
  Downloaded (dl (world st')) = Downloaded (dl (world st)).
Proof.
  intros Hnp Hret st st'.
  pose proof (Download_returned_closed env sched w err Hnp Hret) as Hcl. fold st in Hcl.
  assert (Hm : main st = MDone err).
  { fold st in Hret. unfold returned in Hret. destruct (main st); congruence. }
  assert (Hst' : st' = run later st) by (subst st st'; unfold Download; apply run_app).
  rewrite Hst'.
  assert (Hinv : main (run later st) = MDone err /\
                 (forall f, ProgressFile (dl (world (run later st))) = Some f ->
                            os.fclosed f = true) /\
                 fs (world (run later st)) = fs (world st) /\
                 Downloaded (dl (world (run later st))) = Downloaded (dl (world st))).
  { apply (run_invariant
             (fun s => main s = MDone err /\
                       (forall f, ProgressFile (dl (world s)) = Some f ->
                                  os.fclosed f = true) /\
                       fs (world s) = fs (world st) /\
                       Downloaded (dl (world s)) = Downloaded (dl (world st)))).
    - intros a s (Hms & Hcs & Hfs & Hds).
      destruct (step_settled a s err Hms Hcs) as (Hm1 & Hc1 & Hf1 & Hd1).
      repeat split; auto; congruence.
    - auto. }
  destruct Hinv as (Hm' & _ & Hfs & Hd).
  unfold returned. rewrite Hm'. auto.
Qed.

Lemma Download_returned_settled_witness :
  let st := Download server_200 (replicate 7 Main) ten_bytes in
  let st' := Download server_200 (replicate 7 Main ++ replicate 3 Reporter) ten_bytes in
  returned st' = Some None /\
  fs (world st') = fs (world st) /\
  Downloaded (dl (world st')) = Downloaded (dl (world st)).
Proof.
  apply (Download_returned_settled server_200 (replicate 7 Main) (replicate 3 Reporter)
           ten_bytes None); reflexivity.
Defined.

(** ** A tick while [Download] runs *)

(** A closed handle stays closed. *)
Lemma progress_closed_step (a : Actor) (st : State) :
  progress_closed (world st) -> progress_closed (world (step a st)).
Proof.
  intros (f & Hf & Hc).
  destruct st as [[d s fl t] b sc m r]. destruct f as [ino pos cl].
  destruct d as [u fp pp up dn ts ra pm fo pf bs].
  cbn in Hf, Hc. subst pf cl. unfold progress_closed.
  destruct a; cbn.
  - destruct m as [|rd|rd|err|err|err|err]; cbn.
    + destruct b as [|rd rest]; cbn; [eauto|].
      destruct (0 <? Z.of_nat (length (rdata rd))); cbn; eauto.
    + unfold write_output. cbn. destruct fo as [fo|]; cbn; [|eauto].
      destruct (os.Write s fo (rdata rd) (default None (head fl))) as [[[n e] f'] s'] eqn:Hw.
      cbn. destruct (non_nil e); cbn; eauto.
    + eauto.
    + destruct (non_nil err); cbn; eauto.
    + eauto.
    + unfold close_output. cbn. destruct fo as [fo|]; cbn; eauto.
    + eauto.
  - destruct r; cbn; eauto.
  - unfold reporter_stop. cbn. destruct r; cbn; eauto. destruct sc; cbn; eauto.
Qed.

Lemma progress_closed_run (sched : list Actor) (st : State) :
  progress_closed (world st) -> progress_closed (world (run sched st)).
Proof.
  apply (run_invariant (fun st => progress_closed (world st))).
  intros a st0. apply progress_closed_step.
Qed.

(** What an action of another than the reporter in the middle of its tick
    leaves of the progress file: the handle as it was, unless the action
    has closed it, and the file itself as it was. *)
Lemma other_step_progress (a : Actor) (st : State) (f : os.File) :
  a <> Reporter ->
  reporter st <> RSelect ->
  ProgressFile (dl (world st)) = Some f ->
  output_elsewhere (world st) f ->
  let st' := step a st in
  reporter st' = reporter st /\
  (exists f', ProgressFile (dl (world st')) = Some f' /\
              os.fino f' = os.fino f /\ (os.fclosed f' = false -> f' = f)) /\
  output_elsewhere (world st') f /\
  os.inodes (fs (world st')) !! os.fino f = os.inodes (fs (world st)) !! os.fino f.
Proof.
  intros Ha Hr Hf Hout.
  destruct st as [[d s fl t] b sc m r]. destruct f as [ino pos cl].
  destruct d as [u fp pp up dn ts ra pm fo pf bs].
  unfold output_elsewhere in *. cbn in Hf, Hr, Hout |- *. subst pf.
  destruct a; [|congruence|]; cbn.
  - destruct m as [|rd|rd|err|err|err|err]; cbn.
    + destruct b as [|rd rest]; cbn; [eauto 10|].
      destruct (0 <? Z.of_nat (length (rdata rd))); cbn; eauto 10.
    + unfold write_output. cbn. destruct fo as [fo|]; cbn; [|eauto 10].
      specialize (Hout fo eq_refl). unfold os.Write.
      destruct (os.fclosed fo); cbn.
      * split; [reflexivity|]. split; [eauto|]. split; [|reflexivity].
        intros fo' [= <-]. exact Hout.
      * destruct (non_nil _); cbn;
          (split; [reflexivity|]; split; [eauto|]; split;
           [intros fo' [= <-]; exact Hout
           |apply list_lookup_alter_ne; exact Hout]).
    + eauto 10.
    + destruct (non_nil err); cbn; [eauto 10|].
      unfold os.Remove. destruct (os.names s !! pp); cbn; eauto 10.
    + split; [reflexivity|]. split; [|eauto].
      destruct cl; cbn; eexists; (split; [reflexivity|]); split; auto; discriminate.
    + unfold close_output. cbn. destruct fo as [fo|]; cbn; [|eauto 10].
      specialize (Hout fo eq_refl).
      split; [reflexivity|]. split; [eauto|]. split; [|reflexivity].
      intros fo' [= <-]. unfold os.Close. destruct (os.fclosed fo); exact Hout.
    + eauto 10.
  - unfold reporter_stop. cbn. destruct r; cbn; eauto 10. congruence.
Qed.

Lemma others_progress (sched : list Actor) (st : State) (f : os.File) :
  Forall (fun a => a <> Reporter) sched ->
  reporter st <> RSelect ->
  ProgressFile (dl (world st)) = Some f ->
  output_elsewhere (world st) f ->
  let st' := run sched st in
  reporter st' = reporter st /\
  (exists f', ProgressFile (dl (world st')) = Some f' /\
              os.fino f' = os.fino f /\ (os.fclosed f' = false -> f' = f)) /\
  output_elsewhere (world st') f /\
  os.inodes (fs (world st')) !! os.fino f = os.inodes (fs (world st)) !! os.fino f.
Proof.
  intros Hs. revert st f. induction Hs as [|a sched Ha _ IH]; intros st f Hr Hf Hout.
  - cbn. eauto 10.
  - destruct (other_step_progress a st f Ha Hr Hf Hout) as (Hr1 & (f1 & Hf1 & Hi1 & Hsame1) & Hout1 & Hn1).
    assert (Hout1' : output_elsewhere (world (step a st)) f1).
    { intros fo Hfo. rewrite Hi1. exact (Hout1 fo Hfo). }
    destruct (IH (step a st) f1 ltac:(congruence) Hf1 Hout1')
      as (Hr2 & (f2 & Hf2 & Hi2 & Hsame2) & Hout2 & Hn2).
    change (run (a :: sched) st) with (run sched (step a st)).
    split; [congruence|]. split.
    + exists f2. split; [exact Hf2|]. split; [congruence|].
      intros Ho. pose proof (Hsame2 Ho) as ->. exact (Hsame1 Ho).
    + split.
      * intros fo Hfo. rewrite <- Hi1. exact (Hout2 fo Hfo).
      * rewrite <- Hn1, <- Hi1. exact Hn2.
Qed.

(** The five actions of a tick on an open handle. *)
Lemma reporter_step_open (st : State) (f : os.File) (nd : os.Inode) :
  ProgressFile (dl (world st)) = Some f -> os.fclosed f = false ->
  os.inodes (fs (world st)) !! os.fino f = Some nd ->
  let st' := reporter_step st in
  OutputFile (dl (world st')) = OutputFile (dl (world st)) /\
  match reporter st with
  | RSelect =>
      reporter st' = RSeek (Downloaded (dl (world st))) /\
      ProgressFile (dl (world st')) = Some f /\
      os.inodes (fs (world st')) !! os.fino f = Some nd
  | RSeek c =>
      reporter st' = RTruncate c /\
      ProgressFile (dl (world st')) = Some (os.mkFile (os.fino f) 0 false) /\
      os.inodes (fs (world st')) !! os.fino f = Some nd
  | RTruncate c =>
      reporter st' = RWriteString c /\
      ProgressFile (dl (world st')) = Some f /\
      os.inodes (fs (world st')) !! os.fino f = Some (os.set_idata [] nd)
  | RWriteString c =>
      reporter st' = RSync /\
      ProgressFile (dl (world st'))
        = Some (os.mkFile (os.fino f) (os.fpos f + length (decimal c)) false) /\
      os.inodes (fs (world st')) !! os.fino f
        = Some (os.set_idata (os.pwrite (os.idata nd) (os.fpos f) (decimal c)) nd)
  | RSync =>
      reporter st' = RSelect /\
      ProgressFile (dl (world st')) = Some f /\
      os.inodes (fs (world st')) !! os.fino f
        = Some (os.mkInode (os.idata nd) (os.idata nd) (os.iperm nd))
  | RNotStarted | RStopped => True
  end.
Proof.
  intros Hf Hopen Hnd.
  destruct st as [[d s fl t] b sc m r]. destruct f as [ino pos cl].
  destruct d as [u fp pp up dn ts ra pm fo pf bs].
  cbn in Hf, Hopen, Hnd. subst pf cl. unfold decimal.
  destruct r; cbn -[os.pwrite list_byte_of_string wrap64];
    rewrite ?list_lookup_alter_eq, ?Hnd; cbn -[os.pwrite list_byte_of_string wrap64];
    auto.
Qed.

Lemma run_cons (a : Actor) (sched : list Actor) (st : State) :
  run (a :: sched) st = run sched (step a st).
Proof. reflexivity. Qed.

Lemma tick_with_run (m1 m2 m3 m4 : list Actor) (st : State) :
  run (tick_with m1 m2 m3 m4) st
  = step Reporter (run m4 (step Reporter (run m3 (step Reporter
      (run m2 (step Reporter (run m1 (step Reporter st)))))))).
Proof.
  unfold tick_with. repeat (rewrite run_cons || rewrite run_app). reflexivity.
Qed.

Ltac handle_closed Hfinal f Hf Hc :=
  exfalso; apply Hfinal;
  repeat first
    [ solve [exists f; split; [exact Hf | exact Hc]]
    | apply (progress_closed_step Reporter)
    | apply progress_closed_run ].

(** A whole tick on a handle that is still open when the tick ends, with
    whatever the others have done in between. *)
Lemma tick_with_effect (st : State) (f : os.File) (m1 m2 m3 m4 : list Actor) :
  reporter st = RSelect ->
  progress_open (world st) f ->
  output_elsewhere (world st) f ->
  Forall (fun a => a <> Reporter) (m1 ++ m2 ++ m3 ++ m4) ->
  let st' := run (tick_with m1 m2 m3 m4) st in
  ~ progress_closed (world st') ->
  reporter st' = RSelect /\
  exists f',
    progress_open (world st') f' /\ os.fino f' = os.fino f /\
    os.contents (fs (world st')) f' = decimal (Downloaded (dl (world st))) /\
    os.durable (fs (world st')) f' = decimal (Downloaded (dl (world st))).
Proof.
  intros Hr (Hf & Hopen & [nd Hnd]) Hout Hm st' Hfinal.
  assert (Est : st' = _) by apply tick_with_run. clearbody st'. subst st'.
  apply Forall_app in Hm as [Hm1 Hm]. apply Forall_app in Hm as [Hm2 Hm].
  apply Forall_app in Hm as [Hm3 Hm4].
  set (c := Downloaded (dl (world st))).
  (* the sample *)
  pose proof (reporter_step_open st f nd Hf Hopen Hnd) as Hs. cbv zeta in Hs.
  rewrite Hr in Hs. fold c in Hs. destruct Hs as (Ho & Hr1 & Hf1 & Hn1).
  change (reporter_step st) with (step Reporter st) in *.
  assert (Hout1 : output_elsewhere (world (step Reporter st)) f).
  { intros fo Hfo. rewrite Ho in Hfo. exact (Hout fo Hfo). }
  destruct (others_progress m1 _ f Hm1 ltac:(rewrite Hr1; discriminate) Hf1 Hout1)
    as (Hr1' & (f1 & Hf1' & _ & Hsame) & Hout1' & Hn1').
  rewrite Hr1 in Hr1'. rewrite Hn1 in Hn1'.
  destruct (os.fclosed f1) eqn:Hc; [handle_closed Hfinal f1 Hf1' Hc|].
  specialize (Hsame eq_refl). subst f1. clear Ho Hr1 Hf1 Hn1 Hout1 Hc.
  set (t1 := run m1 (step Reporter st)) in *.
  (* the seek *)
  pose proof (reporter_step_open t1 f nd Hf1' Hopen Hn1') as Hs. cbv zeta in Hs.
  rewrite Hr1' in Hs. destruct Hs as (Ho & Hr2 & Hf2 & Hn2).
  change (reporter_step t1) with (step Reporter t1) in *.
  set (g := os.mkFile (os.fino f) 0 false) in *.
  assert (Hout2 : output_elsewhere (world (step Reporter t1)) g).
  { intros fo Hfo. rewrite Ho in Hfo. exact (Hout1' fo Hfo). }
  destruct (others_progress m2 _ g Hm2 ltac:(rewrite Hr2; discriminate) Hf2 Hout2)
    as (Hr2' & (f2 & Hf2' & _ & Hsame) & Hout2' & Hn2').
  rewrite Hr2 in Hr2'. change (os.fino g) with (os.fino f) in Hn2'. rewrite Hn2 in Hn2'.
  destruct (os.fclosed f2) eqn:Hc; [handle_closed Hfinal f2 Hf2' Hc|].
  specialize (Hsame eq_refl). subst f2. clear Ho Hr2 Hf2 Hn2 Hout2 Hc.
  set (t2 := run m2 (step Reporter t1)) in *.
  (* the truncation *)
  pose proof (reporter_step_open t2 g nd Hf2' eq_refl Hn2') as Hs. cbv zeta in Hs.
  rewrite Hr2' in Hs. destruct Hs as (Ho & Hr3 & Hf3 & Hn3).
  change (reporter_step t2) with (step Reporter t2) in *.
  assert (Hout3 : output_elsewhere (world (step Reporter t2)) g).
  { intros fo Hfo. rewrite Ho in Hfo. exact (Hout2' fo Hfo). }
  destruct (others_progress m3 _ g Hm3 ltac:(rewrite Hr3; discriminate) Hf3 Hout3)
    as (Hr3' & (f3 & Hf3' & _ & Hsame) & Hout3' & Hn3').
  rewrite Hr3 in Hr3'. rewrite Hn3 in Hn3'.
  destruct (os.fclosed f3) eqn:Hc; [handle_closed Hfinal f3 Hf3' Hc|].
  specialize (Hsame eq_refl). subst f3. clear Ho Hr3 Hf3 Hn3 Hout3 Hc.
  set (t3 := run m3 (step Reporter t2)) in *.
  (* the write *)
  pose proof (reporter_step_open t3 g _ Hf3' eq_refl Hn3') as Hs. cbv zeta in Hs.
  rewrite Hr3' in Hs. destruct Hs as (Ho & Hr4 & Hf4 & Hn4).
  change (reporter_step t3) with (step Reporter t3) in *.
  cbn [os.set_idata os.idata os.fpos os.fino g] in Hf4, Hn4.
  rewrite pwrite_empty in Hn4.
  set (h := os.mkFile (os.fino f) (0 + length (decimal c)) false) in *.
  assert (Hout4 : output_elsewhere (world (step Reporter t3)) h).
  { intros fo Hfo. rewrite Ho in Hfo. exact (Hout3' fo Hfo). }
  destruct (others_progress m4 _ h Hm4 ltac:(rewrite Hr4; discriminate) Hf4 Hout4)
    as (Hr4' & (f4 & Hf4' & _ & Hsame) & Hout4' & Hn4').
  rewrite Hr4 in Hr4'. change (os.fino h) with (os.fino f) in Hn4'. rewrite Hn4 in Hn4'.
  destruct (os.fclosed f4) eqn:Hc; [handle_closed Hfinal f4 Hf4' Hc|].
  specialize (Hsame eq_refl). subst f4. clear Ho Hr4 Hf4 Hn4 Hout4 Hc.
  set (t4 := run m4 (step Reporter t3)) in *.
  (* the sync *)
  pose proof (reporter_step_open t4 h _ Hf4' eq_refl Hn4') as Hs. cbv zeta in Hs.
  rewrite Hr4' in Hs. destruct Hs as (_ & Hr5 & Hf5 & Hn5).
  change (reporter_step t4) with (step Reporter t4) in *.
  cbn [os.idata os.iperm os.fino h] in Hn5.
  split; [exact Hr5|].
  exists h. split.
  - split; [exact Hf5|]. split; [reflexivity|]. change (os.fino h) with (os.fino f).
    rewrite Hn5. eauto.
  - split; [reflexivity|]. unfold os.contents, os.durable.
    change (os.fino h) with (os.fino f). rewrite Hn5. split; reflexivity.
Qed.

Lemma one_file_wf (path content : string) : fs_wf (one_file path content).
Proof.
  unfold one_file. split; cbn [os.names os.inodes].
  - intros p i H. apply lookup_singleton_Some in H as [_ <-]. cbn. lia.
  - intros p q i Hp Hq. apply lookup_singleton_Some in Hp as [<- _].
    apply lookup_singleton_Some in Hq as [<- _]. reflexivity.
Qed.

(** C8.  Every tick of the reporter, in every run of [Download] and
    whatever [Download] does between the tick's five actions: when the
    progress file is open (still open when the tick ends, so open all
    through it, since a closed handle is never reopened), the tick has
    replaced the whole content of that file by the decimal numeral of the
    value [Downloaded] had when the tick sampled it, and has it synced to
    stable storage, by seek to 0, truncate to 0, write, sync; nothing of the
    old content is left.  No condition on [TotalSize] is involved. *)
Theorem tick_rewrites_sidecar (env : Env) (sched m1 m2 m3 m4 : list Actor) (w : World) :
  fs_wf (fs w) ->
  FilePath (dl w) <> ProgressPath (dl w) ->
  let st := Download env sched w in
  reporter st = RSelect ->
  Forall (fun a => a <> Reporter) (m1 ++ m2 ++ m3 ++ m4) ->
  let st' := Download env (sched ++ tick_with m1 m2 m3 m4) w in
  ~ progress_closed (world st') ->
  reporter st' = RSelect /\
  exists f,
    progress_open (world st') f /\
    os.contents (fs (world st')) f = decimal (Downloaded (dl (world st))) /\
    os.durable (fs (world st')) f = decimal (Downloaded (dl (world st))).
Proof.
  intros Hwf Hne st Hr Hm st' Hfinal.
  assert (Est : st' = run (tick_with m1 m2 m3 m4) st) by apply run_app.
  clearbody st'. subst st'.
  destruct (returned (Download_start env w)) as [err|] eqn:Hret.
  { destruct (Download_start_exit env w err Hret) as (e & w' & _ & Hexit & _).
    unfold st, Download in Hr. rewrite Hexit, run_exit in Hr. discriminate Hr. }
  destruct (Download_start_files env w Hwf Hne Hret)
    as (fo0 & fp0 & Hh0 & _ & _ & _ & _ & _ & _ & _ & _ & _ & [nd0 [Hnd0 _]] & _).
  destruct (run_keeps sched _ fo0 fp0 Hh0)
    as (fo & fp & (Hfo & Hfp & Hdiff) & _ & Hip & _ & _ & Hlen & _).
  fold (Download env sched w) in Hfo, Hfp, Hlen. fold st in Hfo, Hfp, Hlen.
  assert (Hnd : is_Some (os.inodes (fs (world st)) !! os.fino fp)).
  { apply lookup_lt_is_Some. rewrite Hip, Hlen. apply lookup_lt_is_Some. eauto. }
  destruct (os.fclosed fp) eqn:Hc.
  { exfalso. apply Hfinal, progress_closed_run. exists fp. split; assumption. }
  assert (Hout : output_elsewhere (world st) fp).
  { intros fo' Hfo'. rewrite Hfo in Hfo'. injection Hfo' as <-. exact Hdiff. }
  destruct (tick_with_effect st fp m1 m2 m3 m4 Hr (conj Hfp (conj Hc Hnd)) Hout Hm Hfinal)
    as (Hr' & f' & Hopen & _ & Hcont & Hdur).
  split; [exact Hr'|]. exists f'. auto.
Qed.

Lemma tick_rewrites_sidecar_witness :
  let st := Download ten_byte_server (replicate 3 Main) negative_sidecar in
  let st' := Download ten_byte_server tick_during_second_chunk negative_sidecar in
  reporter st' = RSelect /\
  exists f,
    progress_open (world st') f /\
    os.contents (fs (world st')) f = decimal (Downloaded (dl (world st))) /\
    os.durable (fs (world st')) f = decimal (Downloaded (dl (world st))).
Proof.
  apply (tick_rewrites_sidecar ten_byte_server (replicate 3 Main) [Main] [Main] [Main] []
           negative_sidecar).
  - apply one_file_wf.
  - discriminate.
  - reflexivity.
  - repeat constructor; discriminate.
  - intros (f & Hf & Hc). vm_compute in Hf. injection Hf as <-. discriminate Hc.
Defined.

(** The tick has replaced all eight bytes of the old content, while
    [Download] went on to count ten bytes. *)
Lemma tick_during_second_chunk_file :
  let st' := Download ten_byte_server tick_during_second_chunk negative_sidecar in
  os.ReadFile (fs (world st')) "f.progress" = (list_byte_of_string "4", None) /\
  Downloaded (dl (world st')) = 10.
Proof. vm_compute. split; reflexivity. Qed.

(** Where the tick needs its handle open to the end.  [Download] never
    stops the reporter, so a tick can begin on the open handle and have the
    deferred [ProgressFile.Close()] fall between its [Truncate] and its
    [WriteString]: the write then fails with [os.ErrClosed], which is dropped,
    and the progress file is left empty, with the value an earlier tick had
    put there gone. *)
Lemma tick_across_close_empties_sidecar :
  let st := Download server_reset before_closes ten_bytes in
  let st' := Download server_reset (before_closes ++ tick_across_close) ten_bytes in
  reporter st = RSelect /\
  (exists f, progress_open (world st) f) /\
  os.ReadFile (fs (world st)) "f.progress" = (decimal 5, None) /\
  Downloaded (dl (world st)) = 9 /\
  returned st' = Some (Some (EnvError 104)) /\
  progress_closed (world st') /\
  os.ReadFile (fs (world st')) "f.progress" = ([], None).
Proof.
  vm_compute. repeat split; eauto.
Qed.
